(** * noble-uwp: the BLE central bindings (lib/bindings.js, lib/rt-utils.js)

    A shallow embedding of the bookkeeping code of the bindings: the
    text formatters, the decoder of characteristic properties, the resource
    tracker of rt-utils.js, the advertisement handler, the cached GATT
    resolvers and the notify / writeValue operations.

    Conventions of the embedding.
    - JavaScript strings are [string]; only the ASCII repertoire matters for
      the identifiers handled here (UUIDs, addresses, event names).
    - JavaScript numbers that hold integers are [Z].
    - Objects used as dictionaries ([_deviceMap], [serviceMap], [disposableMap],
      ...) are [gmap string _]; their keys are device identifiers, UUIDs and
      '/'-joined UUIDs, which never name a property of [Object.prototype].
    - Promises are run to completion: an operation returns how its promise
      settled together with the world it left behind. *)

From Stdlib Require Import ZArith List String Ascii Bool Lia.
From stdpp Require Import base option list gmap strings.

Open Scope string_scope.
Open Scope Z_scope.
Open Scope list_scope.

(** ** JavaScript string primitives *)

Module JsString.

Definition is_upper (c : ascii) : bool :=
  let n := N_of_ascii c in ((65 <=? n) && (n <=? 90))%N.

Definition is_lower (c : ascii) : bool :=
  let n := N_of_ascii c in ((97 <=? n) && (n <=? 122))%N.

Definition lower_char (c : ascii) : ascii :=
  if is_upper c then ascii_of_N (N_of_ascii c + 32) else c.

Definition upper_char (c : ascii) : ascii :=
  if is_lower c then ascii_of_N (N_of_ascii c - 32) else c.

(** [String.prototype.toLowerCase]. *)
Fixpoint toLowerCase (s : string) : string :=
  match s with
  | EmptyString => EmptyString
  | String c s' => String (lower_char c) (toLowerCase s')
  end.

(** [String.prototype.substr(start, len)] for non-negative arguments. *)
Definition substr (start len : nat) (s : string) : string :=
  substring start len s.

(** [s.replace(/[cs]/g, '')]: every character of the class is dropped. *)
Fixpoint remove_chars (cls : ascii -> bool) (s : string) : string :=
  match s with
  | EmptyString => EmptyString
  | String c s' =>
      if cls c then remove_chars cls s' else String c (remove_chars cls s')
  end.

(** Truthiness of a string: only the empty string is falsy. *)
Definition truthy (s : string) : bool :=
  match s with EmptyString => false | String _ _ => true end.

(** The regular expressions of the bindings are sequences of one-character
    atoms: a literal or the class [[0-9A-F]]. *)
Inductive Atom : Type :=
  | Lit (c : ascii)
  | HexClass.

Definition is_digit (c : ascii) : bool :=
  let n := N_of_ascii c in ((48 <=? n) && (n <=? 57))%N.

Definition is_AF (c : ascii) : bool :=
  let n := N_of_ascii c in ((65 <=? n) && (n <=? 70))%N.

(** Matching of one atom under the [i] flag: both sides are canonicalised
    with the upper-case mapping. *)
Definition atom_matches_i (a : Atom) (c : ascii) : bool :=
  match a with
  | Lit l => Ascii.eqb (upper_char c) (upper_char l)
  | HexClass => is_digit c || is_AF (upper_char c)
  end.

Fixpoint match_here (pat : list Atom) (s : string) : bool :=
  match pat with
  | [] => true
  | a :: pat' =>
      match s with
      | EmptyString => false
      | String c s' => atom_matches_i a c && match_here pat' s'
      end
  end.

(** [RegExp.prototype.test] for an unanchored pattern: a match may start at
    any offset. *)
Fixpoint regex_test_i (pat : list Atom) (s : string) : bool :=
  match_here pat s ||
  match s with
  | EmptyString => false
  | String _ s' => regex_test_i pat s'
  end.

Fixpoint lits (s : string) : list Atom :=
  match s with
  | EmptyString => []
  | String c s' => Lit c :: lits s'
  end.

End JsString.

Import JsString.

(** ** lib/bindings.js: formatters *)

(** The pattern [/{0000[0-9A-F]{4}-0000-1000-8000-00805F9B34FB}/i]. *)
Definition base_uuid_regex : list Atom :=
  lits "{0000" ++ repeat HexClass 4 ++ lits "-0000-1000-8000-00805F9B34FB}".

Definition hyphen_or_brace (c : ascii) : bool :=
  Ascii.eqb c "-" || Ascii.eqb c "{" || Ascii.eqb c "}".

Definition formatUuid (uuid : string) : string :=
  if negb (truthy uuid) then uuid
  else if regex_test_i base_uuid_regex uuid then toLowerCase (substr 5 4 uuid)
  else toLowerCase (remove_chars hyphen_or_brace uuid).

(** One digit of [Number.prototype.toString(16)]. *)
Definition hex_digit (d : Z) : ascii :=
  if d <? 10 then ascii_of_N (Z.to_N (48 + d)) else ascii_of_N (Z.to_N (87 + d)).

(** [n.toString(16)] for a non-negative integer [n]: the digits are produced
    from the least significant one; the fuel bounds the number of digits. *)
Fixpoint toString16_aux (fuel : nat) (n : Z) (acc : string) : string :=
  match fuel with
  | O => acc
  | S fuel' =>
      let acc' := String (hex_digit (n mod 16)) acc in
      if n / 16 =? 0 then acc' else toString16_aux fuel' (n / 16) acc'
  end.

Definition toString16 (n : Z) : string :=
  toString16_aux (S (Z.to_nat (Z.log2 n))) n "".

(** [while (s.length < 12) s = '0' + s]. *)
Fixpoint pad_loop (fuel : nat) (s : string) : string :=
  match fuel with
  | O => s
  | S fuel' =>
      if (String.length s <? 12)%nat then pad_loop fuel' (String "0" s) else s
  end.

Definition formatBluetoothAddress (address : Z) : string :=
  if address =? 0 then "null"
  else
    let formattedAddress := toString16 address in
    let formattedAddress := pad_loop 12 formattedAddress in
    substr 0 2 formattedAddress +:+ ":" +:+ substr 2 2 formattedAddress +:+ ":" +:+
    substr 4 2 formattedAddress +:+ ":" +:+ substr 6 2 formattedAddress +:+ ":" +:+
    substr 8 2 formattedAddress +:+ ":" +:+ substr 10 2 formattedAddress.

(** ** Enumerations of the Windows projection

    The NodeRT modules that define these enumerations are not part of the
    repository; the code is parametric in them.  The [uwp_] instances carry
    the values documented for the Windows.Devices.Bluetooth namespaces. *)

Record GattCharacteristicProperties : Type := {
  gcp_broadcast : Z;
  gcp_read : Z;
  gcp_writeWithoutResponse : Z;
  gcp_write : Z;
  gcp_notify : Z;
  gcp_indicate : Z;
  gcp_authenticatedSignedWrites : Z;
  gcp_extendedProperties : Z
}.

Record BluetoothLEAdvertisementType : Type := {
  connectableUndirected : Z;
  connectableDirected : Z;
  scannableUndirected : Z;
  nonConnectableUndirected : Z;
  scanResponse : Z
}.

Record BluetoothLEAdvertisementDataTypes : Type := {
  dt_txPowerLevel : Z
}.

Record GattCommunicationStatus : Type := {
  gcs_success : Z;
  gcs_unreachable : Z;
  gcs_protocolError : Z
}.

Record Projection : Type := {
  props_enum : GattCharacteristicProperties;
  adv_enum : BluetoothLEAdvertisementType;
  data_enum : BluetoothLEAdvertisementDataTypes;
  status_enum : GattCommunicationStatus
}.

Definition uwp_GattCharacteristicProperties : GattCharacteristicProperties :=
  {| gcp_broadcast := 1; gcp_read := 2; gcp_writeWithoutResponse := 4;
     gcp_write := 8; gcp_notify := 16; gcp_indicate := 32;
     gcp_authenticatedSignedWrites := 64; gcp_extendedProperties := 128 |}.

Definition uwp_BluetoothLEAdvertisementType : BluetoothLEAdvertisementType :=
  {| connectableUndirected := 0; connectableDirected := 1;
     scannableUndirected := 2; nonConnectableUndirected := 3;
     scanResponse := 4 |}.

Definition uwp_BluetoothLEAdvertisementDataTypes : BluetoothLEAdvertisementDataTypes :=
  {| dt_txPowerLevel := 10 |}.

Definition uwp_GattCommunicationStatus : GattCommunicationStatus :=
  {| gcs_success := 0; gcs_unreachable := 1; gcs_protocolError := 2 |}.

Definition uwp : Projection :=
  {| props_enum := uwp_GattCharacteristicProperties;
     adv_enum := uwp_BluetoothLEAdvertisementType;
     data_enum := uwp_BluetoothLEAdvertisementDataTypes;
     status_enum := uwp_GattCommunicationStatus |}.

(** ** Bit operations on JavaScript numbers *)

(** [ToInt32]: the operands of [&] are wrapped to signed 32-bit integers. *)
Definition toInt32 (z : Z) : Z :=
  let m := z mod 2 ^ 32 in
  if m <? 2 ^ 31 then m else m - 2 ^ 32.

Definition bitand (a b : Z) : Z := Z.land (toInt32 a) (toInt32 b).

(** Truthiness of a number: zero is falsy. *)
Definition truthy_num (z : Z) : bool := negb (z =? 0).

(** [strings.push(x)] guarded by [if (cond)]. *)
Definition push_if (cond : bool) (x : string) (strings : list string) : list string :=
  if cond then strings ++ [x] else strings.

Definition characteristicPropertiesToStrings
    (G : GattCharacteristicProperties) (props : Z) : list string :=
  let strings := [] in
  let strings := push_if (truthy_num (bitand props (gcp_broadcast G))) "broadcast" strings in
  let strings := push_if (truthy_num (bitand props (gcp_read G))) "read" strings in
  let strings := push_if (truthy_num (bitand props (gcp_writeWithoutResponse G)))
                   "writeWithoutResponse" strings in
  let strings := push_if (truthy_num (bitand props (gcp_write G))) "write" strings in
  let strings := push_if (truthy_num (bitand props (gcp_notify G))) "notify" strings in
  let strings := push_if (truthy_num (bitand props (gcp_indicate G))) "indicate" strings in
  let strings := push_if (truthy_num (bitand props (gcp_broadcast G)))
                   "authenticatedSignedWrites" strings in
  let strings := push_if (truthy_num (bitand props (gcp_extendedProperties G)))
                   "extendedProperties" strings in
  strings.

(** ** Errors and completions *)

Inductive JsError : Type :=
  | Error (message : string)            (* new Error(message) *)
  | ReferenceError (identifier : string) (* an identifier no scope binds *)
  | TypeError (property : string)        (* a property read on null or undefined *)
  | NativeError (code : Z).             (* the err a NodeRT call reports *)

(** How a call ends.  [Thrown]: the call itself threw. [Fulfilled] and
    [Rejected]: it returned (a promise settled that way, or a plain value). *)
Inductive Completion (A : Type) : Type :=
  | Thrown (e : JsError)
  | Fulfilled (a : A)
  | Rejected (e : JsError).

Arguments Thrown {A} e.
Arguments Fulfilled {A} a.
Arguments Rejected {A} e.

(** ** lib/rt-utils.js: the tracker of disposable objects *)

Module RtUtils.

(** A projected WinRT object: its identity and whether [typeof obj.close]
    is ["function"]. *)
Record RtObject : Type := { oid : nat; closable : bool }.

(** [Object.is] on objects is identity. *)
Definition Object_is (a b : RtObject) : bool := Nat.eqb (oid a) (oid b).

Record RtState : Type := {
  disposableMap : gmap string (list RtObject);
  closed : list RtObject;              (* the calls of close(), oldest first *)
  keepAliveIntervalCount : Z;
  keepAliveInterval : bool             (* an interval is installed *)
}.

Definition initial : RtState :=
  {| disposableMap := ∅; closed := []; keepAliveIntervalCount := 0;
     keepAliveInterval := false |}.

Definition set_disposableMap (m : gmap string (list RtObject)) (st : RtState) : RtState :=
  {| disposableMap := m; closed := closed st;
     keepAliveIntervalCount := keepAliveIntervalCount st;
     keepAliveInterval := keepAliveInterval st |}.

Definition close (o : RtObject) (st : RtState) : RtState :=
  {| disposableMap := disposableMap st; closed := closed st ++ [o];
     keepAliveIntervalCount := keepAliveIntervalCount st;
     keepAliveInterval := keepAliveInterval st |}.

Definition keepAlive (k : bool) (st : RtState) : RtState :=
  if k then
    let n := keepAliveIntervalCount st + 1 in
    {| disposableMap := disposableMap st; closed := closed st;
       keepAliveIntervalCount := n;
       keepAliveInterval := if n =? 1 then true else keepAliveInterval st |}
  else
    let n := keepAliveIntervalCount st - 1 in
    {| disposableMap := disposableMap st; closed := closed st;
       keepAliveIntervalCount := n;
       keepAliveInterval := if n =? 0 then false else keepAliveInterval st |}.

(** [obj] is [None] for a falsy argument (null, undefined). *)
Definition trackDisposable (key : string) (obj : option RtObject) (st : RtState)
  : Completion (option RtObject) * RtState :=
  match obj with
  | None => (Fulfilled obj, st)
  | Some o =>
      if negb (closable o) then
        (Thrown (Error "Object does not have a close function."), st)
      else
        let disposableList := default [] (disposableMap st !! key) in
        if existsb (Object_is o) disposableList then (Fulfilled obj, st)
        else (Fulfilled obj,
              set_disposableMap (<[key := disposableList ++ [o]]> (disposableMap st)) st)
  end.

(** [array.forEach(obj => trackDisposable(key, obj))]; a throw leaves the
    objects before it tracked. *)
Fixpoint trackDisposables_loop (key : string) (array : list RtObject) (st : RtState)
  : Completion unit * RtState :=
  match array with
  | [] => (Fulfilled tt, st)
  | obj :: rest =>
      match trackDisposable key (Some obj) st with
      | (Fulfilled _, st') => trackDisposables_loop key rest st'
      | (Thrown e, st') => (Thrown e, st')
      | (Rejected e, st') => (Thrown e, st')
      end
  end.

Definition trackDisposables (key : string) (array : list RtObject) (st : RtState)
  : Completion (list RtObject) * RtState :=
  match trackDisposables_loop key array st with
  | (Fulfilled _, st') => (Fulfilled array, st')
  | (Thrown e, st') => (Thrown e, st')
  | (Rejected e, st') => (Thrown e, st')
  end.

(** The loop [for (i = 0; i < disposableList.length; i++) disposableList[i].close()]. *)
Definition disposeAll (key : string) (st : RtState) : RtState :=
  match disposableMap st !! key with
  | None => st
  | Some disposableList => fold_left (fun s disposable => close disposable s) disposableList st
  end.

End RtUtils.

Import RtUtils.

(** ** lib/bindings.js: data *)

Inductive AddressType : Type := public | random.

Record Service : Type := { svc_object : RtObject; svc_uuid : string }.
Record Characteristic : Type :=
  { chr_id : nat; chr_uuid : string; characteristicProperties : Z }.
Record Descriptor : Type := { dsc_id : nat; dsc_uuid : string }.

(** One entry of [_deviceMap].  [None] stands for null or undefined. *)
Record DeviceRecord : Type := {
  name : option string;
  address : Z;
  formattedAddress : string;
  addressType : AddressType;
  connectable : option bool;
  serviceUuids : list string;
  txPowerLevel : option Z;
  manufacturerData : option (list Z);
  device : option RtObject;
  serviceMap : gmap string Service;
  characteristicMap : gmap string Characteristic;
  descriptorMap : gmap string Descriptor
}.

Definition set_name (v : option string) (r : DeviceRecord) : DeviceRecord :=
  {| name := v; address := address r; formattedAddress := formattedAddress r;
     addressType := addressType r; connectable := connectable r;
     serviceUuids := serviceUuids r; txPowerLevel := txPowerLevel r;
     manufacturerData := manufacturerData r; device := device r;
     serviceMap := serviceMap r; characteristicMap := characteristicMap r;
     descriptorMap := descriptorMap r |}.

Definition set_serviceUuids (v : list string) (r : DeviceRecord) : DeviceRecord :=
  {| name := name r; address := address r; formattedAddress := formattedAddress r;
     addressType := addressType r; connectable := connectable r;
     serviceUuids := v; txPowerLevel := txPowerLevel r;
     manufacturerData := manufacturerData r; device := device r;
     serviceMap := serviceMap r; characteristicMap := characteristicMap r;
     descriptorMap := descriptorMap r |}.

Definition set_txPowerLevel (v : option Z) (r : DeviceRecord) : DeviceRecord :=
  {| name := name r; address := address r; formattedAddress := formattedAddress r;
     addressType := addressType r; connectable := connectable r;
     serviceUuids := serviceUuids r; txPowerLevel := v;
     manufacturerData := manufacturerData r; device := device r;
     serviceMap := serviceMap r; characteristicMap := characteristicMap r;
     descriptorMap := descriptorMap r |}.

Definition set_manufacturerData (v : option (list Z)) (r : DeviceRecord) : DeviceRecord :=
  {| name := name r; address := address r; formattedAddress := formattedAddress r;
     addressType := addressType r; connectable := connectable r;
     serviceUuids := serviceUuids r; txPowerLevel := txPowerLevel r;
     manufacturerData := v; device := device r;
     serviceMap := serviceMap r; characteristicMap := characteristicMap r;
     descriptorMap := descriptorMap r |}.

Definition set_serviceMap (v : gmap string Service) (r : DeviceRecord) : DeviceRecord :=
  {| name := name r; address := address r; formattedAddress := formattedAddress r;
     addressType := addressType r; connectable := connectable r;
     serviceUuids := serviceUuids r; txPowerLevel := txPowerLevel r;
     manufacturerData := manufacturerData r; device := device r;
     serviceMap := v; characteristicMap := characteristicMap r;
     descriptorMap := descriptorMap r |}.

Definition set_characteristicMap (v : gmap string Characteristic) (r : DeviceRecord)
  : DeviceRecord :=
  {| name := name r; address := address r; formattedAddress := formattedAddress r;
     addressType := addressType r; connectable := connectable r;
     serviceUuids := serviceUuids r; txPowerLevel := txPowerLevel r;
     manufacturerData := manufacturerData r; device := device r;
     serviceMap := serviceMap r; characteristicMap := v;
     descriptorMap := descriptorMap r |}.

Definition set_descriptorMap (v : gmap string Descriptor) (r : DeviceRecord)
  : DeviceRecord :=
  {| name := name r; address := address r; formattedAddress := formattedAddress r;
     addressType := addressType r; connectable := connectable r;
     serviceUuids := serviceUuids r; txPowerLevel := txPowerLevel r;
     manufacturerData := manufacturerData r; device := device r;
     serviceMap := serviceMap r; characteristicMap := characteristicMap r;
     descriptorMap := v |}.

Definition set_device (v : option RtObject) (r : DeviceRecord) : DeviceRecord :=
  {| name := name r; address := address r; formattedAddress := formattedAddress r;
     addressType := addressType r; connectable := connectable r;
     serviceUuids := serviceUuids r; txPowerLevel := txPowerLevel r;
     manufacturerData := manufacturerData r; device := v;
     serviceMap := serviceMap r; characteristicMap := characteristicMap r;
     descriptorMap := descriptorMap r |}.

(** [device = null; serviceMap = {}; characteristicMap = {}; descriptorMap = {}] *)
Definition drop_connection (r : DeviceRecord) : DeviceRecord :=
  {| name := name r; address := address r; formattedAddress := formattedAddress r;
     addressType := addressType r; connectable := connectable r;
     serviceUuids := serviceUuids r; txPowerLevel := txPowerLevel r;
     manufacturerData := manufacturerData r; device := None;
     serviceMap := ∅; characteristicMap := ∅; descriptorMap := ∅ |}.

(** The arguments of the watcher's 'received' event. *)
Record DataSection : Type := { ds_dataType : Z; ds_data : list Z }.
Record ManufacturerSection : Type := { companyId : Z; md_data : list Z }.
Record Advertisement : Type := {
  adv_localName : string;
  adv_dataSections : list DataSection;
  adv_manufacturerData : list ManufacturerSection;
  adv_serviceUuids : list string
}.
Record ReceivedEventArgs : Type := {
  bluetoothAddress : Z;
  advertisementType : Z;
  rawSignalStrengthInDBm : Z;
  advertisement : Advertisement
}.

(** The [advertisement] object of a 'discover' event. *)
Record AdvertisementSnapshot : Type := {
  snap_localName : option string;
  snap_txPowerLevel : option Z;
  snap_manufacturerData : option (list Z);
  snap_serviceUuids : list string;
  snap_serviceData : list (list Z)
}.

(** The valueChanged listener of [notify]: a closure over three names. *)
Record Listener : Type := {
  lst_deviceUuid : string;
  lst_serviceUuid : string;
  lst_characteristicUuid : string
}.

(** What [this.emit] sends to the application. *)
Inductive Event : Type :=
  | ev_discover (deviceUuid address : string) (addrType : AddressType)
      (conn : option bool) (adv : AdvertisementSnapshot) (rssi : Z)
  | ev_connect (deviceUuid : string) (err : option JsError)
  | ev_disconnect (deviceUuid : string)
  | ev_notify (deviceUuid serviceUuid characteristicUuid : string) (arg : bool + JsError)
  | ev_write (deviceUuid serviceUuid characteristicUuid : string) (err : option JsError)
  | ev_writeValue (deviceUuid serviceUuid characteristicUuid descriptorUuid : string)
      (err : option JsError).

(** ** The transport layer *)

Inductive BluetoothCacheMode : Type := cached | uncached.

(** GattClientCharacteristicConfigurationDescriptorValue *)
Inductive CccdValue : Type := cccd_none | cccd_notify.

(** Every call that reaches the platform, in the order made. *)
Inductive TransportCall : Type :=
  | FromBluetoothAddress (addr : Z)
  | GetGattServices (dev : RtObject) (mode : BluetoothCacheMode)
  | GetCharacteristics (s : Service) (mode : BluetoothCacheMode)
  | GetDescriptors (c : Characteristic) (mode : BluetoothCacheMode)
  | WriteCccd (c : Characteristic) (v : CccdValue)
  | CharacteristicWrite (c : Characteristic) (buffer : list Z)
  | DescriptorWrite (d : Descriptor) (buffer : list Z)
  | AddListener (c : Characteristic) (l : Listener)
  | RemoveListener (c : Characteristic) (l : Listener).

Record GattResult (A : Type) : Type := { status : Z; items : list A }.
Arguments status {A} _.
Arguments items {A} _.

(** The platform's answers: [inl err] when the NodeRT callback reports
    [err], [inr result] otherwise.  An answer may depend on the calls made
    before it. *)
Record Transport : Type := {
  fromBluetoothAddressAsync : list TransportCall -> Z -> JsError + option RtObject;
  getGattServicesAsync :
    list TransportCall -> RtObject -> BluetoothCacheMode -> JsError + GattResult Service;
  getCharacteristicsAsync :
    list TransportCall -> Service -> BluetoothCacheMode -> JsError + GattResult Characteristic;
  getDescriptorsAsync :
    list TransportCall -> Characteristic -> BluetoothCacheMode -> JsError + GattResult Descriptor;
  writeClientCharacteristicConfigurationDescriptorWithResultAsync :
    list TransportCall -> Characteristic -> CccdValue -> JsError + Z;
  characteristic_writeValueWithResultAsync :
    list TransportCall -> Characteristic -> list Z -> JsError + Z;
  descriptor_writeValueWithResultAsync :
    list TransportCall -> Descriptor -> list Z -> JsError + Z
}.

(** ** The state of the bindings and of rt-utils *)

(** [_deviceMap], the caches of a record, [_listenerMap] and [disposableMap]
    are plain objects used as maps.  Reading [m[key]] finds the own property
    [key] and, when there is none, the member of [Object.prototype] of that
    name.  The maps below hold the own properties.  The keys that the
    bindings make themselves (the identifier of a device, a formatted UUID,
    a compound key with a slash) never name such a member; a property that
    is stated for an arbitrary key and depends on a miss excludes these
    names. *)
Definition Object_prototype_names : list string :=
  ["constructor"; "hasOwnProperty"; "isPrototypeOf"; "propertyIsEnumerable";
   "toLocaleString"; "toString"; "valueOf"; "__proto__";
   "__defineGetter__"; "__defineSetter__"; "__lookupGetter__"; "__lookupSetter__"].

Definition inherited (key : string) : bool :=
  existsb (String.eqb key) Object_prototype_names.

Record World : Type := {
  _deviceMap : gmap string DeviceRecord;
  _listenerMap : gmap string Listener;
  rt : RtState;
  emitted : list Event;          (* oldest first *)
  calls : list TransportCall     (* oldest first *)
}.

Definition set_deviceMap (m : gmap string DeviceRecord) (w : World) : World :=
  {| _deviceMap := m; _listenerMap := _listenerMap w; rt := rt w;
     emitted := emitted w; calls := calls w |}.

Definition set_listenerMap (m : gmap string Listener) (w : World) : World :=
  {| _deviceMap := _deviceMap w; _listenerMap := m; rt := rt w;
     emitted := emitted w; calls := calls w |}.

Definition set_rt (st : RtState) (w : World) : World :=
  {| _deviceMap := _deviceMap w; _listenerMap := _listenerMap w; rt := st;
     emitted := emitted w; calls := calls w |}.

Definition add_emitted (ev : Event) (w : World) : World :=
  {| _deviceMap := _deviceMap w; _listenerMap := _listenerMap w; rt := rt w;
     emitted := emitted w ++ [ev]; calls := calls w |}.

Definition add_call (c : TransportCall) (w : World) : World :=
  {| _deviceMap := _deviceMap w; _listenerMap := _listenerMap w; rt := rt w;
     emitted := emitted w; calls := calls w ++ [c] |}.

(** The state of [new NobleBindings()] with a freshly loaded rt-utils. *)
Definition new_NobleBindings : World :=
  {| _deviceMap := ∅; _listenerMap := ∅; rt := RtUtils.initial;
     emitted := []; calls := [] |}.

(** ** Computations over the world *)

Definition Async (A : Type) : Type := World -> Completion A * World.

Definition ret {A} (a : A) : Async A := fun w => (Fulfilled a, w).
Definition throw {A} (e : JsError) : Async A := fun w => (Thrown e, w).

(** Sequencing of statements: a throw (or a rejected promise that is
    returned) ends the block. *)
Definition bind {A B} (m : Async A) (f : A -> Async B) : Async B :=
  fun w =>
    match m w with
    | (Fulfilled a, w') => f a w'
    | (Thrown e, w') => (Thrown e, w')
    | (Rejected e, w') => (Rejected e, w')
    end.

Notation "'let*' x ':=' m 'in' k" := (bind m (fun x => k))
  (at level 10, x name, m at level 100, k at level 200).
Notation "m ';;' k" := (bind m (fun _ => k))
  (at level 100, k at level 200, right associativity).

(** [p.then(f)]: a throw of the expression [p] itself escapes; a throw
    inside [f] rejects the promise that [then] returns. *)
Definition then_ {A B} (p : Async A) (f : A -> Async B) : Async B :=
  fun w =>
    match p w with
    | (Thrown e, w') => (Thrown e, w')
    | (Rejected e, w') => (Rejected e, w')
    | (Fulfilled a, w') =>
        match f a w' with
        | (Thrown e, w'') => (Rejected e, w'')
        | r => r
        end
    end.

(** [p.catch(h)]. *)
Definition catch_ {A} (p : Async A) (h : JsError -> Async A) : Async A :=
  fun w =>
    match p w with
    | (Thrown e, w') => (Thrown e, w')
    | (Fulfilled a, w') => (Fulfilled a, w')
    | (Rejected e, w') =>
        match h e w' with
        | (Thrown e', w'') => (Rejected e', w'')
        | r => r
        end
    end.

Definition modify (f : World -> World) : Async unit := fun w => (Fulfilled tt, f w).
Definition emit (ev : Event) : Async unit := modify (add_emitted ev).
Definition call (c : TransportCall) : Async unit := modify (add_call c).
Definition keepAliveA (k : bool) : Async unit :=
  modify (fun w => set_rt (keepAlive k (rt w)) w).

(** [rt.promisify(fn, o)(args)]: the call is made, and the promise settles
    with what the callback reports. *)
Definition promisify {A} (c : TransportCall) (answer : list TransportCall -> JsError + A)
  : Async A :=
  fun w =>
    match answer (calls w) with
    | inl err => (Rejected err, add_call c w)
    | inr result => (Fulfilled result, add_call c w)
    end.

(** Reading an identifier: [binding] is what the enclosing scopes bind it
    to.  Reading an identifier that no scope binds throws a ReferenceError. *)
Definition identifier {A} (ident : string) (binding : option A) : Async A :=
  match binding with
  | Some v => ret v
  | None => throw (ReferenceError ident)
  end.

(** A mutation of the record object that [_deviceMap[deviceUuid]] refers to.
    The record is created once and never replaced, so a reference held by a
    callback is the object in the map. *)
Definition update_record (deviceUuid : string) (f : DeviceRecord -> DeviceRecord)
  : Async unit :=
  modify (fun w => set_deviceMap (alter f deviceUuid (_deviceMap w)) w).

(** ** lib/bindings.js: operations *)

Section Bindings.

Variable P : Projection.
Variable T : Transport.

Definition checkCommunicationResult (deviceUuid : string) (st : Z) : Async unit :=
  if st =? gcs_unreachable (status_enum P) then
    throw (Error ("Device unreachable: " +:+ deviceUuid))
  else if st =? gcs_protocolError (status_enum P) then
    throw (Error ("Protocol error communicating with device: " +:+ deviceUuid))
  else ret tt.

(** [rt.trackDisposables(deviceUuid, array)] on the tracker's part of the
    world. *)
Definition trackDisposablesA (deviceUuid : string) (array : list RtObject) : Async unit :=
  fun w =>
    match trackDisposables deviceUuid array (rt w) with
    | (Fulfilled _, st) => (Fulfilled tt, set_rt st w)
    | (Thrown e, st) => (Thrown e, set_rt st w)
    | (Rejected e, st) => (Thrown e, set_rt st w)
    end.

(** *** The advertisement handler *)

(** The [switch] on [e.advertisementType]; [None] is [undefined]. *)
Definition connectable_of (t : Z) : option bool :=
  if (t =? connectableUndirected (adv_enum P)) || (t =? connectableDirected (adv_enum P))
  then Some true
  else if (t =? nonConnectableUndirected (adv_enum P)) || (t =? scannableUndirected (adv_enum P))
  then Some false
  else None.

(** [DataReader.readByte] throws on an exhausted buffer. *)
Definition readByte (buffer : list Z) : Async Z :=
  match buffer with
  | [] => throw (NativeError 0)
  | b :: _ => ret b
  end.

(** Lines 472-481: the TX power level of the packet, or null. *)
Definition read_txPowerLevel (dataSections : list DataSection) : Async (option Z) :=
  match List.find (fun ds => ds_dataType ds =? dt_txPowerLevel (data_enum P)) dataSections with
  | None => ret None
  | Some txPowerDataSection =>
      let* txPowerLevel := readByte (ds_data txPowerDataSection) in
      ret (Some (if 128 <=? txPowerLevel then txPowerLevel - 256 else txPowerLevel))
  end.

(** [if (list.indexOf(u) < 0) list.push(u)] *)
Definition push_unseen (uuids : list string) (serviceUuid : string) : list string :=
  if existsb (String.eqb serviceUuid) uuids then uuids else uuids ++ [serviceUuid].

(** [toAppend.writeUInt16LE(companyId)] followed by [Buffer.concat]. *)
Definition with_companyId (m : ManufacturerSection) : list Z :=
  [companyId m mod 256; (companyId m / 256) mod 256] ++ md_data m.

Definition is_colon (c : ascii) : bool := Ascii.eqb c ":".

Definition new_record (e : ReceivedEventArgs) (addr : string) (addrType : AddressType)
    (conn : option bool) : DeviceRecord :=
  {| name := None; address := bluetoothAddress e; formattedAddress := addr;
     addressType := addrType; connectable := conn; serviceUuids := [];
     txPowerLevel := None; manufacturerData := None; device := None;
     serviceMap := ∅; characteristicMap := ∅; descriptorMap := ∅ |}.

(** Lines 501-526: the packet merged into the record. *)
Definition merge_packet (e : ReceivedEventArgs) (txPower : option Z)
    (deviceRecord : DeviceRecord) : DeviceRecord :=
  let deviceRecord :=
    if truthy (adv_localName (advertisement e))
    then set_name (Some (adv_localName (advertisement e))) deviceRecord
    else deviceRecord in
  let deviceRecord :=
    match adv_manufacturerData (advertisement e) with
    | [] => deviceRecord
    | manufacturerData :: _ =>
        set_manufacturerData (Some (with_companyId manufacturerData)) deviceRecord
    end in
  let deviceRecord :=
    set_serviceUuids
      (fold_left push_unseen (adv_serviceUuids (advertisement e)) (serviceUuids deviceRecord))
      deviceRecord in
  match txPower with
  | Some v => if truthy_num v then set_txPowerLevel (Some v) deviceRecord else deviceRecord
  | None => deviceRecord
  end.

(** The [advertisement] object of the event, as it is when it is emitted.
    (Its [serviceUuids] is the array of the record itself, which later
    packets extend.) *)
Definition snapshot (deviceRecord : DeviceRecord) : AdvertisementSnapshot :=
  {| snap_localName := name deviceRecord;
     snap_txPowerLevel := txPowerLevel deviceRecord;
     snap_manufacturerData := manufacturerData deviceRecord;
     snap_serviceUuids := serviceUuids deviceRecord;
     snap_serviceData := [] |}.

Definition deviceUuid_of (addr : Z) : string :=
  remove_chars is_colon (formatBluetoothAddress addr).

Definition _onAdvertisementWatcherReceived (e : ReceivedEventArgs) : Async unit :=
  let addr := formatBluetoothAddress (bluetoothAddress e) in
  let addrType := if 3 * 2 ^ 46 <=? bluetoothAddress e then random else public in
  let deviceUuid := remove_chars is_colon addr in
  let rssi := rawSignalStrengthInDBm e in
  let conn := connectable_of (advertisementType e) in
  let* txPower := read_txPowerLevel (adv_dataSections (advertisement e)) in
  fun w =>
    let deviceRecord :=
      match _deviceMap w !! deviceUuid with
      | Some deviceRecord => deviceRecord
      | None => new_record e addr addrType conn
      end in
    let deviceRecord := merge_packet e txPower deviceRecord in
    let w := set_deviceMap (<[deviceUuid := deviceRecord]> (_deviceMap w)) w in
    if advertisementType e =? scanResponse (adv_enum P) then
      emit (ev_discover deviceUuid addr (addressType deviceRecord)
              (connectable deviceRecord) (snapshot deviceRecord) rssi) w
    else ret tt w.

(** The packets of a scan, handled one after the other.  (A packet on which
    the handler throws leaves the world as it was.) *)
Fixpoint receive_all (packets : list ReceivedEventArgs) (w : World) : World :=
  match packets with
  | [] => w
  | e :: rest => receive_all rest (snd (_onAdvertisementWatcherReceived e w))
  end.

(** *** Connections *)

Definition unknown_device {A} (deviceUuid : string) : Async A :=
  throw (Error ("Invalid or unknown device UUID: " +:+ deviceUuid)).

Definition connect (deviceUuid : string) : Async unit :=
  fun w =>
    match _deviceMap w !! deviceUuid with
    | None => unknown_device deviceUuid w
    | Some deviceRecord =>
        match connectable deviceRecord with
        | Some true =>
            catch_
              (then_ (promisify (FromBluetoothAddress (address deviceRecord))
                        (fun h => fromBluetoothAddressAsync T h (address deviceRecord)))
                 (fun dev w =>
                    match dev with
                    | None =>
                        (* debug(..., device.name, device.deviceInformation.kind) *)
                        throw (TypeError "name") w
                    | Some _ =>
                        match trackDisposable deviceUuid dev (rt w) with
                        | (Fulfilled tracked_dev, st) =>
                            (update_record deviceUuid (set_device tracked_dev) ;;
                             emit (ev_connect deviceUuid None)) (set_rt st w)
                        | (Thrown e, st) => (Thrown e, set_rt st w)
                        | (Rejected e, st) => (Thrown e, set_rt st w)
                        end
                    end))
              (fun ex => emit (ev_connect deviceUuid (Some ex))) w
        | _ =>
            throw (Error ("Device is not connectable: " +:+ formattedAddress deviceRecord)) w
        end
    end.

(** *** The cached resolvers *)

Definition _getCachedServiceAsync (deviceUuid serviceUuid : string) : Async Service :=
  fun w =>
    match _deviceMap w !! deviceUuid with
    | None => unknown_device deviceUuid w
    | Some deviceRecord =>
        match serviceMap deviceRecord !! serviceUuid with
        | Some service => ret service w
        | None =>
            match device deviceRecord with
            | None => throw (Error ("Device is not connected. UUID: " +:+ deviceUuid)) w
            | Some dev =>
                then_ (promisify (GetGattServices dev cached)
                         (fun h => getGattServicesAsync T h dev cached))
                  (fun result =>
                     checkCommunicationResult deviceUuid (status result) ;;
                     trackDisposablesA deviceUuid (map svc_object (items result)) ;;
                     match List.find (fun s => String.eqb (formatUuid (svc_uuid s)) serviceUuid)
                             (items result) with
                     | None =>
                         throw (Error ("Service " +:+ serviceUuid +:+
                                       " not found for device " +:+ deviceUuid))
                     | Some service =>
                         update_record deviceUuid
                           (fun r => set_serviceMap (<[serviceUuid := service]> (serviceMap r)) r) ;;
                         ret service
                     end) w
            end
        end
    end.

Definition _getCachedCharacteristicAsync (deviceUuid serviceUuid characteristicUuid : string)
  : Async Characteristic :=
  fun w =>
    match _deviceMap w !! deviceUuid with
    | None => unknown_device deviceUuid w
    | Some deviceRecord =>
        let characteristicKey := serviceUuid +:+ "/" +:+ characteristicUuid in
        match characteristicMap deviceRecord !! characteristicKey with
        | Some characteristic => ret characteristic w
        | None =>
            then_ (_getCachedServiceAsync deviceUuid serviceUuid)
              (fun service =>
                 then_ (promisify (GetCharacteristics service cached)
                          (fun h => getCharacteristicsAsync T h service cached))
                   (fun result =>
                      checkCommunicationResult deviceUuid (status result) ;;
                      match List.find
                              (fun c => String.eqb (formatUuid (chr_uuid c)) characteristicUuid)
                              (items result) with
                      | None =>
                          throw (Error ("Service " +:+ serviceUuid +:+ " characteristic " +:+
                                        characteristicUuid +:+ " not found for device " +:+
                                        deviceUuid))
                      | Some characteristic =>
                          update_record deviceUuid
                            (fun r => set_characteristicMap
                                        (<[characteristicKey := characteristic]>
                                           (characteristicMap r)) r) ;;
                          ret characteristic
                      end)) w
        end
    end.

(** In the callback of [then] the parameter is named [service]; the body
    reads [characteristic], which neither the callback, nor the enclosing
    function (deviceUuid, serviceUuid, characteristicUuid, descriptorUuid,
    deviceRecord, descriptorKey, descriptor), nor the module binds. *)
Definition _getCachedDescriptorAsync
    (deviceUuid serviceUuid characteristicUuid descriptorUuid : string) : Async Descriptor :=
  fun w =>
    match _deviceMap w !! deviceUuid with
    | None => unknown_device deviceUuid w
    | Some deviceRecord =>
        let descriptorKey :=
          serviceUuid +:+ "/" +:+ characteristicUuid +:+ "/" +:+ descriptorUuid in
        match descriptorMap deviceRecord !! descriptorKey with
        | Some descriptor => ret descriptor w
        | None =>
            then_ (_getCachedCharacteristicAsync deviceUuid serviceUuid characteristicUuid)
              (fun service =>
                 let* characteristic := identifier "characteristic" (@None Characteristic) in
                 then_ (promisify (GetDescriptors characteristic cached)
                          (fun h => getDescriptorsAsync T h characteristic cached))
                   (fun result =>
                      checkCommunicationResult deviceUuid (status result) ;;
                      match List.find
                              (fun d => String.eqb (formatUuid (dsc_uuid d)) descriptorUuid)
                              (items result) with
                      | None =>
                          throw (Error ("Service " +:+ serviceUuid +:+ " characteristic " +:+
                                        characteristicUuid +:+ " descriptor " +:+
                                        descriptorUuid +:+ " not found for device " +:+
                                        deviceUuid))
                      | Some descriptor =>
                          update_record deviceUuid
                            (fun r => set_descriptorMap
                                        (<[descriptorKey := descriptor]> (descriptorMap r)) r) ;;
                          ret descriptor
                      end)) w
        end
    end.

(** *** Operations on characteristics and descriptors *)

Definition notify (deviceUuid serviceUuid characteristicUuid : string) (notify : bool)
  : Async unit :=
  catch_
    (then_ (_getCachedCharacteristicAsync deviceUuid serviceUuid characteristicUuid)
       (fun characteristic w =>
          let listenerKey :=
            deviceUuid +:+ "/" +:+ serviceUuid +:+ "/" +:+ characteristicUuid in
          let listener := _listenerMap w !! listenerKey in
          if notify then
            match listener with
            | Some _ =>
                (* Already listening. *)
                emit (ev_notify deviceUuid serviceUuid characteristicUuid (inl notify)) w
            | None =>
                then_ (promisify (WriteCccd characteristic cccd_notify)
                         (fun h => writeClientCharacteristicConfigurationDescriptorWithResultAsync
                                     T h characteristic cccd_notify))
                  (fun result =>
                     checkCommunicationResult deviceUuid result ;;
                     let listener :=
                       {| lst_deviceUuid := deviceUuid; lst_serviceUuid := serviceUuid;
                          lst_characteristicUuid := characteristicUuid |} in
                     call (AddListener characteristic listener) ;;
                     modify (fun w =>
                               set_listenerMap (<[listenerKey := listener]> (_listenerMap w)) w) ;;
                     keepAliveA true ;;
                     emit (ev_notify deviceUuid serviceUuid characteristicUuid (inl notify))) w
            end
          else
            match listener with
            | None =>
                (* Already not listening. *)
                emit (ev_notify deviceUuid serviceUuid characteristicUuid (inl notify)) w
            | Some listener =>
                (keepAliveA false ;;
                 call (RemoveListener characteristic listener) ;;
                 modify (fun w => set_listenerMap (delete listenerKey (_listenerMap w)) w) ;;
                 then_ (promisify (WriteCccd characteristic cccd_none)
                          (fun h => writeClientCharacteristicConfigurationDescriptorWithResultAsync
                                      T h characteristic cccd_none))
                   (fun result =>
                      checkCommunicationResult deviceUuid result ;;
                      emit (ev_notify deviceUuid serviceUuid characteristicUuid (inl notify)))) w
            end))
    (fun ex => emit (ev_notify deviceUuid serviceUuid characteristicUuid (inr ex))).

Definition write (deviceUuid serviceUuid characteristicUuid : string) (data : list Z)
    (withoutResponse : bool) : Async unit :=
  catch_
    (then_ (_getCachedCharacteristicAsync deviceUuid serviceUuid characteristicUuid)
       (fun characteristic =>
          let rtBuffer := data in
          then_ (promisify (CharacteristicWrite characteristic rtBuffer)
                   (fun h => characteristic_writeValueWithResultAsync T h characteristic rtBuffer))
            (fun result =>
               checkCommunicationResult deviceUuid result ;;
               emit (ev_write deviceUuid serviceUuid characteristicUuid None))))
    (fun ex =>
       if negb withoutResponse
       then emit (ev_write deviceUuid serviceUuid characteristicUuid (Some ex))
       else ret tt).

(** The parameters of [writeValue] are deviceUuid, serviceUuid,
    characteristicUuid, descriptorUuid and data: the [withoutResponse] that
    its catch handler reads is bound nowhere. *)
Definition writeValue
    (deviceUuid serviceUuid characteristicUuid descriptorUuid : string) (data : list Z)
  : Async unit :=
  catch_
    (then_ (_getCachedDescriptorAsync deviceUuid serviceUuid characteristicUuid descriptorUuid)
       (fun descriptor =>
          let rtBuffer := data in
          then_ (promisify (DescriptorWrite descriptor rtBuffer)
                   (fun h => descriptor_writeValueWithResultAsync T h descriptor rtBuffer))
            (fun result =>
               checkCommunicationResult deviceUuid result ;;
               emit (ev_writeValue deviceUuid serviceUuid characteristicUuid descriptorUuid None))))
    (fun ex =>
       let* withoutResponse := identifier "withoutResponse" (@None bool) in
       if negb withoutResponse
       then emit (ev_writeValue deviceUuid serviceUuid characteristicUuid descriptorUuid
                    (Some ex))
       else ret tt).

(** [disconnect]: the handle and the three caches are dropped, then the
    tracked objects are closed. *)
Definition disconnect (deviceUuid : string) : Async unit :=
  fun w =>
    match _deviceMap w !! deviceUuid with
    | None => unknown_device deviceUuid w
    | Some deviceRecord =>
        match device deviceRecord with
        | None => ret tt w
        | Some _ =>
            (update_record deviceUuid drop_connection ;;
             modify (fun w => set_rt (disposeAll deviceUuid (rt w)) w) ;;
             emit (ev_disconnect deviceUuid)) w
        end
    end.

End Bindings.

(** ** Notions used to state the properties *)

(** The objects tracked for a key, oldest first. *)
Definition tracked (key : string) (st : RtState) : list RtObject :=
  default [] (disposableMap st !! key).

(** Byte [i] of an address, byte 0 being the least significant. *)
Definition address_byte (a : Z) (i : Z) : Z := (a / 256 ^ i) mod 256.

(** A byte as two lowercase hexadecimal digits. *)
Definition byte_pair (b : Z) : string :=
  String (hex_digit (b / 16)) (String (hex_digit (b mod 16)) EmptyString).

(** Six byte pairs, most significant byte first, joined by colons. *)
Definition colon_pairs (a : Z) : string :=
  byte_pair (address_byte a 5) +:+ ":" +:+ byte_pair (address_byte a 4) +:+ ":" +:+
  byte_pair (address_byte a 3) +:+ ":" +:+ byte_pair (address_byte a 2) +:+ ":" +:+
  byte_pair (address_byte a 1) +:+ ":" +:+ byte_pair (address_byte a 0).

(** [k] hexadecimal digits of [n], zero-padded, in front of [acc]. *)
Fixpoint fixed_hex (k : nat) (n : Z) (acc : string) : string :=
  match k with
  | O => acc
  | S k' => fixed_hex k' (n / 16) (String (hex_digit (n mod 16)) acc)
  end.

Fixpoint zeros (m : nat) (s : string) : string :=
  match m with
  | O => s
  | S m' => zeros m' (String "0" s)
  end.

(** The TX power section of a packet, when it has one, holds a byte. *)
Definition tx_readable (P : Projection) (e : ReceivedEventArgs) : bool :=
  match List.find (fun ds => ds_dataType ds =? dt_txPowerLevel (data_enum P))
          (adv_dataSections (advertisement e)) with
  | None => true
  | Some sec => match ds_data sec with [] => false | _ :: _ => true end
  end.

(** The TX power level that a packet carries: the first byte of its TX
    power section read as a signed 8-bit number. *)
Definition tx_of_packet (P : Projection) (e : ReceivedEventArgs) : option Z :=
  match List.find (fun ds => ds_dataType ds =? dt_txPowerLevel (data_enum P))
          (adv_dataSections (advertisement e)) with
  | None => None
  | Some sec =>
      match ds_data sec with
      | [] => None
      | b :: _ => Some (if 128 <=? b then b - 256 else b)
      end
  end.

(** The record of the packet's device once the packet is merged into it. *)
Definition merged_record (P : Projection) (e : ReceivedEventArgs) (w : World)
  : DeviceRecord :=
  merge_packet e (tx_of_packet P e)
    match _deviceMap w !! deviceUuid_of (bluetoothAddress e) with
    | Some r => r
    | None =>
        new_record e (formatBluetoothAddress (bluetoothAddress e))
          (if 3 * 2 ^ 46 <=? bluetoothAddress e then random else public)
          (connectable_of P (advertisementType e))
    end.

(** The scan responses among the packets. *)
Definition scan_responses (P : Projection) (packets : list ReceivedEventArgs)
  : list ReceivedEventArgs :=
  List.filter (fun e => advertisementType e =? scanResponse (adv_enum P)) packets.

Definition is_discover (ev : Event) : bool :=
  match ev with ev_discover _ _ _ _ _ _ => true | _ => false end.

(** The TX power level and the service UUIDs stored for a device. *)
Definition txPowerLevel_at (deviceUuid : string) (w : World) : option Z :=
  _deviceMap w !! deviceUuid ≫= txPowerLevel.

Definition serviceUuids_at (deviceUuid : string) (w : World) : list string :=
  match _deviceMap w !! deviceUuid with
  | Some r => serviceUuids r
  | None => []
  end.

(** The service UUIDs that the packets of one device carry, in the order
    of arrival. *)
Definition uuid_stream (deviceUuid : string) (packets : list ReceivedEventArgs)
  : list string :=
  concat (map (fun e => adv_serviceUuids (advertisement e))
            (List.filter (fun e => String.eqb (deviceUuid_of (bluetoothAddress e)) deviceUuid)
               packets)).

(** The first occurrences of a stream, in order. *)
Fixpoint first_seen (stream : list string) : list string :=
  match stream with
  | [] => []
  | u :: rest => u :: List.filter (fun v => negb (String.eqb v u)) (first_seen rest)
  end.

(** The cache entries of a device. *)
Definition descriptor_cache (w : World) (deviceUuid key : string) : option Descriptor :=
  _deviceMap w !! deviceUuid ≫= fun r => descriptorMap r !! key.

Definition is_GetDescriptors (c : TransportCall) : bool :=
  match c with GetDescriptors _ _ => true | _ => false end.

(** What the resolvers of services and characteristics leave alone: the
    listeners, the emitted events, the descriptor caches, and the
    descriptor queries made so far. *)
Definition resolver_frame (w w' : World) : Prop :=
  _listenerMap w' = _listenerMap w /\
  emitted w' = emitted w /\
  (forall deviceUuid key, descriptor_cache w' deviceUuid key = descriptor_cache w deviceUuid key) /\
  List.filter is_GetDescriptors (calls w') = List.filter is_GetDescriptors (calls w).

(** The error that a write surfaces: the one the platform reports, or the
    one [checkCommunicationResult] makes of an unreachable or protocolError
    status. *)
Definition write_failure (P : Projection) (deviceUuid : string) (answer : JsError + Z)
  : option JsError :=
  match answer with
  | inl err => Some err
  | inr st =>
      if st =? gcs_unreachable (status_enum P) then
        Some (Error ("Device unreachable: " +:+ deviceUuid))
      else if st =? gcs_protocolError (status_enum P) then
        Some (Error ("Protocol error communicating with device: " +:+ deviceUuid))
      else None
  end.

(** Textual UUIDs.  A UUID string has five groups of 8, 4, 4, 4 and 12
    hexadecimal digits joined by hyphens, and may be wrapped in braces. *)
Definition is_af (c : ascii) : bool :=
  let n := N_of_ascii c in ((97 <=? n) && (n <=? 102))%N.

Definition is_hex (c : ascii) : bool := is_digit c || is_AF c || is_af c.

Definition is_lower_hex (c : ascii) : bool := is_digit c || is_af c.

Fixpoint string_forall (p : ascii -> bool) (s : string) : bool :=
  match s with
  | EmptyString => true
  | String c s' => p c && string_forall p s'
  end.

Definition uuid_text (a b c d e : string) : string :=
  a +:+ "-" +:+ b +:+ "-" +:+ c +:+ "-" +:+ d +:+ "-" +:+ e.

Definition braced (s : string) : string := "{" +:+ s +:+ "}".

Definition uuid_groups (a b c d e : string) : Prop :=
  String.length a = 8%nat /\ String.length b = 4%nat /\ String.length c = 4%nat /\
  String.length d = 4%nat /\ String.length e = 12%nat /\
  string_forall is_hex (a +:+ b +:+ c +:+ d +:+ e) = true.

(** [s] is, up to the case of its letters, the Bluetooth base UUID in
    braces, with the lowercase assigned number [x]. *)
Definition is_base_uuid (s x : string) : Prop :=
  String.length x = 4%nat /\ string_forall is_lower_hex x = true /\
  toLowerCase s = "{0000" +:+ x +:+ "-0000-1000-8000-00805f9b34fb}".

(** ** Concrete inputs *)

(** Two GATT service UUIDs as the platform prints them, and one vendor
    UUID. *)
Definition heart_rate : string := "{0000180d-0000-1000-8000-00805f9b34fb}".
Definition battery : string := "{0000180f-0000-1000-8000-00805f9b34fb}".
Definition uart : string := "{6e400001-b5a3-f393-e0a9-e50e24dcca9e}".

(** A connectable advertisement of 00:11:22:33:44:aa with a TX power level
    of 4 dBm, and its scan response with a TX power level of 0 dBm. *)
Definition packet_adv : ReceivedEventArgs :=
  {| bluetoothAddress := 0x0011223344AA;
     advertisementType := connectableUndirected uwp_BluetoothLEAdvertisementType;
     rawSignalStrengthInDBm := -60;
     advertisement :=
       {| adv_localName := "sensor";
          adv_dataSections := [{| ds_dataType := 10; ds_data := [4] |}];
          adv_manufacturerData := [];
          adv_serviceUuids := [heart_rate; battery] |} |}.

Definition packet_rsp : ReceivedEventArgs :=
  {| bluetoothAddress := 0x0011223344AA;
     advertisementType := scanResponse uwp_BluetoothLEAdvertisementType;
     rawSignalStrengthInDBm := -61;
     advertisement :=
       {| adv_localName := "";
          adv_dataSections := [{| ds_dataType := 10; ds_data := [0] |}];
          adv_manufacturerData := [{| companyId := 76; md_data := [2; 21] |}];
          adv_serviceUuids := [battery; uart; heart_rate] |} |}.


(** The bindings after the advertisement. *)
Definition after_adv : World := receive_all uwp [packet_adv] new_NobleBindings.

(** A peripheral with one service, one characteristic and one descriptor.
    Its GATT queries succeed and it lets notifications be enabled; it is
    out of reach for every later write. *)
Definition device_obj : RtObject := {| oid := 10; closable := true |}.
Definition svc_hr : Service :=
  {| svc_object := {| oid := 11; closable := true |}; svc_uuid := heart_rate |}.
Definition chr_measurement : Characteristic :=
  {| chr_id := 12; chr_uuid := "{00002a37-0000-1000-8000-00805f9b34fb}";
     characteristicProperties := 16 |}.
Definition dsc_cccd : Descriptor :=
  {| dsc_id := 13; dsc_uuid := "{00002902-0000-1000-8000-00805f9b34fb}" |}.

Definition peripheral : Transport :=
  {| fromBluetoothAddressAsync := fun _ _ => inr (Some device_obj);
     getGattServicesAsync := fun _ _ _ => inr {| status := 0; items := [svc_hr] |};
     getCharacteristicsAsync := fun _ _ _ => inr {| status := 0; items := [chr_measurement] |};
     getDescriptorsAsync := fun _ _ _ => inr {| status := 0; items := [dsc_cccd] |};
     writeClientCharacteristicConfigurationDescriptorWithResultAsync :=
       fun _ _ v => match v with cccd_notify => inr 0 | cccd_none => inr 1 end;
     characteristic_writeValueWithResultAsync := fun _ _ _ => inr 1;
     descriptor_writeValueWithResultAsync := fun _ _ _ => inr 1 |}.

(** The same peripheral answering every descriptor write with a protocol
    error. *)
Definition peripheral_refusing : Transport :=
  {| fromBluetoothAddressAsync := fromBluetoothAddressAsync peripheral;
     getGattServicesAsync := getGattServicesAsync peripheral;
     getCharacteristicsAsync := getCharacteristicsAsync peripheral;
     getDescriptorsAsync := getDescriptorsAsync peripheral;
     writeClientCharacteristicConfigurationDescriptorWithResultAsync := fun _ _ _ => inr 2;
     characteristic_writeValueWithResultAsync := fun _ _ _ => inr 2;
     descriptor_writeValueWithResultAsync := fun _ _ _ => inr 2 |}.

(** The bindings after [connect], and after notifications were enabled. *)
Definition connected : World := snd (connect peripheral "0011223344aa" after_adv).

Definition subscribed : World :=
  snd (notify uwp peripheral "0011223344aa" "180d" "2a37" true connected).

(** A world in which the descriptor cache of the device holds an entry. *)
Definition with_cached_descriptor : World :=
  set_deviceMap
    (alter (set_descriptorMap {[ "180d/2a37/2902" := dsc_cccd ]}) "0011223344aa"
       (_deviceMap connected))
    connected.

(** Three closable objects. *)
Definition obj1 : RtObject := {| oid := 1; closable := true |}.
Definition obj2 : RtObject := {| oid := 2; closable := true |}.
Definition obj3 : RtObject := {| oid := 3; closable := true |}.

(** The tracker after [trackDisposables("001122334455", [obj1, obj2])]. *)
Definition two_tracked : RtState :=
  snd (trackDisposables "001122334455" [obj1; obj2] RtUtils.initial).

(** ** Further notions: the tracker *)

(** A run of [keepAlive] calls, oldest first. *)
Definition keepAlive_all (ks : list bool) (st : RtState) : RtState :=
  fold_left (fun s k => keepAlive k s) ks st.

(** The interval is installed exactly while the count is positive. *)
Definition interval_matches (st : RtState) : Prop :=
  keepAliveInterval st = true <-> 1 <= keepAliveIntervalCount st.

(** How many of the calls incremented, and how many decremented. *)
Definition increments (ks : list bool) : Z := Z.of_nat (length (List.filter id ks)).
Definition decrements (ks : list bool) : Z := Z.of_nat (length (List.filter negb ks)).

(** [o] is one of the tracked objects. *)
Definition is_tracked (key : string) (o : RtObject) (st : RtState) : bool :=
  existsb (Object_is o) (tracked key st).

(** An object without a close function. *)
Definition obj_unclosable : RtObject := {| oid := 9; closable := false |}.

(** ** Further notions: identifiers *)

(** A string without hyphens and braces. *)
Definition is_stripped (s : string) : bool :=
  string_forall (fun c => negb (hyphen_or_brace c)) s.

(** The value of a lowercase hexadecimal digit, and of a string of them. *)
Definition hex_value (c : ascii) : Z :=
  let n := Z.of_N (N_of_ascii c) in
  if is_digit c then n - 48 else n - 87.

Fixpoint hex_decode (s : string) (acc : Z) : Z :=
  match s with
  | EmptyString => acc
  | String c s' => hex_decode s' (16 * acc + hex_value c)
  end.

(** ** Further notions: device records *)

(** Two states of a record with the same identity, connection handle and
    caches. *)
Definition same_connection (r r' : DeviceRecord) : Prop :=
  address r' = address r /\ formattedAddress r' = formattedAddress r /\
  addressType r' = addressType r /\ connectable r' = connectable r /\
  device r' = device r /\ serviceMap r' = serviceMap r /\
  characteristicMap r' = characteristicMap r /\ descriptorMap r' = descriptorMap r.

(** The first TX power section of a packet. *)
Definition tx_section (P : Projection) (dataSections : list DataSection) : option DataSection :=
  List.find (fun ds => ds_dataType ds =? dt_txPowerLevel (data_enum P)) dataSections.

(** The name and the manufacturer data stored for a device. *)
Definition name_at (deviceUuid : string) (w : World) : option string :=
  _deviceMap w !! deviceUuid ≫= name.

Definition manufacturerData_at (deviceUuid : string) (w : World) : option (list Z) :=
  _deviceMap w !! deviceUuid ≫= manufacturerData.

(** ** Further notions: connections *)

(** The connection handle stored for a device. *)
Definition device_at (deviceUuid : string) (w : World) : option RtObject :=
  _deviceMap w !! deviceUuid ≫= device.

(** The same peripheral behind a platform that finds no device object for
    the address, one that reports an error, and one that hands out an object
    without a close function. *)
Definition peripheral_absent : Transport :=
  {| fromBluetoothAddressAsync := fun _ _ => inr None;
     getGattServicesAsync := getGattServicesAsync peripheral;
     getCharacteristicsAsync := getCharacteristicsAsync peripheral;
     getDescriptorsAsync := getDescriptorsAsync peripheral;
     writeClientCharacteristicConfigurationDescriptorWithResultAsync :=
       writeClientCharacteristicConfigurationDescriptorWithResultAsync peripheral;
     characteristic_writeValueWithResultAsync :=
       characteristic_writeValueWithResultAsync peripheral;
     descriptor_writeValueWithResultAsync := descriptor_writeValueWithResultAsync peripheral |}.

Definition peripheral_failing : Transport :=
  {| fromBluetoothAddressAsync := fun _ _ => inl (NativeError 5);
     getGattServicesAsync := fun _ _ _ => inl (NativeError 6);
     getCharacteristicsAsync := fun _ _ _ => inl (NativeError 7);
     getDescriptorsAsync := getDescriptorsAsync peripheral;
     writeClientCharacteristicConfigurationDescriptorWithResultAsync :=
       writeClientCharacteristicConfigurationDescriptorWithResultAsync peripheral;
     characteristic_writeValueWithResultAsync :=
       characteristic_writeValueWithResultAsync peripheral;
     descriptor_writeValueWithResultAsync := descriptor_writeValueWithResultAsync peripheral |}.

(** The bindings after the services and the characteristic were resolved,
    and after a disconnect that follows the subscription. *)
Definition resolved : World :=
  snd (_getCachedCharacteristicAsync uwp peripheral "0011223344aa" "180d" "2a37" connected).

Definition disconnected : World := snd (disconnect "0011223344aa" subscribed).

Definition peripheral_unclosable : Transport :=
  {| fromBluetoothAddressAsync := fun _ _ => inr (Some obj_unclosable);
     getGattServicesAsync := getGattServicesAsync peripheral;
     getCharacteristicsAsync := getCharacteristicsAsync peripheral;
     getDescriptorsAsync := getDescriptorsAsync peripheral;
     writeClientCharacteristicConfigurationDescriptorWithResultAsync :=
       writeClientCharacteristicConfigurationDescriptorWithResultAsync peripheral;
     characteristic_writeValueWithResultAsync :=
       characteristic_writeValueWithResultAsync peripheral;
     descriptor_writeValueWithResultAsync := descriptor_writeValueWithResultAsync peripheral |}.

(** ** Further notions: the caches *)

(** A query that lets the platform answer from its own cache. *)
Definition is_cached_query (c : TransportCall) : bool :=
  match c with
  | GetGattServices _ cached | GetCharacteristics _ cached | GetDescriptors _ cached => true
  | _ => false
  end.


(** The cache entries of a device. *)
Definition service_cache (w : World) (deviceUuid serviceUuid : string) : option Service :=
  _deviceMap w !! deviceUuid ≫= fun r => serviceMap r !! serviceUuid.

Definition characteristic_cache (w : World) (deviceUuid key : string)
  : option Characteristic :=
  _deviceMap w !! deviceUuid ≫= fun r => characteristicMap r !! key.

(** From [w] to [w'] at most [n] transport calls were made, each a query in
    cached mode. *)
Definition cached_queries (n : nat) (w w' : World) : Prop :=
  exists extra,
    calls w' = calls w ++ extra /\ forallb is_cached_query extra = true /\
    (length extra <= n)%nat.

(** ** Further notions: subscriptions *)

Definition listener_key (deviceUuid serviceUuid characteristicUuid : string) : string :=
  deviceUuid +:+ "/" +:+ serviceUuid +:+ "/" +:+ characteristicUuid.

Definition listener_of (deviceUuid serviceUuid characteristicUuid : string) : Listener :=
  {| lst_deviceUuid := deviceUuid; lst_serviceUuid := serviceUuid;
     lst_characteristicUuid := characteristicUuid |}.

Definition is_WriteCccd (c : TransportCall) : bool :=
  match c with WriteCccd _ _ => true | _ => false end.

(** A peripheral on which every call succeeds. *)
Definition peripheral_ok : Transport :=
  {| fromBluetoothAddressAsync := fromBluetoothAddressAsync peripheral;
     getGattServicesAsync := getGattServicesAsync peripheral;
     getCharacteristicsAsync := getCharacteristicsAsync peripheral;
     getDescriptorsAsync := getDescriptorsAsync peripheral;
     writeClientCharacteristicConfigurationDescriptorWithResultAsync := fun _ _ _ => inr 0;
     characteristic_writeValueWithResultAsync := fun _ _ _ => inr 0;
     descriptor_writeValueWithResultAsync := fun _ _ _ => inr 0 |}.

(** ** Further notions: decoded properties and other statuses *)

(** The names of the characteristic properties in the order of the tests of
    [characteristicPropertiesToStrings]. *)
Definition property_names : list string :=
  ["broadcast"; "read"; "writeWithoutResponse"; "write"; "notify"; "indicate";
   "authenticatedSignedWrites"; "extendedProperties"].

(** The peripheral answering every write with the status accessDenied (3 in
    Windows.Devices.Bluetooth.GenericAttributeProfile). *)
Definition peripheral_denying : Transport :=
  {| fromBluetoothAddressAsync := fromBluetoothAddressAsync peripheral;
     getGattServicesAsync := getGattServicesAsync peripheral;
     getCharacteristicsAsync := getCharacteristicsAsync peripheral;
     getDescriptorsAsync := getDescriptorsAsync peripheral;
     writeClientCharacteristicConfigurationDescriptorWithResultAsync := fun _ _ _ => inr 3;
     characteristic_writeValueWithResultAsync := fun _ _ _ => inr 3;
     descriptor_writeValueWithResultAsync := fun _ _ _ => inr 3 |}.

(** ** Proof tactics *)

(** The 256 characters, one by one. *)
Ltac ascii_cases c := destruct c as [[|] [|] [|] [|] [|] [|] [|] [|]].

(** Splitting a string of known length into its characters. *)
Ltac explode s H :=
  lazymatch type of H with
  | String.length s = O => destruct s; [clear H | discriminate H]
  | String.length s = S _ =>
      let c := fresh "c" in
      let s' := fresh "s" in
      destruct s as [|c s']; [discriminate H|];
      cbn [String.length] in H; apply Nat.succ_inj in H; explode s' H
  end.

(** The same from an equation between [toLowerCase s] and a spelled-out
    string. *)
Ltac explode_lower s H :=
  lazymatch type of H with
  | toLowerCase s = EmptyString => destruct s; [clear H | discriminate H]
  | toLowerCase s = String _ _ =>
      let c := fresh "c" in
      let s' := fresh "s" in
      let Hc := fresh "Hc" in
      destruct s as [|c s']; [discriminate H|];
      cbn [toLowerCase] in H; injection H as Hc H; explode_lower s' H
  end.

(** The sixteen values of a hexadecimal digit [0 <= d < 16]. *)
Ltac nibble_cases d :=
  let H := fresh "H" in
  assert (d = 0 \/ d = 1 \/ d = 2 \/ d = 3 \/ d = 4 \/ d = 5 \/ d = 6 \/ d = 7 \/
          d = 8 \/ d = 9 \/ d = 10 \/ d = 11 \/ d = 12 \/ d = 13 \/ d = 14 \/ d = 15)
    as H by lia;
  repeat (destruct H as [H|H]; [subst d|]); [..|subst d].

(** * Properties *)

(** ** The decoder of characteristic properties *)

Lemma elem_of_push_if (c : bool) (x y : string) (l : list string) :
  y ∈ push_if c x l <-> y ∈ l \/ (c = true /\ y = x).
Proof.
  unfold push_if. destruct c.
  - rewrite elem_of_app, list_elem_of_singleton. intuition.
  - intuition. discriminate.
Qed.

Lemma truthy_num_true (z : Z) : truthy_num z = true <-> z <> 0.
Proof. unfold truthy_num. rewrite negb_true_iff, Z.eqb_neq. tauto. Qed.

(** The seven names other than authenticatedSignedWrites are decoded from
    their own bit. *)
Lemma characteristicPropertiesToStrings_own_bits (G : GattCharacteristicProperties) (props : Z) :
  ("broadcast" ∈ characteristicPropertiesToStrings G props
     <-> bitand props (gcp_broadcast G) <> 0) /\
  ("read" ∈ characteristicPropertiesToStrings G props
     <-> bitand props (gcp_read G) <> 0) /\
  ("writeWithoutResponse" ∈ characteristicPropertiesToStrings G props
     <-> bitand props (gcp_writeWithoutResponse G) <> 0) /\
  ("write" ∈ characteristicPropertiesToStrings G props
     <-> bitand props (gcp_write G) <> 0) /\
  ("notify" ∈ characteristicPropertiesToStrings G props
     <-> bitand props (gcp_notify G) <> 0) /\
  ("indicate" ∈ characteristicPropertiesToStrings G props
     <-> bitand props (gcp_indicate G) <> 0) /\
  ("extendedProperties" ∈ characteristicPropertiesToStrings G props
     <-> bitand props (gcp_extendedProperties G) <> 0).
Proof.
  unfold characteristicPropertiesToStrings.
  repeat split; intros H;
    repeat (rewrite elem_of_push_if in H || rewrite elem_of_push_if);
    rewrite ?truthy_num_true in *; rewrite ?elem_of_nil in *;
    try (intuition (try discriminate; auto); fail).
Qed.

(** C6. The name authenticatedSignedWrites is in the decoded list exactly
    when the broadcast bit of the mask is set: the bit
    [authenticatedSignedWrites] of the mask is never read. *)
Theorem authenticatedSignedWrites_decoded_from_broadcast
    (G : GattCharacteristicProperties) (props : Z) :
  "authenticatedSignedWrites" ∈ characteristicPropertiesToStrings G props
  <-> bitand props (gcp_broadcast G) <> 0.
Proof.
  unfold characteristicPropertiesToStrings.
  repeat rewrite elem_of_push_if. rewrite truthy_num_true, elem_of_nil.
  intuition (try discriminate; auto).
Qed.

(** With the Windows values, a mask with only the authenticatedSignedWrites
    bit decodes to nothing, and the broadcast bit alone decodes to two names. *)
Lemma characteristicPropertiesToStrings_64 :
  bitand 64 (gcp_authenticatedSignedWrites uwp_GattCharacteristicProperties) <> 0 /\
  characteristicPropertiesToStrings uwp_GattCharacteristicProperties 64 = [].
Proof. split; [vm_compute; discriminate | reflexivity]. Qed.

Lemma characteristicPropertiesToStrings_1 :
  bitand 1 (gcp_authenticatedSignedWrites uwp_GattCharacteristicProperties) = 0 /\
  characteristicPropertiesToStrings uwp_GattCharacteristicProperties 1
  = ["broadcast"; "authenticatedSignedWrites"].
Proof. split; reflexivity. Qed.

Lemma characteristicPropertiesToStrings_none (G : GattCharacteristicProperties) :
  characteristicPropertiesToStrings G 0 = [].
Proof. reflexivity. Qed.

(** ** The tracker of disposable objects *)

Lemma fold_close_closed (l : list RtObject) (st : RtState) :
  closed (fold_left (fun s disposable => close disposable s) l st) = closed st ++ l.
Proof.
  revert st. induction l as [|o l IH]; intros st; simpl.
  - by rewrite app_nil_r.
  - rewrite IH. simpl. by rewrite <- app_assoc.
Qed.

Lemma fold_close_disposableMap (l : list RtObject) (st : RtState) :
  disposableMap (fold_left (fun s disposable => close disposable s) l st) = disposableMap st.
Proof. revert st. induction l as [|o l IH]; intros st; simpl; [done | by rewrite IH]. Qed.

Lemma fold_close_keepAlive (l : list RtObject) (st : RtState) :
  keepAliveIntervalCount (fold_left (fun s disposable => close disposable s) l st)
  = keepAliveIntervalCount st /\
  keepAliveInterval (fold_left (fun s disposable => close disposable s) l st)
  = keepAliveInterval st.
Proof. revert st. induction l as [|o l IH]; intros st; simpl; [done | by rewrite !(proj1 (IH _)), !(proj2 (IH _))]. Qed.

Lemma disposeAll_closed (key : string) (st : RtState) :
  closed (disposeAll key st) = closed st ++ tracked key st.
Proof.
  unfold disposeAll, tracked. destruct (disposableMap st !! key) as [l|]; simpl.
  - apply fold_close_closed.
  - by rewrite app_nil_r.
Qed.

Lemma disposeAll_disposableMap (key : string) (st : RtState) :
  disposableMap (disposeAll key st) = disposableMap st.
Proof.
  unfold disposeAll. destruct (disposableMap st !! key) as [l|]; [|done].
  apply fold_close_disposableMap.
Qed.

Lemma disposeAll_tracked (key key' : string) (st : RtState) :
  tracked key' (disposeAll key st) = tracked key' st.
Proof. unfold tracked. by rewrite disposeAll_disposableMap. Qed.

(** A new closable object is tracked behind the ones tracked before it. *)
Lemma trackDisposable_appends (key : string) (o : RtObject) (st : RtState) :
  closable o = true ->
  existsb (Object_is o) (tracked key st) = false ->
  trackDisposable key (Some o) st
  = (Fulfilled (Some o),
     set_disposableMap (<[key := tracked key st ++ [o]]> (disposableMap st)) st).
Proof.
  intros Hc Hnew. unfold trackDisposable. rewrite Hc. simpl.
  fold (tracked key st). by rewrite Hnew.
Qed.

Lemma trackDisposable_tracked_new (key : string) (o : RtObject) (st : RtState) :
  closable o = true ->
  existsb (Object_is o) (tracked key st) = false ->
  tracked key (snd (trackDisposable key (Some o) st)) = tracked key st ++ [o].
Proof.
  intros Hc Hnew. rewrite trackDisposable_appends by done. simpl.
  unfold tracked at 1. simpl. by rewrite lookup_insert_eq.
Qed.

(** Tracking an object that is already tracked changes nothing. *)
Lemma trackDisposable_idempotent (key : string) (o : RtObject) (st : RtState) :
  closable o = true ->
  existsb (Object_is o) (tracked key st) = true ->
  trackDisposable key (Some o) st = (Fulfilled (Some o), st).
Proof.
  intros Hc Hold. unfold trackDisposable. rewrite Hc. simpl.
  fold (tracked key st). by rewrite Hold.
Qed.

(** C5, as the code has it.  [disposeAll] closes the objects tracked for
    the key, in the order in which they were tracked, and leaves the tracked
    set as it was: the objects are still tracked afterwards and a second
    [disposeAll] closes them once more.  With nothing tracked for the key it
    changes nothing. *)
Theorem disposeAll_closes_in_order_and_keeps_tracked (key : string) (st : RtState) :
  closed (disposeAll key st) = closed st ++ tracked key st /\
  tracked key (disposeAll key st) = tracked key st /\
  disposableMap (disposeAll key st) = disposableMap st /\
  closed (disposeAll key (disposeAll key st))
  = closed st ++ tracked key st ++ tracked key st /\
  (forall o, closable o = true -> existsb (Object_is o) (tracked key st) = false ->
     tracked key (snd (trackDisposable key (Some o) st)) = tracked key st ++ [o]) /\
  (tracked key st = [] -> disposeAll key st = st).
Proof.
  repeat split.
  - apply disposeAll_closed.
  - apply disposeAll_tracked.
  - apply disposeAll_disposableMap.
  - rewrite !disposeAll_closed, disposeAll_tracked. by rewrite <- app_assoc.
  - intros o. apply trackDisposable_tracked_new.
  - unfold tracked, disposeAll. destruct (disposableMap st !! key) as [l|]; simpl; [|done].
    intros ->. done.
Qed.

Lemma two_tracked_tracked : tracked "001122334455" two_tracked = [obj1; obj2].
Proof. reflexivity. Qed.

Lemma disposeAll_witness :
  closed (disposeAll "001122334455" two_tracked) = [obj1; obj2] /\
  tracked "001122334455" (snd (trackDisposable "001122334455" (Some obj3) two_tracked))
  = [obj1; obj2; obj3] /\
  disposeAll "ffeeddccbbaa" two_tracked = two_tracked.
Proof.
  split; [|split].
  - exact (proj1 (disposeAll_closes_in_order_and_keeps_tracked "001122334455" two_tracked)).
  - destruct (disposeAll_closes_in_order_and_keeps_tracked "001122334455" two_tracked)
      as (_ & _ & _ & _ & Htrack & _).
    apply (Htrack obj3); reflexivity.
  - apply (disposeAll_closes_in_order_and_keeps_tracked "ffeeddccbbaa" two_tracked).
    reflexivity.
Defined.

(** C5, as stated, fails: after [disposeAll] the two objects are still
    tracked, and a second [disposeAll] closes both again. *)
Lemma disposeAll_does_not_clear :
  tracked "001122334455" (disposeAll "001122334455" two_tracked) = [obj1; obj2] /\
  closed (disposeAll "001122334455" (disposeAll "001122334455" two_tracked))
  = [obj1; obj2; obj1; obj2] /\
  ~ (forall key st, tracked key (disposeAll key st) = []).
Proof.
  split; [reflexivity|]. split; [reflexivity|].
  intros H. specialize (H "001122334455" two_tracked). discriminate H.
Qed.

(** ** The address formatter *)

Lemma fixed_hex_zero (k : nat) (acc : string) : fixed_hex k 0 acc = zeros k acc.
Proof. revert acc. induction k as [|k IH]; intros acc; simpl; [done | apply IH]. Qed.

Lemma zeros_length (m : nat) (s : string) :
  String.length (zeros m s) = (m + String.length s)%nat.
Proof. revert s. induction m as [|m IH]; intros s; simpl; [done|]. rewrite IH. simpl. lia. Qed.

(** With enough fuel, [toString16_aux] yields the digits of [fixed_hex]
    without the leading zeros. *)
Lemma toString16_aux_fixed (k : nat) :
  forall (fuel : nat) (n : Z) (acc : string),
    0 <= n < 16 ^ Z.of_nat (S k) ->
    n < 16 ^ Z.of_nat fuel -> (1 <= fuel)%nat ->
    exists m : nat, (m <= k)%nat /\
      fixed_hex (S k) n acc = zeros m (toString16_aux fuel n acc) /\
      String.length (toString16_aux fuel n acc) = (S k - m + String.length acc)%nat.
Proof.
  induction k as [|k IH]; intros fuel n acc Hn Hfuel Hpos.
  - destruct fuel as [|fuel]; [lia|]. simpl.
    change (16 ^ Z.of_nat 1) with 16 in Hn.
    assert (n / 16 = 0) as -> by (apply Z.div_small; lia).
    simpl. exists 0%nat. repeat split; simpl; lia.
  - destruct fuel as [|fuel]; [lia|].
    cbn [toString16_aux fixed_hex].
    destruct (Z.eqb_spec (n / 16) 0) as [Hz|Hnz].
    + rewrite Hz. exists (S k). split; [lia|]. split.
      * simpl. apply fixed_hex_zero.
      * simpl. lia.
    + assert (16 <= n) as Hge.
      { destruct (Z_lt_le_dec n 16) as [Hlt|]; [|done].
        exfalso. apply Hnz. apply Z.div_small. lia. }
      assert (0 <= n / 16 < 16 ^ Z.of_nat (S k)) as Hn'.
      { split; [apply Z.div_pos; lia|].
        apply Z.div_lt_upper_bound; [lia|].
        replace (16 * 16 ^ Z.of_nat (S k)) with (16 ^ Z.of_nat (S (S k))); [lia|].
        rewrite (Nat2Z.inj_succ (S k)), Z.pow_succ_r; lia. }
      destruct fuel as [|fuel].
      { change (16 ^ Z.of_nat 1) with 16 in Hfuel. lia. }
      assert (n / 16 < 16 ^ Z.of_nat (S fuel)) as Hfuel'.
      { apply Z.div_lt_upper_bound; [lia|].
        replace (16 * 16 ^ Z.of_nat (S fuel)) with (16 ^ Z.of_nat (S (S fuel))); [lia|].
        rewrite (Nat2Z.inj_succ (S fuel)), Z.pow_succ_r; lia. }
      destruct (IH (S fuel) (n / 16) (String (hex_digit (n mod 16)) acc) Hn' Hfuel')
        as (m & Hm & Heq & Hlen); [lia|].
      exists m. split; [lia|]. split; [exact Heq|].
      rewrite Hlen. simpl. lia.
Qed.

Lemma pad_loop_zeros (fuel : nat) (s : string) :
  (String.length s <= 12)%nat -> (12 <= String.length s + fuel)%nat ->
  pad_loop fuel s = zeros (12 - String.length s) s.
Proof.
  revert s. induction fuel as [|fuel IH]; intros s Hle Hfuel; simpl.
  - replace (12 - String.length s)%nat with 0%nat by lia. done.
  - destruct (Nat.ltb_spec (String.length s) 12) as [Hlt|Hge].
    + rewrite IH by (simpl; lia). simpl String.length.
      replace (12 - String.length s)%nat with (S (12 - S (String.length s)))%nat by lia.
      done.
    + replace (12 - String.length s)%nat with 0%nat by lia. done.
Qed.

Lemma toString16_fuel (n : Z) :
  0 <= n -> n < 16 ^ Z.of_nat (S (Z.to_nat (Z.log2 n))).
Proof.
  intros Hn. destruct (Z.eq_dec n 0) as [->|Hnz].
  - simpl. lia.
  - pose proof (Z.log2_spec n ltac:(lia)) as [_ Hlt].
    pose proof (Z.log2_nonneg n) as Hlog.
    rewrite Nat2Z.inj_succ, Z2Nat.id by done.
    eapply Z.lt_le_trans; [exact Hlt|].
    apply Z.pow_le_mono_l. lia.
Qed.

(** Padded to twelve digits, the hexadecimal form of an address below 2^48
    is its twelve nibbles. *)
Lemma pad_toString16 (a : Z) :
  0 <= a < 2 ^ 48 -> pad_loop 12 (toString16 a) = fixed_hex 12 a "".
Proof.
  intros Ha. unfold toString16.
  destruct (toString16_aux_fixed 11 (S (Z.to_nat (Z.log2 a))) a "")
    as (m & Hm & Heq & Hlen).
  - change (16 ^ Z.of_nat 12) with (2 ^ 48). lia.
  - apply toString16_fuel. lia.
  - lia.
  - rewrite Heq. change (String.length "") with 0%nat in Hlen.
    rewrite pad_loop_zeros by lia. f_equal. lia.
Qed.

Lemma nibble_high (x : Z) : (x mod 256) / 16 = (x / 16) mod 16.
Proof.
  change 256 with (16 * 16). rewrite Z.rem_mul_r by lia.
  rewrite (Z.mul_comm 16), Z.div_add by lia.
  rewrite Z.div_small; [lia | apply Z.mod_pos_bound; lia].
Qed.

Lemma nibble_low (x : Z) : (x mod 256) mod 16 = x mod 16.
Proof.
  change 256 with (16 * 16). rewrite Z.rem_mul_r by lia.
  rewrite (Z.mul_comm 16), Z.mod_add by lia. apply Z.mod_mod. lia.
Qed.

Lemma formatBluetoothAddress_nonzero (a : Z) :
  0 < a < 2 ^ 48 -> formatBluetoothAddress a = colon_pairs a.
Proof.
  intros Ha. unfold formatBluetoothAddress.
  destruct (Z.eqb_spec a 0) as [->|_]; [lia|].
  rewrite pad_toString16 by lia.
  cbn [fixed_hex]. unfold substr. cbn [substring String.append].
  unfold colon_pairs, byte_pair, address_byte. cbn [String.append].
  rewrite !nibble_high, !nibble_low.
  change (256 ^ 0) with 1. change (256 ^ 1) with 256. change (256 ^ 2) with 65536.
  change (256 ^ 3) with 16777216. change (256 ^ 4) with 4294967296.
  change (256 ^ 5) with 1099511627776.
  repeat (apply (f_equal2 String); [try reflexivity|]); try reflexivity.
  all: apply (f_equal hex_digit); apply (f_equal (fun z => z mod 16)).
  all: rewrite ?Z.div_1_r; rewrite ?Z.div_div by lia; reflexivity.
Qed.

(** C9, as the code has it.  Every non-zero address below 2^48 is rendered
    as its six bytes, most significant first, each as two lowercase
    hexadecimal digits, joined by colons; 0x0011223344AA gives
    "00:11:22:33:44:aa".  The address 0 gives "null". *)
Theorem formatBluetoothAddress_colon_pairs :
  (forall a, 0 < a < 2 ^ 48 -> formatBluetoothAddress a = colon_pairs a) /\
  formatBluetoothAddress 0x0011223344AA = "00:11:22:33:44:aa" /\
  formatBluetoothAddress 0 = "null".
Proof.
  split; [exact formatBluetoothAddress_nonzero|]. split; reflexivity.
Qed.

Lemma formatBluetoothAddress_witness :
  0 < 0xC0FFEE000001 < 2 ^ 48 /\
  formatBluetoothAddress 0xC0FFEE000001 = colon_pairs 0xC0FFEE000001 /\
  colon_pairs 0xC0FFEE000001 = "c0:ff:ee:00:00:01".
Proof.
  assert (0 < 0xC0FFEE000001 < 2 ^ 48) as H by (split; reflexivity).
  split; [exact H|]. split; [|reflexivity].
  apply (proj1 formatBluetoothAddress_colon_pairs 0xC0FFEE000001). exact H.
Defined.

(** C9, as stated, fails at the address 0, for which the guard
    [if (!address)] answers 'null'. *)
Lemma formatBluetoothAddress_zero_is_null :
  formatBluetoothAddress 0 = "null" /\
  ~ (forall a, 0 <= a < 2 ^ 48 -> formatBluetoothAddress a = colon_pairs a).
Proof.
  split; [reflexivity|].
  intros H. specialize (H 0 ltac:(lia)). discriminate H.
Qed.

(** ** The UUID formatter *)

Lemma upper_lower (c : ascii) : upper_char (lower_char c) = upper_char c.
Proof. ascii_cases c; reflexivity. Qed.

Lemma lower_upper (c : ascii) : lower_char (upper_char c) = lower_char c.
Proof. ascii_cases c; reflexivity. Qed.

Lemma lit_match_iff (l c : ascii) :
  atom_matches_i (Lit l) c = true <-> lower_char c = lower_char l.
Proof.
  simpl. rewrite Ascii.eqb_eq. split; intros H.
  - rewrite <- (lower_upper c), <- (lower_upper l). by rewrite H.
  - rewrite <- (upper_lower c), <- (upper_lower l). by rewrite H.
Qed.

Lemma hex_match (c : ascii) : atom_matches_i HexClass c = is_lower_hex (lower_char c).
Proof. ascii_cases c; reflexivity. Qed.

Lemma is_hex_lower (c : ascii) : is_lower_hex (lower_char c) = is_hex c.
Proof. ascii_cases c; reflexivity. Qed.

Lemma is_hex_kept (c : ascii) : is_hex c = true -> hyphen_or_brace c = false.
Proof. ascii_cases c; simpl; intros H; try reflexivity; discriminate H. Qed.

Lemma length_append (s t : string) :
  String.length (s +:+ t) = (String.length s + String.length t)%nat.
Proof. induction s as [|c s IH]; simpl; [done | by rewrite IH]. Qed.

Lemma toLowerCase_append (s t : string) :
  toLowerCase (s +:+ t) = toLowerCase s +:+ toLowerCase t.
Proof. induction s as [|c s IH]; simpl; [done | by rewrite IH]. Qed.

Lemma toLowerCase_length (s : string) : String.length (toLowerCase s) = String.length s.
Proof. induction s as [|c s IH]; simpl; [done | by rewrite IH]. Qed.

Lemma toLowerCase_lower_hex (s : string) :
  string_forall is_lower_hex (toLowerCase s) = string_forall is_hex s.
Proof. induction s as [|c s IH]; simpl; [done | by rewrite IH, is_hex_lower]. Qed.

Lemma remove_chars_append (cls : ascii -> bool) (s t : string) :
  remove_chars cls (s +:+ t) = remove_chars cls s +:+ remove_chars cls t.
Proof.
  induction s as [|c s IH]; simpl; [done|].
  destruct (cls c); simpl; by rewrite IH.
Qed.

Lemma remove_chars_hex (s : string) :
  string_forall is_hex s = true -> remove_chars hyphen_or_brace s = s.
Proof.
  induction s as [|c s IH]; simpl; [done|].
  intros [Hc Hs]%andb_true_iff. rewrite (is_hex_kept c Hc). by rewrite IH.
Qed.

Lemma string_forall_append (p : ascii -> bool) (s t : string) :
  string_forall p (s +:+ t) = string_forall p s && string_forall p t.
Proof. induction s as [|c s IH]; simpl; [done | by rewrite IH, andb_assoc]. Qed.

Lemma append_cons (c : ascii) (s t : string) : String c s +:+ t = String c (s +:+ t).
Proof. reflexivity. Qed.

Lemma append_nil (t : string) : "" +:+ t = t.
Proof. reflexivity. Qed.

Lemma append_assoc (s t u : string) : (s +:+ t) +:+ u = s +:+ (t +:+ u).
Proof. induction s as [|c s IH]; [done | rewrite !append_cons; by f_equal]. Qed.

Lemma append_empty_r (s : string) : s +:+ "" = s.
Proof. induction s as [|c s IH]; [done | rewrite append_cons; by f_equal]. Qed.

(** A pattern of one-character atoms cannot match in a shorter string. *)
Lemma match_here_short (pat : list Atom) (s : string) :
  (String.length s < length pat)%nat -> match_here pat s = false.
Proof.
  revert s. induction pat as [|a pat IH]; intros s H; simpl in *; [lia|].
  destruct s as [|c s]; [done|]. simpl in H. rewrite IH by lia. apply andb_false_r.
Qed.

Lemma regex_test_short (pat : list Atom) (s : string) :
  (String.length s < length pat)%nat -> regex_test_i pat s = false.
Proof.
  induction s as [|c s IH]; intros H.
  - simpl. rewrite match_here_short by done. done.
  - cbn [regex_test_i]. rewrite match_here_short by done.
    simpl in H. rewrite IH by lia. done.
Qed.

(** In a string as long as the pattern, only offset 0 can match. *)
Lemma regex_test_exact (pat : list Atom) (s : string) :
  String.length s = length pat -> regex_test_i pat s = match_here pat s.
Proof.
  intros H. destruct s as [|c s].
  - simpl. apply orb_false_r.
  - cbn [regex_test_i]. simpl in H. rewrite (regex_test_short pat s) by lia.
    apply orb_false_r.
Qed.

Lemma base_uuid_regex_length : length base_uuid_regex = 38%nat.
Proof. reflexivity. Qed.

(** At offset 0 the pattern matches exactly the strings that spell the base
    UUID in braces, whatever the case of their letters. *)
Lemma match_here_base (s x : string) :
  is_base_uuid s x -> match_here base_uuid_regex s = true.
Proof.
  intros (Hlen & Hhex & Hs).
  explode x Hlen. rewrite !append_cons, !append_nil in Hs.
  explode_lower s Hs. subst.
  cbn [string_forall] in Hhex.
  repeat (apply andb_true_iff in Hhex; destruct Hhex as [? Hhex]).
  unfold base_uuid_regex. cbn [lits repeat app match_here].
  rewrite !hex_match.
  repeat (apply andb_true_iff; split); try done;
    apply lit_match_iff; assumption.
Qed.

Lemma match_here_base_inv (s : string) :
  String.length s = 38%nat -> match_here base_uuid_regex s = true ->
  is_base_uuid s (toLowerCase (substr 5 4 s)).
Proof.
  intros Hlen Hm. explode s Hlen.
  unfold base_uuid_regex in Hm. cbn [lits repeat app match_here] in Hm.
  rewrite !hex_match in Hm.
  repeat (apply andb_true_iff in Hm; destruct Hm as [? Hm]).
  repeat match goal with
         | H : atom_matches_i (Lit _) _ = true |- _ => apply lit_match_iff in H
         end.
  unfold is_base_uuid, substr. cbn [substring toLowerCase String.length string_forall].
  split; [done|]. split.
  - repeat (apply andb_true_iff; split); done.
  - rewrite !append_cons, !append_nil.
    repeat (apply (f_equal2 String); [assumption || reflexivity|]). reflexivity.
Qed.

Lemma formatUuid_base (s x : string) : is_base_uuid s x -> formatUuid s = x.
Proof.
  intros Hb. pose proof (match_here_base s x Hb) as Hm.
  destruct Hb as (Hlen & Hhex & Hs).
  assert (String.length s = 38%nat) as Hls.
  { rewrite <- toLowerCase_length, Hs, !length_append, Hlen. reflexivity. }
  unfold formatUuid.
  destruct s as [|c0 s0] eqn:Es; [discriminate Hls|]. rewrite <- Es in *.
  cbn [truthy negb].
  replace (truthy s) with true by (rewrite Es; reflexivity). cbn [negb].
  rewrite regex_test_exact, Hm by (by rewrite Hls).
  clear Es c0 s0 Hm. explode x Hlen. rewrite !append_cons, !append_nil in Hs.
  explode_lower s Hs. subst. reflexivity.
Qed.

Lemma uuid_groups_hex (a b c d e : string) :
  uuid_groups a b c d e ->
  string_forall is_hex a = true /\ string_forall is_hex b = true /\
  string_forall is_hex c = true /\ string_forall is_hex d = true /\
  string_forall is_hex e = true.
Proof.
  intros (_ & _ & _ & _ & _ & H).
  rewrite !string_forall_append, !andb_true_iff in H. tauto.
Qed.

(** Dropping hyphens and braces from a UUID string leaves its digits. *)
Lemma remove_chars_uuid_text (a b c d e : string) :
  uuid_groups a b c d e ->
  remove_chars hyphen_or_brace (uuid_text a b c d e) = a +:+ b +:+ c +:+ d +:+ e.
Proof.
  intros Hg. destruct (uuid_groups_hex a b c d e Hg) as (Ha & Hb & Hc & Hd & He).
  unfold uuid_text. rewrite !remove_chars_append.
  rewrite (remove_chars_hex a), (remove_chars_hex b), (remove_chars_hex c),
    (remove_chars_hex d), (remove_chars_hex e) by assumption.
  change (remove_chars hyphen_or_brace "-") with "". by rewrite !append_nil.
Qed.

Lemma uuid_text_length (a b c d e : string) :
  uuid_groups a b c d e -> String.length (uuid_text a b c d e) = 36%nat.
Proof.
  intros (Ha & Hb & Hc & Hd & He & _). unfold uuid_text.
  rewrite !length_append, Ha, Hb, Hc, Hd, He. reflexivity.
Qed.

Lemma truthy_length (s : string) : (0 < String.length s)%nat -> truthy s = true.
Proof. destruct s; simpl; [lia | done]. Qed.

(** Without braces a UUID string is never shortened. *)
Lemma formatUuid_plain (a b c d e : string) :
  uuid_groups a b c d e ->
  formatUuid (uuid_text a b c d e) = toLowerCase (a +:+ b +:+ c +:+ d +:+ e).
Proof.
  intros Hg. pose proof (uuid_text_length a b c d e Hg) as Hlen.
  unfold formatUuid. rewrite truthy_length by lia. cbn [negb].
  rewrite regex_test_short by (rewrite base_uuid_regex_length; lia).
  by rewrite remove_chars_uuid_text.
Qed.

Lemma formatUuid_braced_other (a b c d e : string) :
  uuid_groups a b c d e ->
  (forall x, ~ is_base_uuid (braced (uuid_text a b c d e)) x) ->
  formatUuid (braced (uuid_text a b c d e)) = toLowerCase (a +:+ b +:+ c +:+ d +:+ e).
Proof.
  intros Hg Hnb. pose proof (uuid_text_length a b c d e Hg) as Hlen.
  assert (String.length (braced (uuid_text a b c d e)) = 38%nat) as Hlb.
  { unfold braced. rewrite !length_append, Hlen. reflexivity. }
  unfold formatUuid. rewrite truthy_length by lia. cbn [negb].
  rewrite regex_test_exact by (by rewrite Hlb).
  destruct (match_here base_uuid_regex (braced (uuid_text a b c d e))) eqn:Hm.
  - exfalso. eapply Hnb. by apply match_here_base_inv.
  - unfold braced. rewrite !remove_chars_append, remove_chars_uuid_text by done.
    change (remove_chars hyphen_or_brace "{") with "".
    change (remove_chars hyphen_or_brace "}") with "".
    by rewrite append_nil, append_empty_r.
Qed.

Lemma uuid_digits_lower (a b c d e : string) :
  uuid_groups a b c d e ->
  String.length (toLowerCase (a +:+ b +:+ c +:+ d +:+ e)) = 32%nat /\
  string_forall is_lower_hex (toLowerCase (a +:+ b +:+ c +:+ d +:+ e)) = true.
Proof.
  intros (Ha & Hb & Hc & Hd & He & Hhex). split.
  - rewrite toLowerCase_length, !length_append, Ha, Hb, Hc, Hd, He. reflexivity.
  - by rewrite toLowerCase_lower_hex.
Qed.

(** C2, as the code has it.  A string that spells the base UUID in braces
    (in any letter case) is shortened to its lowercase four-digit assigned
    number.  Every other UUID string, that is every UUID string without
    braces and every braced one that is not the base pattern, is rendered as
    its 32 digits in lowercase, hyphens and braces dropped. *)
Theorem formatUuid_short_or_long :
  (forall s x, is_base_uuid s x -> formatUuid s = x) /\
  (forall a b c d e, uuid_groups a b c d e ->
     String.length (toLowerCase (a +:+ b +:+ c +:+ d +:+ e)) = 32%nat /\
     string_forall is_lower_hex (toLowerCase (a +:+ b +:+ c +:+ d +:+ e)) = true /\
     formatUuid (uuid_text a b c d e) = toLowerCase (a +:+ b +:+ c +:+ d +:+ e) /\
     ((forall x, ~ is_base_uuid (braced (uuid_text a b c d e)) x) ->
      formatUuid (braced (uuid_text a b c d e))
      = toLowerCase (a +:+ b +:+ c +:+ d +:+ e))) /\
  formatUuid "{0000180D-0000-1000-8000-00805F9B34FB}" = "180d" /\
  formatUuid "0000180D-0000-1000-8000-00805F9B34FB" = "0000180d00001000800000805f9b34fb" /\
  formatUuid "6E400001-B5A3-F393-E0A9-E50E24DCCA9E" = "6e400001b5a3f393e0a9e50e24dcca9e".
Proof.
  split; [exact formatUuid_base|]. split; [|repeat split; reflexivity].
  intros a b c d e Hg.
  destruct (uuid_digits_lower a b c d e Hg) as [Hl Hh].
  split; [exact Hl|]. split; [exact Hh|]. split.
  - by apply formatUuid_plain.
  - by apply formatUuid_braced_other.
Qed.

Lemma formatUuid_witness :
  formatUuid "{0000180d-0000-1000-8000-00805f9b34fb}" = "180d" /\
  formatUuid (uuid_text "6E400001" "B5A3" "F393" "E0A9" "E50E24DCCA9E")
  = toLowerCase "6E400001B5A3F393E0A9E50E24DCCA9E" /\
  formatUuid (braced (uuid_text "6E400001" "B5A3" "F393" "E0A9" "E50E24DCCA9E"))
  = toLowerCase "6E400001B5A3F393E0A9E50E24DCCA9E".
Proof.
  destruct formatUuid_short_or_long as (Hbase & Hother & _).
  split.
  - apply Hbase. repeat split; reflexivity.
  - assert (uuid_groups "6E400001" "B5A3" "F393" "E0A9" "E50E24DCCA9E") as Hg
      by (repeat split; reflexivity).
    destruct (Hother _ _ _ _ _ Hg) as (_ & _ & Hplain & Hbraced).
    split; [exact Hplain|]. apply Hbraced.
    intros x (_ & _ & Hs). vm_compute in Hs. discriminate Hs.
Defined.

(** C2, as stated, fails: the pattern asks for the braces, so the base UUID
    written without them is not shortened. *)
Lemma formatUuid_unbraced_base_not_short :
  formatUuid "0000180D-0000-1000-8000-00805F9B34FB" <> "180d".
Proof. discriminate. Qed.

(** ** The advertisement handler *)

Lemma read_txPowerLevel_readable (P : Projection) (e : ReceivedEventArgs) (w : World) :
  tx_readable P e = true ->
  read_txPowerLevel P (adv_dataSections (advertisement e)) w
  = (Fulfilled (tx_of_packet P e), w).
Proof.
  unfold tx_readable, tx_of_packet, read_txPowerLevel.
  destruct (List.find _ _) as [sec|]; [|done].
  destruct (ds_data sec) as [|b bs]; [discriminate|done].
Qed.

Lemma read_txPowerLevel_unreadable (P : Projection) (e : ReceivedEventArgs) (w : World) :
  tx_readable P e = false ->
  read_txPowerLevel P (adv_dataSections (advertisement e)) w = (Thrown (NativeError 0), w).
Proof.
  unfold tx_readable, read_txPowerLevel.
  destruct (List.find _ _) as [sec|]; [|discriminate].
  destruct (ds_data sec) as [|b bs]; [done|discriminate].
Qed.

(** A packet whose TX power section cannot be read leaves the world as it
    was: the handler throws before it touches the record. *)
Lemma received_unreadable (P : Projection) (e : ReceivedEventArgs) (w : World) :
  tx_readable P e = false ->
  _onAdvertisementWatcherReceived P e w = (Thrown (NativeError 0), w).
Proof.
  intros H. unfold _onAdvertisementWatcherReceived, bind.
  by rewrite read_txPowerLevel_unreadable.
Qed.

Lemma received_readable (P : Projection) (e : ReceivedEventArgs) (w : World) :
  tx_readable P e = true ->
  _onAdvertisementWatcherReceived P e w
  = (Fulfilled tt,
     let deviceUuid := deviceUuid_of (bluetoothAddress e) in
     let w1 := set_deviceMap (<[deviceUuid := merged_record P e w]> (_deviceMap w)) w in
     if advertisementType e =? scanResponse (adv_enum P) then
       add_emitted
         (ev_discover deviceUuid (formatBluetoothAddress (bluetoothAddress e))
            (addressType (merged_record P e w)) (connectable (merged_record P e w))
            (snapshot (merged_record P e w)) (rawSignalStrengthInDBm e)) w1
     else w1).
Proof.
  intros H. unfold _onAdvertisementWatcherReceived, bind.
  rewrite read_txPowerLevel_readable by done.
  unfold merged_record, deviceUuid_of. cbn zeta.
  by destruct (advertisementType e =? scanResponse (adv_enum P)).
Qed.

(** Over a whole scan: as many discovery events are emitted as scan
    responses were handled, and no other event. *)
Lemma receive_all_discover_count (P : Projection) (packets : list ReceivedEventArgs)
    (w : World) :
  Forall (fun e => tx_readable P e = true) packets ->
  exists events,
    emitted (receive_all P packets w) = emitted w ++ events /\
    forallb is_discover events = true /\
    length events = length (scan_responses P packets).
Proof.
  intros Hall. revert w. induction Hall as [|e packets He Hall IH]; intros w.
  - exists []. simpl. by rewrite app_nil_r.
  - cbn [receive_all]. destruct (IH (snd (_onAdvertisementWatcherReceived P e w)))
      as (events & Hem & Hdisc & Hlen).
    rewrite Hem. rewrite received_readable by done. cbn [snd scan_responses List.filter].
    fold (scan_responses P packets).
    destruct (advertisementType e =? scanResponse (adv_enum P)).
    + eexists (_ :: events). cbn [add_emitted emitted set_deviceMap].
      rewrite <- app_assoc. split; [reflexivity|]. split; [exact Hdisc|].
      simpl. by rewrite Hlen.
    + exists events. done.
Qed.

Lemma merge_packet_txPowerLevel (e : ReceivedEventArgs) (tx : option Z) (r : DeviceRecord) :
  txPowerLevel (merge_packet e tx r)
  = match tx with
    | Some v => if v =? 0 then txPowerLevel r else Some v
    | None => txPowerLevel r
    end.
Proof.
  unfold merge_packet, truthy_num.
  destruct (truthy (adv_localName (advertisement e)));
    destruct (adv_manufacturerData (advertisement e));
    destruct tx as [v|]; try destruct (v =? 0); reflexivity.
Qed.

Lemma merge_packet_serviceUuids (e : ReceivedEventArgs) (tx : option Z) (r : DeviceRecord) :
  serviceUuids (merge_packet e tx r)
  = fold_left push_unseen (adv_serviceUuids (advertisement e)) (serviceUuids r).
Proof.
  unfold merge_packet, truthy_num.
  destruct (truthy (adv_localName (advertisement e)));
    destruct (adv_manufacturerData (advertisement e));
    destruct tx as [v|]; try destruct (v =? 0); reflexivity.
Qed.

Lemma merge_packet_name (e : ReceivedEventArgs) (tx : option Z) (r : DeviceRecord) :
  name (merge_packet e tx r)
  = if truthy (adv_localName (advertisement e))
    then Some (adv_localName (advertisement e)) else name r.
Proof.
  unfold merge_packet, truthy_num.
  destruct (truthy (adv_localName (advertisement e)));
    destruct (adv_manufacturerData (advertisement e));
    destruct tx as [v|]; try destruct (v =? 0); reflexivity.
Qed.

Lemma received_deviceMap (P : Projection) (e : ReceivedEventArgs) (w : World) :
  tx_readable P e = true ->
  _deviceMap (snd (_onAdvertisementWatcherReceived P e w))
  = <[deviceUuid_of (bluetoothAddress e) := merged_record P e w]> (_deviceMap w).
Proof.
  intros H. rewrite received_readable by done. cbn [snd].
  by destruct (advertisementType e =? scanResponse (adv_enum P)).
Qed.

(** C7, as the code has it.  After a packet, the stored TX power level is
    the packet's decoded value when the packet carries one other than 0; a
    packet without a TX power section, and one whose TX power level is 0,
    leave the stored value as it was. *)
Theorem txPowerLevel_after_packet (P : Projection) (e : ReceivedEventArgs) (w : World) :
  tx_readable P e = true ->
  txPowerLevel_at (deviceUuid_of (bluetoothAddress e))
    (snd (_onAdvertisementWatcherReceived P e w))
  = match tx_of_packet P e with
    | Some v => if v =? 0 then txPowerLevel_at (deviceUuid_of (bluetoothAddress e)) w
                else Some v
    | None => txPowerLevel_at (deviceUuid_of (bluetoothAddress e)) w
    end.
Proof.
  intros Hr. unfold txPowerLevel_at. rewrite received_deviceMap by done.
  rewrite lookup_insert_eq. cbn [mbind option_bind].
  unfold merged_record. rewrite merge_packet_txPowerLevel.
  destruct (_deviceMap w !! deviceUuid_of (bluetoothAddress e)); reflexivity.
Qed.

(** ** The accumulated service UUIDs *)

Lemma filter_absorb {A} (p q : A -> bool) (l : list A) :
  (forall x, p x = true -> q x = true) ->
  List.filter p (List.filter q l) = List.filter p l.
Proof.
  intros Hpq. induction l as [|x l IH]; simpl; [done|].
  destruct (q x) eqn:Hq; simpl.
  - by rewrite IH.
  - destruct (p x) eqn:Hp; [|done]. rewrite (Hpq x Hp) in Hq. discriminate.
Qed.

Lemma filter_both {A} (p q : A -> bool) (l : list A) :
  List.filter p (List.filter q l) = List.filter (fun x => q x && p x) l.
Proof.
  induction l as [|x l IH]; simpl; [done|].
  destruct (q x); simpl; [|done]. destruct (p x); by rewrite IH.
Qed.

Lemma existsb_eqb_elem_of (u : string) (l : list string) :
  existsb (String.eqb u) l = true <-> u ∈ l.
Proof.
  rewrite existsb_exists, list_elem_of_In. split.
  - intros (x & Hx & Heq). apply String.eqb_eq in Heq. by subst.
  - intros H. exists u. split; [done | apply String.eqb_refl].
Qed.

(** The loop of the handler keeps what is stored and appends, in order, the
    first occurrences of the UUIDs that are not stored yet. *)
Lemma fold_push_unseen (stream acc : list string) :
  fold_left push_unseen stream acc
  = acc ++ List.filter (fun v => negb (existsb (String.eqb v) acc)) (first_seen stream).
Proof.
  revert acc. induction stream as [|u rest IH]; intros acc; cbn [fold_left first_seen].
  - simpl. by rewrite app_nil_r.
  - destruct (existsb (String.eqb u) acc) eqn:Hu.
    + assert (push_unseen acc u = acc) as -> by (unfold push_unseen; by rewrite Hu).
      rewrite IH. cbn [List.filter]. rewrite Hu. cbn [negb].
      f_equal. symmetry. apply filter_absorb.
      intros x Hx. apply negb_true_iff. apply negb_true_iff in Hx.
      destruct (String.eqb_spec x u) as [->|]; [congruence | done].
    + assert (push_unseen acc u = acc ++ [u]) as ->
        by (unfold push_unseen; by rewrite Hu).
      rewrite IH. cbn [List.filter]. rewrite Hu. cbn [negb].
      rewrite <- app_assoc. simpl. f_equal. f_equal.
      rewrite filter_both. apply List.filter_ext. intros x.
      rewrite existsb_app. simpl. rewrite orb_false_r, negb_orb. apply andb_comm.
Qed.


Lemma NoDup_list_filter {A} (p : A -> bool) (l : list A) :
  NoDup l -> NoDup (List.filter p l).
Proof.
  induction 1 as [|x l Hx Hl IH]; simpl; [constructor|].
  destruct (p x); [|done]. constructor; [|done].
  rewrite list_elem_of_In, filter_In, <- list_elem_of_In. tauto.
Qed.

Lemma NoDup_first_seen (stream : list string) : NoDup (first_seen stream).
Proof.
  induction stream as [|u rest IH]; simpl; constructor.
  - rewrite list_elem_of_In, filter_In, String.eqb_refl. simpl. intros [_ H]. discriminate.
  - by apply NoDup_list_filter.
Qed.


Lemma received_serviceUuids_same (P : Projection) (e : ReceivedEventArgs) (w : World) :
  tx_readable P e = true ->
  serviceUuids_at (deviceUuid_of (bluetoothAddress e))
    (snd (_onAdvertisementWatcherReceived P e w))
  = fold_left push_unseen (adv_serviceUuids (advertisement e))
      (serviceUuids_at (deviceUuid_of (bluetoothAddress e)) w).
Proof.
  intros Hr. unfold serviceUuids_at. rewrite received_deviceMap by done.
  rewrite lookup_insert_eq. unfold merged_record. rewrite merge_packet_serviceUuids.
  by destruct (_deviceMap w !! deviceUuid_of (bluetoothAddress e)).
Qed.

Lemma received_serviceUuids_other (P : Projection) (e : ReceivedEventArgs) (w : World)
    (deviceUuid : string) :
  deviceUuid_of (bluetoothAddress e) <> deviceUuid ->
  serviceUuids_at deviceUuid (snd (_onAdvertisementWatcherReceived P e w))
  = serviceUuids_at deviceUuid w.
Proof.
  intros Hne. destruct (tx_readable P e) eqn:Hr.
  - unfold serviceUuids_at. rewrite received_deviceMap by done.
    by rewrite lookup_insert_ne.
  - by rewrite received_unreadable.
Qed.

Lemma receive_all_serviceUuids (P : Projection) (deviceUuid : string)
    (packets : list ReceivedEventArgs) (w : World) :
  Forall (fun e => tx_readable P e = true) packets ->
  serviceUuids_at deviceUuid (receive_all P packets w)
  = fold_left push_unseen (uuid_stream deviceUuid packets) (serviceUuids_at deviceUuid w).
Proof.
  intros Hall. revert w. induction Hall as [|e packets He Hall IH]; intros w; [done|].
  cbn [receive_all]. rewrite IH. unfold uuid_stream. cbn [List.filter].
  destruct (String.eqb_spec (deviceUuid_of (bluetoothAddress e)) deviceUuid) as [Heq|Hne].
  - cbn [map concat]. rewrite fold_left_app. f_equal.
    rewrite <- Heq. by apply received_serviceUuids_same.
  - f_equal. by apply received_serviceUuids_other.
Qed.

(** A packet whose TX power section is empty contributes nothing: a scan
    ends as if only the packets that can be read had arrived. *)
Lemma receive_all_readable_only (P : Projection) (packets : list ReceivedEventArgs)
    (w : World) :
  receive_all P packets w = receive_all P (List.filter (tx_readable P) packets) w.
Proof.
  revert w. induction packets as [|e packets IH]; intros w; [done|].
  cbn [receive_all List.filter]. destruct (tx_readable P e) eqn:Hr.
  - cbn [receive_all]. apply IH.
  - rewrite received_unreadable by done. cbn [snd]. apply IH.
Qed.


(** Over any scan: as many discovery events are emitted as scan responses
    that could be read were handled, and no other event. *)
Lemma receive_all_discover_total (P : Projection) (packets : list ReceivedEventArgs)
    (w : World) :
  exists events,
    emitted (receive_all P packets w) = emitted w ++ events /\
    forallb is_discover events = true /\
    length events = length (scan_responses P (List.filter (tx_readable P) packets)).
Proof.
  rewrite receive_all_readable_only. apply receive_all_discover_count.
  apply Forall_forall. intros e He. rewrite list_elem_of_In, filter_In in He. tauto.
Qed.




(** The list stays free of duplicates from any state in which it is. *)
Lemma serviceUuids_NoDup_preserved (P : Projection) (deviceUuid : string)
    (packets : list ReceivedEventArgs) (w : World) :
  Forall (fun e => tx_readable P e = true) packets ->
  NoDup (serviceUuids_at deviceUuid w) ->
  NoDup (serviceUuids_at deviceUuid (receive_all P packets w)).
Proof.
  intros Hall Hnd. rewrite receive_all_serviceUuids, fold_push_unseen by done.
  apply NoDup_app. split; [done|]. split.
  - intros x Hx. rewrite list_elem_of_In, filter_In, negb_true_iff.
    intros [_ Hf]. apply existsb_eqb_elem_of in Hx. congruence.
  - apply NoDup_list_filter, NoDup_first_seen.
Qed.



(** The failing input of C7: the scan response carries a TX power level of
    0 dBm, and the record keeps the 4 dBm of the advertisement. *)
Lemma txPowerLevel_zero_not_stored :
  tx_of_packet uwp packet_rsp = Some 0 /\
  txPowerLevel_at "0011223344aa" (snd (_onAdvertisementWatcherReceived uwp packet_rsp after_adv))
  = Some 4.
Proof.
  split; [reflexivity|].
  exact (txPowerLevel_after_packet uwp packet_rsp after_adv eq_refl).
Defined.



(** ** The cached resolvers *)

Lemma resolver_frame_refl (w : World) : resolver_frame w w.
Proof. by repeat split. Qed.

Lemma resolver_frame_trans (w1 w2 w3 : World) :
  resolver_frame w1 w2 -> resolver_frame w2 w3 -> resolver_frame w1 w3.
Proof.
  intros (H1 & H2 & H3 & H4) (K1 & K2 & K3 & K4). repeat split.
  - congruence.
  - congruence.
  - intros d k. by rewrite K3, H3.
  - congruence.
Qed.

Lemma resolver_frame_add_call (c : TransportCall) (w : World) :
  is_GetDescriptors c = false -> resolver_frame w (add_call c w).
Proof.
  intros Hc. repeat split. simpl. rewrite List.filter_app. simpl. rewrite Hc.
  by rewrite app_nil_r.
Qed.

Lemma resolver_frame_set_rt (st : RtState) (w : World) : resolver_frame w (set_rt st w).
Proof. by repeat split. Qed.

Lemma resolver_frame_alter (deviceUuid : string) (f : DeviceRecord -> DeviceRecord) (w : World) :
  (forall r, descriptorMap (f r) = descriptorMap r) ->
  resolver_frame w (set_deviceMap (alter f deviceUuid (_deviceMap w)) w).
Proof.
  intros Hf. repeat split. intros d k. unfold descriptor_cache. simpl.
  rewrite lookup_alter. case_decide as Heq; [|done]. subst d.
  destruct (_deviceMap w !! deviceUuid) as [r|]; simpl; [|done]. by rewrite Hf.
Qed.

Lemma checkCommunicationResult_world (P : Projection) (deviceUuid : string) (st : Z) (w : World) :
  snd (checkCommunicationResult P deviceUuid st w) = w.
Proof. unfold checkCommunicationResult. by repeat case_match. Qed.

(** [checkCommunicationResult] lets a result through exactly when
    [write_failure] finds no error in it. *)
Lemma checkCommunicationResult_write_failure (P : Projection) (deviceUuid : string)
    (st : Z) (w : World) :
  checkCommunicationResult P deviceUuid st w
  = match write_failure P deviceUuid (inr st) with
    | Some err => (Thrown err, w)
    | None => (Fulfilled tt, w)
    end.
Proof. unfold checkCommunicationResult, write_failure. by repeat case_match. Qed.

Lemma getCachedService_frame (P : Projection) (T : Transport)
    (deviceUuid serviceUuid : string) (w : World) :
  resolver_frame w (snd (_getCachedServiceAsync P T deviceUuid serviceUuid w)).
Proof.
  unfold _getCachedServiceAsync, unknown_device, throw, ret.
  destruct (_deviceMap w !! deviceUuid) as [r|]; [|apply resolver_frame_refl].
  destruct (serviceMap r !! serviceUuid); [apply resolver_frame_refl|].
  destruct (device r) as [dev|]; [|apply resolver_frame_refl].
  unfold then_, promisify.
  destruct (getGattServicesAsync T (calls w) dev cached) as [err|result]; cbn [snd].
  { by apply resolver_frame_add_call. }
  eapply resolver_frame_trans; [by apply (resolver_frame_add_call (GetGattServices dev cached))|].
  generalize (add_call (GetGattServices dev cached) w). intros w1.
  unfold bind.
  pose proof (checkCommunicationResult_world P deviceUuid (status result) w1) as Hck.
  destruct (checkCommunicationResult P deviceUuid (status result) w1) as [[e| [] |e] w2];
    cbn [snd] in Hck; subst w2; try apply resolver_frame_refl.
  unfold trackDisposablesA.
  destruct (trackDisposables deviceUuid (map svc_object (items result)) (rt w1))
    as [[e| tracked_items |e] st]; cbn [snd]; try apply resolver_frame_set_rt.
  eapply resolver_frame_trans; [apply (resolver_frame_set_rt st)|].
  generalize (set_rt st w1). intros w2.
  destruct (List.find _ (items result)) as [service|]; cbn [snd];
    [|apply resolver_frame_refl].
  unfold update_record, modify, ret. cbn [snd].
  by apply resolver_frame_alter.
Qed.

Lemma then_frame {A B} (p : Async A) (f : A -> Async B) (w : World) :
  resolver_frame w (snd (p w)) ->
  (forall a w1, resolver_frame w1 (snd (f a w1))) ->
  resolver_frame w (snd (then_ p f w)).
Proof.
  intros Hp Hf. unfold then_.
  destruct (p w) as [[e|a|e] w1]; cbn [snd] in *; try exact Hp.
  specialize (Hf a w1).
  destruct (f a w1) as [[e|b|e] w2]; cbn [snd] in *; by eapply resolver_frame_trans.
Qed.

Lemma bind_frame {A B} (m : Async A) (f : A -> Async B) (w : World) :
  resolver_frame w (snd (m w)) ->
  (forall a w1, resolver_frame w1 (snd (f a w1))) ->
  resolver_frame w (snd (bind m f w)).
Proof.
  intros Hm Hf. unfold bind.
  destruct (m w) as [[e|a|e] w1]; cbn [snd] in *; try exact Hm.
  eapply resolver_frame_trans; [exact Hm | apply Hf].
Qed.

Lemma promisify_frame {A} (c : TransportCall) (answer : list TransportCall -> JsError + A)
    (w : World) :
  is_GetDescriptors c = false -> resolver_frame w (snd (promisify c answer w)).
Proof.
  intros Hc. unfold promisify.
  destruct (answer (calls w)); cbn [snd]; by apply resolver_frame_add_call.
Qed.

Lemma getCachedCharacteristic_frame (P : Projection) (T : Transport)
    (deviceUuid serviceUuid characteristicUuid : string) (w : World) :
  resolver_frame w
    (snd (_getCachedCharacteristicAsync P T deviceUuid serviceUuid characteristicUuid w)).
Proof.
  unfold _getCachedCharacteristicAsync, unknown_device, throw, ret.
  destruct (_deviceMap w !! deviceUuid) as [r|]; [|apply resolver_frame_refl].
  destruct (characteristicMap r !! _); [apply resolver_frame_refl|].
  apply then_frame; [apply getCachedService_frame|].
  intros service w1. apply then_frame; [by apply promisify_frame|].
  intros result w2. apply bind_frame.
  { rewrite checkCommunicationResult_world. apply resolver_frame_refl. }
  intros _ w3.
  destruct (List.find _ (items result)) as [characteristic|]; cbn [snd];
    [|apply resolver_frame_refl].
  unfold update_record, modify, ret, bind. cbn [snd].
  by apply resolver_frame_alter.
Qed.

(** The resolution of a characteristic leaves the subscriptions alone. *)
Lemma getCachedCharacteristic_listenerMap (P : Projection) (T : Transport)
    (deviceUuid serviceUuid characteristicUuid : string) (w : World) :
  _listenerMap (snd (_getCachedCharacteristicAsync P T deviceUuid serviceUuid
                       characteristicUuid w))
  = _listenerMap w.
Proof. apply getCachedCharacteristic_frame. Qed.

Lemma getCachedDescriptor_uncached (P : Projection) (T : Transport)
    (deviceUuid serviceUuid characteristicUuid descriptorUuid : string)
    (deviceRecord : DeviceRecord) (w : World) :
  _deviceMap w !! deviceUuid = Some deviceRecord ->
  descriptorMap deviceRecord
    !! (serviceUuid +:+ "/" +:+ characteristicUuid +:+ "/" +:+ descriptorUuid) = None ->
  _getCachedDescriptorAsync P T deviceUuid serviceUuid characteristicUuid descriptorUuid w
  = match _getCachedCharacteristicAsync P T deviceUuid serviceUuid characteristicUuid w with
    | (Fulfilled _, w1) => (Rejected (ReferenceError "characteristic"), w1)
    | (Thrown e, w1) => (Thrown e, w1)
    | (Rejected e, w1) => (Rejected e, w1)
    end.
Proof.
  intros Hrec Hkey. unfold _getCachedDescriptorAsync. rewrite Hrec, Hkey.
  unfold then_ at 1.
  by destruct (_getCachedCharacteristicAsync P T deviceUuid serviceUuid characteristicUuid w)
    as [[e|characteristic|e] w1].
Qed.

(** C3, as the code has it.  For a known device and a descriptor key that
    is not cached, the resolution of the descriptor never yields a
    descriptor: once the characteristic is resolved, the callback reads the
    unbound name [characteristic] and the promise is rejected with a
    ReferenceError.  No descriptor query reaches the platform and the
    descriptor cache stays empty at the key. *)
Theorem getCachedDescriptor_uncached_rejects (P : Projection) (T : Transport)
    (deviceUuid serviceUuid characteristicUuid descriptorUuid : string) (w : World) :
  let key := serviceUuid +:+ "/" +:+ characteristicUuid +:+ "/" +:+ descriptorUuid in
  let out := _getCachedDescriptorAsync P T deviceUuid serviceUuid characteristicUuid
               descriptorUuid w in
  is_Some (_deviceMap w !! deviceUuid) ->
  descriptor_cache w deviceUuid key = None ->
  (forall descriptor, fst out <> Fulfilled descriptor) /\
  (forall characteristic w1,
     _getCachedCharacteristicAsync P T deviceUuid serviceUuid characteristicUuid w
     = (Fulfilled characteristic, w1) ->
     out = (Rejected (ReferenceError "characteristic"), w1)) /\
  descriptor_cache (snd out) deviceUuid key = None /\
  List.filter is_GetDescriptors (calls (snd out)) = List.filter is_GetDescriptors (calls w).
Proof.
  cbn zeta. intros [deviceRecord Hrec] Hkey.
  pose proof Hkey as Hkey'. unfold descriptor_cache in Hkey'.
  rewrite Hrec in Hkey'. cbn [mbind option_bind] in Hkey'.
  pose proof (getCachedCharacteristic_frame P T deviceUuid serviceUuid characteristicUuid w)
    as (_ & _ & Hcache & Hcalls).
  rewrite (getCachedDescriptor_uncached P T _ _ _ _ _ w Hrec Hkey').
  destruct (_getCachedCharacteristicAsync P T deviceUuid serviceUuid characteristicUuid w)
    as [[e|characteristic|e] w1]; cbn [fst snd] in *.
  - repeat split; try done. by rewrite Hcache.
  - repeat split; try done.
    + intros c w2 [= <- <-]. done.
    + by rewrite Hcache.
  - repeat split; try done. by rewrite Hcache.
Qed.

Lemma connected_world :
  emitted connected = [ev_connect "0011223344aa" None] /\
  (_deviceMap connected !! "0011223344aa" ≫= device) = Some device_obj /\
  tracked "0011223344aa" (rt connected) = [device_obj].
Proof. repeat split; reflexivity. Qed.

Lemma getCachedDescriptor_uncached_witness :
  fst (_getCachedCharacteristicAsync uwp peripheral "0011223344aa" "180d" "2a37" connected)
  = Fulfilled chr_measurement /\
  getDescriptorsAsync peripheral [] chr_measurement cached
  = inr {| status := 0; items := [dsc_cccd] |} /\
  formatUuid (dsc_uuid dsc_cccd) = "2902" /\
  _getCachedDescriptorAsync uwp peripheral "0011223344aa" "180d" "2a37" "2902" connected
  = (Rejected (ReferenceError "characteristic"),
     snd (_getCachedCharacteristicAsync uwp peripheral "0011223344aa" "180d" "2a37" connected)).
Proof.
  split; [reflexivity|]. split; [reflexivity|]. split; [reflexivity|].
  assert (is_Some (_deviceMap connected !! "0011223344aa")) as Hknown
    by (eexists; reflexivity).
  destruct (getCachedDescriptor_uncached_rejects uwp peripheral
              "0011223344aa" "180d" "2a37" "2902" connected Hknown eq_refl)
    as (_ & Hrej & _).
  apply (Hrej chr_measurement). reflexivity.
Defined.

(** ** Subscriptions *)

(** How [promisify] followed by [checkCommunicationResult] ends when the
    write fails. *)
Lemma promisify_check_failure (P : Projection) (deviceUuid : string) (c : TransportCall)
    (answer : list TransportCall -> JsError + Z) (k : Async unit) (err : JsError) (w : World) :
  write_failure P deviceUuid (answer (calls w)) = Some err ->
  then_ (promisify c answer)
    (fun result => checkCommunicationResult P deviceUuid result ;; k) w
  = (Rejected err, add_call c w).
Proof.
  intros Hf. unfold then_, promisify.
  destruct (answer (calls w)) as [e|st].
  - simpl in Hf. by injection Hf as ->.
  - unfold bind. rewrite checkCommunicationResult_write_failure, Hf. done.
Qed.

(** C4, as the code has it.  When the descriptor write of an enable fails,
    the error is sent with the 'notify' event and no entry is added.  When
    the descriptor write of a disable fails, the error is sent with the
    'notify' event as well, but the entry is gone: the listener was detached
    and its entry deleted before the write was issued. *)
Theorem notify_failed_write (P : Projection) (T : Transport)
    (deviceUuid serviceUuid characteristicUuid : string)
    (characteristic : Characteristic) (w w1 : World) :
  let key := deviceUuid +:+ "/" +:+ serviceUuid +:+ "/" +:+ characteristicUuid in
  _getCachedCharacteristicAsync P T deviceUuid serviceUuid characteristicUuid w
  = (Fulfilled characteristic, w1) ->
  (forall err,
     _listenerMap w !! key = None ->
     write_failure P deviceUuid
       (writeClientCharacteristicConfigurationDescriptorWithResultAsync T
          (calls w1) characteristic cccd_notify) = Some err ->
     exists w',
       notify P T deviceUuid serviceUuid characteristicUuid true w = (Fulfilled tt, w') /\
       _listenerMap w' = _listenerMap w /\
       emitted w'
       = emitted w ++ [ev_notify deviceUuid serviceUuid characteristicUuid (inr err)]) /\
  (forall listener err,
     _listenerMap w !! key = Some listener ->
     write_failure P deviceUuid
       (writeClientCharacteristicConfigurationDescriptorWithResultAsync T
          (calls w1 ++ [RemoveListener characteristic listener]) characteristic cccd_none)
     = Some err ->
     exists w',
       notify P T deviceUuid serviceUuid characteristicUuid false w = (Fulfilled tt, w') /\
       _listenerMap w' = delete key (_listenerMap w) /\
       _listenerMap w' !! key = None /\
       emitted w'
       = emitted w ++ [ev_notify deviceUuid serviceUuid characteristicUuid (inr err)]).
Proof.
  cbn zeta. intros Hres.
  pose proof (getCachedCharacteristic_frame P T deviceUuid serviceUuid characteristicUuid w)
    as (Hl & He & _ & _).
  rewrite Hres in Hl, He. cbn [snd] in Hl, He.
  split.
  - intros err Hnone Hfail. rewrite <- Hl in Hnone.
    unfold notify, catch_. unfold then_ at 1. rewrite Hres, Hnone.
    rewrite (promisify_check_failure P deviceUuid _ _ _ err w1 Hfail).
    eexists. split; [reflexivity|]. simpl. by rewrite Hl, He.
  - intros listener err Hsome Hfail. rewrite <- Hl in Hsome.
    unfold notify, catch_. unfold then_ at 1. rewrite Hres, Hsome.
    unfold keepAliveA, call, modify, bind at 1 2 3.
    erewrite promisify_check_failure by exact Hfail.
    eexists. split; [reflexivity|]. simpl. rewrite Hl, He.
    split; [done|]. split; [apply lookup_delete_eq | done].
Qed.

Lemma subscribed_world :
  _listenerMap subscribed !! "0011223344aa/180d/2a37"
  = Some {| lst_deviceUuid := "0011223344aa"; lst_serviceUuid := "180d";
            lst_characteristicUuid := "2a37" |} /\
  keepAliveIntervalCount (rt subscribed) = 1 /\
  emitted subscribed
  = [ev_connect "0011223344aa" None; ev_notify "0011223344aa" "180d" "2a37" (inl true)].
Proof. repeat split; reflexivity. Qed.

Lemma notify_failed_write_witness :
  (exists w',
     notify uwp peripheral_refusing "0011223344aa" "180d" "2a37" true connected
     = (Fulfilled tt, w') /\
     _listenerMap w' = _listenerMap connected /\
     emitted w'
     = emitted connected ++
       [ev_notify "0011223344aa" "180d" "2a37"
          (inr (Error "Protocol error communicating with device: 0011223344aa"))]) /\
  exists w',
    notify uwp peripheral "0011223344aa" "180d" "2a37" false subscribed = (Fulfilled tt, w') /\
    _listenerMap w' = delete "0011223344aa/180d/2a37" (_listenerMap subscribed) /\
    _listenerMap w' !! "0011223344aa/180d/2a37" = None /\
    emitted w'
    = emitted subscribed ++
      [ev_notify "0011223344aa" "180d" "2a37"
         (inr (Error "Device unreachable: 0011223344aa"))].
Proof.
  split.
  { destruct (notify_failed_write uwp peripheral_refusing "0011223344aa" "180d" "2a37"
                chr_measurement connected
                (snd (_getCachedCharacteristicAsync uwp peripheral_refusing
                        "0011223344aa" "180d" "2a37" connected))
                eq_refl) as [Henable _].
    apply (Henable (Error "Protocol error communicating with device: 0011223344aa"));
      reflexivity. }
  assert (_getCachedCharacteristicAsync uwp peripheral "0011223344aa" "180d" "2a37" subscribed
          = (Fulfilled chr_measurement, subscribed)) as Hres by reflexivity.
  destruct (notify_failed_write uwp peripheral "0011223344aa" "180d" "2a37"
              chr_measurement subscribed subscribed Hres) as [_ Hdisable].
  apply (Hdisable {| lst_deviceUuid := "0011223344aa"; lst_serviceUuid := "180d";
                     lst_characteristicUuid := "2a37" |}
                  (Error "Device unreachable: 0011223344aa")); reflexivity.
Defined.

(** C4, as stated, fails: after a disable whose descriptor write reports
    the device unreachable, the entry of the subscription is gone. *)
Lemma notify_failed_disable_drops_entry :
  is_Some (_listenerMap subscribed !! "0011223344aa/180d/2a37") /\
  writeClientCharacteristicConfigurationDescriptorWithResultAsync peripheral
    (calls subscribed) chr_measurement cccd_none
  = inr (gcs_unreachable uwp_GattCommunicationStatus) /\
  let w' := snd (notify uwp peripheral "0011223344aa" "180d" "2a37" false subscribed) in
  _listenerMap w' !! "0011223344aa/180d/2a37" = None /\
  last (emitted w')
  = Some (ev_notify "0011223344aa" "180d" "2a37"
            (inr (Error "Device unreachable: 0011223344aa"))).
Proof.
  split; [eexists; reflexivity|]. split; [reflexivity|]. split; reflexivity.
Qed.

(** ** Writes *)

(** The sibling [write] sends the error of a failed write with its event,
    unless the caller asked for a write without response. *)
Lemma write_failure_surfaced (P : Projection) (T : Transport)
    (deviceUuid serviceUuid characteristicUuid : string) (data : list Z)
    (characteristic : Characteristic) (err : JsError) (w w1 : World) :
  _getCachedCharacteristicAsync P T deviceUuid serviceUuid characteristicUuid w
  = (Fulfilled characteristic, w1) ->
  write_failure P deviceUuid
    (characteristic_writeValueWithResultAsync T (calls w1) characteristic data) = Some err ->
  write P T deviceUuid serviceUuid characteristicUuid data false w
  = (Fulfilled tt,
     add_emitted (ev_write deviceUuid serviceUuid characteristicUuid (Some err))
       (add_call (CharacteristicWrite characteristic data) w1)).
Proof.
  intros Hres Hfail. unfold write, catch_. unfold then_ at 1. rewrite Hres.
  by rewrite (promisify_check_failure P deviceUuid _ _ _ err w1 Hfail).
Qed.

(** A descriptor is only ever resolved from the cache, and resolving it
    emits nothing. *)
Lemma getCachedDescriptor_cases (P : Projection) (T : Transport)
    (deviceUuid serviceUuid characteristicUuid descriptorUuid : string) (w : World) :
  let out := _getCachedDescriptorAsync P T deviceUuid serviceUuid characteristicUuid
               descriptorUuid w in
  emitted (snd out) = emitted w /\
  forall descriptor, fst out = Fulfilled descriptor ->
    snd out = w /\
    descriptor_cache w deviceUuid
      (serviceUuid +:+ "/" +:+ characteristicUuid +:+ "/" +:+ descriptorUuid)
    = Some descriptor.
Proof.
  cbn zeta. destruct (_deviceMap w !! deviceUuid) as [r|] eqn:Hrec.
  - destruct (descriptorMap r
                !! (serviceUuid +:+ "/" +:+ characteristicUuid +:+ "/" +:+ descriptorUuid))
      as [d|] eqn:Hkey.
    + unfold _getCachedDescriptorAsync. rewrite Hrec, Hkey. cbn [ret fst snd].
      split; [done|]. intros d' [= <-]. split; [done|].
      unfold descriptor_cache. by rewrite Hrec.
    + rewrite (getCachedDescriptor_uncached P T _ _ _ _ _ w Hrec Hkey).
      pose proof (getCachedCharacteristic_frame P T deviceUuid serviceUuid
                    characteristicUuid w) as (_ & He & _ & _).
      destruct (_getCachedCharacteristicAsync P T deviceUuid serviceUuid characteristicUuid w)
        as [[e|c|e] w1]; cbn [fst snd] in *; split; done.
  - unfold _getCachedDescriptorAsync, unknown_device, throw. rewrite Hrec. cbn [fst snd].
    split; done.
Qed.

(** [writeValue] in terms of how the resolution of the descriptor ends. *)
Lemma writeValue_outcome (P : Projection) (T : Transport)
    (deviceUuid serviceUuid characteristicUuid descriptorUuid : string) (data : list Z)
    (w : World) :
  writeValue P T deviceUuid serviceUuid characteristicUuid descriptorUuid data w
  = match _getCachedDescriptorAsync P T deviceUuid serviceUuid characteristicUuid
            descriptorUuid w with
    | (Thrown e, w1) => (Thrown e, w1)
    | (Rejected e, w1) => (Rejected (ReferenceError "withoutResponse"), w1)
    | (Fulfilled d, w1) =>
        match write_failure P deviceUuid
                (descriptor_writeValueWithResultAsync T (calls w1) d data) with
        | Some _ =>
            (Rejected (ReferenceError "withoutResponse"),
             add_call (DescriptorWrite d data) w1)
        | None =>
            (Fulfilled tt,
             add_emitted
               (ev_writeValue deviceUuid serviceUuid characteristicUuid descriptorUuid None)
               (add_call (DescriptorWrite d data) w1))
        end
    end.
Proof.
  unfold writeValue, catch_. unfold then_ at 1.
  destruct (_getCachedDescriptorAsync P T deviceUuid serviceUuid characteristicUuid
              descriptorUuid w) as [[e|d|e] w1]; [done| |done].
  destruct (write_failure P deviceUuid
              (descriptor_writeValueWithResultAsync T (calls w1) d data)) as [err|] eqn:Hw.
  - by rewrite (promisify_check_failure P deviceUuid _ _ _ err w1 Hw).
  - unfold then_, promisify.
    destruct (descriptor_writeValueWithResultAsync T (calls w1) d data) as [e|st];
      [discriminate Hw|].
    unfold bind. rewrite checkCommunicationResult_write_failure, Hw. done.
Qed.

(** C10, as the code has it.  [writeValue] never sends an error: its event
    is emitted on success only.  When the descriptor is cached and the
    transport write fails, the catch handler reads the unbound name
    [withoutResponse]; the promise is rejected with a ReferenceError and
    nothing is emitted.  The same holds when the resolution of the
    descriptor is rejected. *)
Theorem writeValue_failure_not_surfaced (P : Projection) (T : Transport)
    (deviceUuid serviceUuid characteristicUuid descriptorUuid : string) (data : list Z)
    (w : World) :
  let key := serviceUuid +:+ "/" +:+ characteristicUuid +:+ "/" +:+ descriptorUuid in
  let out := writeValue P T deviceUuid serviceUuid characteristicUuid descriptorUuid data w in
  (emitted (snd out) = emitted w \/
   (fst out = Fulfilled tt /\
    emitted (snd out)
    = emitted w ++
      [ev_writeValue deviceUuid serviceUuid characteristicUuid descriptorUuid None])) /\
  (forall descriptor err,
     descriptor_cache w deviceUuid key = Some descriptor ->
     write_failure P deviceUuid
       (descriptor_writeValueWithResultAsync T (calls w) descriptor data) = Some err ->
     out = (Rejected (ReferenceError "withoutResponse"),
            add_call (DescriptorWrite descriptor data) w)) /\
  (forall err w1,
     _getCachedDescriptorAsync P T deviceUuid serviceUuid characteristicUuid descriptorUuid w
     = (Rejected err, w1) ->
     out = (Rejected (ReferenceError "withoutResponse"), w1) /\ emitted w1 = emitted w).
Proof.
  cbn zeta.
  pose proof (getCachedDescriptor_cases P T deviceUuid serviceUuid characteristicUuid
                descriptorUuid w) as Hcases.
  cbn zeta in Hcases. destruct Hcases as [Hem Hful].
  rewrite writeValue_outcome.
  destruct (_getCachedDescriptorAsync P T deviceUuid serviceUuid characteristicUuid
              descriptorUuid w) as [[e|d|e] w1] eqn:Hres; cbn [fst snd] in *.
  - split; [by left|]. split; [|done].
    intros d err Hc _. exfalso.
    destruct (_deviceMap w !! deviceUuid) as [r|] eqn:Hrec.
    + unfold descriptor_cache in Hc. rewrite Hrec in Hc. cbn [mbind option_bind] in Hc.
      unfold _getCachedDescriptorAsync in Hres. rewrite Hrec, Hc in Hres. discriminate Hres.
    + unfold descriptor_cache in Hc. rewrite Hrec in Hc. discriminate Hc.
  - destruct (Hful d eq_refl) as [-> Hc]. clear Hful.
    destruct (write_failure P deviceUuid
                (descriptor_writeValueWithResultAsync T (calls w) d data)) as [err|] eqn:Hw;
      cbn [fst snd].
    + split; [by left|]. split; [|done].
      intros d' err' Hc' _. rewrite Hc in Hc'. by injection Hc' as <-.
    + split; [by right|]. split; [|done].
      intros d' err' Hc' Hw'. rewrite Hc in Hc'. injection Hc' as <-. congruence.
  - split; [by left|]. split.
    + intros d err Hc _. exfalso.
      destruct (_deviceMap w !! deviceUuid) as [r|] eqn:Hrec.
      * unfold descriptor_cache in Hc. rewrite Hrec in Hc. cbn [mbind option_bind] in Hc.
        unfold _getCachedDescriptorAsync in Hres. rewrite Hrec, Hc in Hres. discriminate Hres.
      * unfold descriptor_cache in Hc. rewrite Hrec in Hc. discriminate Hc.
    + intros err w2 [= <- <-]. done.
Qed.

Lemma writeValue_failure_not_surfaced_witness :
  writeValue uwp peripheral "0011223344aa" "180d" "2a37" "2902" [1; 0] with_cached_descriptor
  = (Rejected (ReferenceError "withoutResponse"),
     add_call (DescriptorWrite dsc_cccd [1; 0]) with_cached_descriptor) /\
  fst (writeValue uwp peripheral "0011223344aa" "180d" "2a37" "2902" [1; 0] connected)
  = Rejected (ReferenceError "withoutResponse") /\
  emitted (snd (writeValue uwp peripheral "0011223344aa" "180d" "2a37" "2902" [1; 0] connected))
  = emitted connected.
Proof.
  split.
  - apply (proj1 (proj2 (writeValue_failure_not_surfaced uwp peripheral
                           "0011223344aa" "180d" "2a37" "2902" [1; 0]
                           with_cached_descriptor))
             dsc_cccd (Error "Device unreachable: 0011223344aa")); reflexivity.
  - destruct (proj2 (proj2 (writeValue_failure_not_surfaced uwp peripheral
                              "0011223344aa" "180d" "2a37" "2902" [1; 0] connected))
                (ReferenceError "characteristic")
                (snd (_getCachedCharacteristicAsync uwp peripheral
                        "0011223344aa" "180d" "2a37" connected))
                eq_refl) as [Hout Hem].
    rewrite Hout. split; [reflexivity|]. cbn [snd]. exact Hem.
Defined.

(** On the peripheral above, the same failed write on the characteristic is
    reported by [write]. *)
Lemma write_failure_surfaced_example :
  emitted (snd (write uwp peripheral "0011223344aa" "180d" "2a37" [1; 0] false connected))
  = emitted connected ++
    [ev_write "0011223344aa" "180d" "2a37"
       (Some (Error "Device unreachable: 0011223344aa"))].
Proof. reflexivity. Qed.

(** * Further properties *)

(** ** rt-utils.js: keepAlive *)

Lemma keepAlive_interval_step (k : bool) (st : RtState) :
  interval_matches st -> interval_matches (keepAlive k st).
Proof.
  unfold interval_matches, keepAlive. intros H. destruct k; cbn.
  - destruct (Z.eqb_spec (keepAliveIntervalCount st + 1) 1); [intuition lia|].
    rewrite H. lia.
  - destruct (Z.eqb_spec (keepAliveIntervalCount st - 1) 0); [intuition (lia || discriminate)|].
    rewrite H. lia.
Qed.

Lemma keepAlive_count_step (k : bool) (st : RtState) :
  keepAliveIntervalCount (keepAlive k st)
  = keepAliveIntervalCount st + (if k then 1 else -1).
Proof. destruct k; cbn; lia. Qed.

Lemma keepAlive_tracker_step (k : bool) (st : RtState) :
  disposableMap (keepAlive k st) = disposableMap st /\ closed (keepAlive k st) = closed st.
Proof. by destruct k. Qed.

(** X1. Over any run of [keepAlive] calls the interval is installed
    exactly while the count is positive, the count is the number of
    increments minus the number of decrements, and the tracked objects are
    not touched. *)
Theorem keepAlive_interval_invariant (ks : list bool) (st : RtState) :
  interval_matches st ->
  interval_matches (keepAlive_all ks st) /\
  keepAliveIntervalCount (keepAlive_all ks st)
  = keepAliveIntervalCount st + increments ks - decrements ks /\
  disposableMap (keepAlive_all ks st) = disposableMap st /\
  closed (keepAlive_all ks st) = closed st.
Proof.
  unfold keepAlive_all, increments, decrements.
  revert st. induction ks as [|k ks IH]; intros st Hst; simpl.
  - repeat split; try apply Hst; lia.
  - destruct (IH (keepAlive k st) (keepAlive_interval_step k st Hst))
      as (Hi & Hc & Hd & Hcl).
    split; [exact Hi|]. rewrite Hc, Hd, Hcl, keepAlive_count_step.
    destruct (keepAlive_tracker_step k st) as [-> ->].
    destruct k; simpl; repeat split; lia.
Qed.

Lemma keepAlive_interval_invariant_witness :
  keepAliveInterval (keepAlive_all [true; true; false; false; false; true] RtUtils.initial)
  = false /\
  keepAliveIntervalCount (keepAlive_all [true; true; false; false; false; true] RtUtils.initial)
  = 0.
Proof.
  assert (interval_matches RtUtils.initial) as H0 by (split; [discriminate | cbn; lia]).
  destruct (keepAlive_interval_invariant [true; true; false; false; false; true]
              RtUtils.initial H0) as (_ & Hc & _).
  split; [reflexivity | exact Hc].
Defined.

(** ** rt-utils.js: trackDisposable and trackDisposables *)

Lemma Object_is_existsb (o : RtObject) (l : list RtObject) :
  existsb (Object_is o) l = true <-> oid o ∈ map oid l.
Proof.
  rewrite existsb_exists, list_elem_of_In, in_map_iff. unfold Object_is. split.
  - intros (x & Hx & Heq). apply Nat.eqb_eq in Heq. eauto.
  - intros (x & Heq & Hx). exists x. split; [done|]. by apply Nat.eqb_eq.
Qed.

(** One closable object: it is tracked afterwards, what was tracked stays in
    place, and nothing else changes. *)
Lemma trackDisposable_step (key : string) (o : RtObject) (st : RtState) :
  closable o = true ->
  exists st',
    trackDisposable key (Some o) st = (Fulfilled (Some o), st') /\
    tracked key st'
    = (if is_tracked key o st then tracked key st else tracked key st ++ [o]) /\
    (forall key', key' <> key -> tracked key' st' = tracked key' st) /\
    closed st' = closed st /\
    keepAliveIntervalCount st' = keepAliveIntervalCount st /\
    keepAliveInterval st' = keepAliveInterval st.
Proof.
  intros Hc. unfold is_tracked. destruct (existsb (Object_is o) (tracked key st)) eqn:Hin.
  - exists st. rewrite trackDisposable_idempotent by done. done.
  - eexists. rewrite trackDisposable_appends by done. split; [reflexivity|].
    unfold tracked. cbn. rewrite lookup_insert_eq. repeat split.
    intros key' Hne. by rewrite lookup_insert_ne.
Qed.

Lemma is_tracked_app (key : string) (o : RtObject) (st st' : RtState) (added : list RtObject) :
  tracked key st' = tracked key st ++ added ->
  is_tracked key o st = true -> is_tracked key o st' = true.
Proof.
  unfold is_tracked. intros -> H. rewrite existsb_app, H. done.
Qed.

(** X2. When every object of the array has a close function,
    [trackDisposables] returns the array; afterwards every object of the
    array is tracked under the key, the objects tracked before keep their
    places in front of the new ones, no identity is tracked twice if none
    was, and other keys and the closed objects are untouched. *)
Theorem trackDisposables_all_tracked (key : string) (array : list RtObject) (st : RtState) :
  Forall (fun o => closable o = true) array ->
  exists st',
    trackDisposables key array st = (Fulfilled array, st') /\
    (exists added, tracked key st' = tracked key st ++ added /\
                   forall o, o ∈ added -> o ∈ array) /\
    (forall o, o ∈ array -> is_tracked key o st' = true) /\
    (NoDup (map oid (tracked key st)) -> NoDup (map oid (tracked key st'))) /\
    (forall key', key' <> key -> tracked key' st' = tracked key' st) /\
    closed st' = closed st.
Proof.
  intros Hall. unfold trackDisposables.
  enough (exists st',
             trackDisposables_loop key array st = (Fulfilled tt, st') /\
             (exists added, tracked key st' = tracked key st ++ added /\
                            forall o, o ∈ added -> o ∈ array) /\
             (forall o, o ∈ array -> is_tracked key o st' = true) /\
             (NoDup (map oid (tracked key st)) -> NoDup (map oid (tracked key st'))) /\
             (forall key', key' <> key -> tracked key' st' = tracked key' st) /\
             closed st' = closed st) as (st' & -> & H).
  { by exists st'. }
  revert st. induction Hall as [|o array Ho Hall IH]; intros st.
  - exists st. split; [done|]. split; [exists []; split; [by rewrite app_nil_r|done]|].
    split; [intros o Ho; by apply elem_of_nil in Ho|]. done.
  - destruct (trackDisposable_step key o st Ho) as (st1 & Heq & Htr & Hother & Hcl & _).
    destruct (IH st1) as (st2 & Hloop & (added & Hadd & Hsub) & Hin & Hnd & Hother2 & Hcl2).
    exists st2. cbn [trackDisposables_loop]. rewrite Heq. split; [exact Hloop|].
    assert (exists added1, tracked key st1 = tracked key st ++ added1 /\
                           (forall x, x ∈ added1 -> x = o) /\
                           is_tracked key o st1 = true /\
                           (NoDup (map oid (tracked key st)) ->
                            NoDup (map oid (tracked key st1)))) as (added1 & Hadd1 & Hsub1 & Ho1 & Hnd1).
    { destruct (is_tracked key o st) eqn:Hold; rewrite Htr.
      - exists []. rewrite app_nil_r. split; [done|].
        split; [intros x Hx; by apply elem_of_nil in Hx|].
        split; [|done]. unfold is_tracked in *. by rewrite Htr.
      - exists [o]. split; [done|].
        split; [intros x Hx; by apply list_elem_of_singleton in Hx|].
        split.
        + unfold is_tracked in *. rewrite Htr, existsb_app. cbn.
          unfold Object_is. by rewrite Nat.eqb_refl, !orb_true_r.
        + intros Hnd0. rewrite map_app. apply NoDup_app. split; [done|]. split.
          * intros x Hx. cbn. rewrite list_elem_of_singleton. intros ->.
            apply Object_is_existsb in Hx. unfold is_tracked in Hold. congruence.
          * cbn. apply NoDup_singleton. }
    split; [|split; [|split; [|split]]].
    + exists (added1 ++ added). rewrite Hadd, Hadd1, app_assoc. split; [done|].
      intros x [Hx|Hx]%elem_of_app; [rewrite (Hsub1 x Hx); left | right; by apply Hsub].
    + intros x [->|Hx]%elem_of_cons; [|by apply Hin].
      by eapply is_tracked_app.
    + intros Hnd0. apply Hnd, Hnd1, Hnd0.
    + intros key' Hne. rewrite Hother2, Hother by done. done.
    + congruence.
Qed.

Lemma trackDisposables_all_tracked_witness :
  exists st',
    trackDisposables "001122334455" [obj1; obj2; obj1] RtUtils.initial
    = (Fulfilled [obj1; obj2; obj1], st') /\
    tracked "001122334455" st' = [obj1; obj2].
Proof.
  assert (Forall (fun o => closable o = true) [obj1; obj2; obj1]) as Hall
    by (repeat constructor).
  destruct (trackDisposables_all_tracked "001122334455" [obj1; obj2; obj1]
              RtUtils.initial Hall) as (st' & Heq & _).
  exists st'. split; [exact Heq|].
  injection Heq as <-. reflexivity.
Defined.

Lemma trackDisposables_loop_unclosable (key : string) (pre post : list RtObject)
    (bad : RtObject) (st : RtState) :
  Forall (fun o => closable o = true) pre -> closable bad = false ->
  trackDisposables_loop key (pre ++ bad :: post) st
  = (Thrown (Error "Object does not have a close function."),
     snd (trackDisposables_loop key pre st)).
Proof.
  intros Hpre Hbad. revert st. induction Hpre as [|o pre Ho Hpre IH]; intros st.
  - cbn. by rewrite Hbad.
  - destruct (trackDisposable_step key o st Ho) as (st1 & Heq & _).
    cbn [app trackDisposables_loop]. rewrite Heq. apply IH.
Qed.

Lemma trackDisposables_loop_fulfilled (key : string) (array : list RtObject) (st : RtState) :
  Forall (fun o => closable o = true) array ->
  fst (trackDisposables_loop key array st) = Fulfilled tt.
Proof.
  intros Hall. revert st. induction Hall as [|o array Ho Hall IH]; intros st; [done|].
  destruct (trackDisposable_step key o st Ho) as (st1 & Heq & _).
  cbn [trackDisposables_loop]. rewrite Heq. apply IH.
Qed.

(** X3. At the first object without a close function [trackDisposables]
    throws.  The objects in front of it are tracked as if the array had
    ended there, and the objects behind it are not looked at. *)
Theorem trackDisposables_stops_at_unclosable (key : string) (pre post : list RtObject)
    (bad : RtObject) (st : RtState) :
  Forall (fun o => closable o = true) pre -> closable bad = false ->
  exists st1,
    trackDisposables key pre st = (Fulfilled pre, st1) /\
    trackDisposables key (pre ++ bad :: post) st
    = (Thrown (Error "Object does not have a close function."), st1) /\
    trackDisposable key (Some bad) st1
    = (Thrown (Error "Object does not have a close function."), st1).
Proof.
  intros Hpre Hbad.
  pose proof (trackDisposables_loop_fulfilled key pre st Hpre) as Hful.
  exists (snd (trackDisposables_loop key pre st)).
  unfold trackDisposables. rewrite trackDisposables_loop_unclosable by done.
  destruct (trackDisposables_loop key pre st) as [[e| [] |e] st2]; cbn [fst snd] in *;
    try discriminate Hful.
  split; [done|]. split; [done|].
  unfold trackDisposable. by rewrite Hbad.
Qed.

Lemma trackDisposables_stops_at_unclosable_witness :
  exists st1,
    trackDisposables "001122334455" [obj1; obj_unclosable; obj2] RtUtils.initial
    = (Thrown (Error "Object does not have a close function."), st1) /\
    tracked "001122334455" st1 = [obj1].
Proof.
  assert (Forall (fun o => closable o = true) [obj1]) as Hpre by (repeat constructor).
  destruct (trackDisposables_stops_at_unclosable "001122334455" [obj1] [obj2]
              obj_unclosable RtUtils.initial Hpre eq_refl) as (st1 & Hpre1 & Hthrow & _).
  exists st1. split; [exact Hthrow|].
  injection Hpre1 as <-. reflexivity.
Defined.

(** ** formatUuid applied twice *)

Lemma lower_char_idem (c : ascii) : lower_char (lower_char c) = lower_char c.
Proof. ascii_cases c; reflexivity. Qed.

Lemma lower_char_stripped (c : ascii) : hyphen_or_brace (lower_char c) = hyphen_or_brace c.
Proof. ascii_cases c; reflexivity. Qed.

Lemma lower_hex_fixed (c : ascii) : is_lower_hex c = true -> lower_char c = c.
Proof. ascii_cases c; simpl; intros H; try reflexivity; discriminate H. Qed.

Lemma lower_hex_stripped (c : ascii) : is_lower_hex c = true -> hyphen_or_brace c = false.
Proof. ascii_cases c; simpl; intros H; try reflexivity; discriminate H. Qed.

Lemma open_brace_only (c : ascii) : lower_char c = "{"%char -> hyphen_or_brace c = true.
Proof. ascii_cases c; simpl; intros H; try reflexivity; discriminate H. Qed.

Lemma toLowerCase_idem (s : string) : toLowerCase (toLowerCase s) = toLowerCase s.
Proof. induction s as [|c s IH]; simpl; [done | by rewrite IH, lower_char_idem]. Qed.

Lemma toLowerCase_stripped (s : string) : is_stripped (toLowerCase s) = is_stripped s.
Proof.
  unfold is_stripped. induction s as [|c s IH]; simpl; [done|].
  by rewrite IH, lower_char_stripped.
Qed.

Lemma remove_chars_stripped (s : string) : is_stripped (remove_chars hyphen_or_brace s) = true.
Proof.
  unfold is_stripped. induction s as [|c s IH]; simpl; [done|].
  destruct (hyphen_or_brace c) eqn:Hc; simpl; [done|]. by rewrite Hc, IH.
Qed.

Lemma remove_chars_id (s : string) :
  is_stripped s = true -> remove_chars hyphen_or_brace s = s.
Proof.
  unfold is_stripped. induction s as [|c s IH]; simpl; [done|].
  intros [Hc Hs]%andb_true_iff. apply negb_true_iff in Hc. by rewrite Hc, IH.
Qed.

(** The pattern starts with a brace: it matches nowhere in a string without
    braces. *)
Lemma regex_test_stripped (s : string) :
  is_stripped s = true -> regex_test_i base_uuid_regex s = false.
Proof.
  unfold is_stripped. induction s as [|c s IH]; [done|].
  cbn [string_forall regex_test_i]. intros [Hc Hs]%andb_true_iff.
  rewrite IH by done. rewrite orb_false_r.
  unfold base_uuid_regex. cbn [lits app match_here].
  destruct (atom_matches_i (Lit "{") c) eqn:Hm; [|done].
  apply lit_match_iff in Hm. apply open_brace_only in Hm.
  rewrite Hm in Hc. discriminate Hc.
Qed.

Lemma formatUuid_stripped_lower (t : string) :
  is_stripped t = true -> toLowerCase t = t -> formatUuid t = t.
Proof.
  intros Hs Hl. unfold formatUuid. destruct (truthy t); [|done]. cbn [negb].
  rewrite regex_test_stripped by done. by rewrite remove_chars_id.
Qed.

Lemma formatUuid_idem_no_match (s : string) :
  regex_test_i base_uuid_regex s = false -> formatUuid (formatUuid s) = formatUuid s.
Proof.
  intros Hno. unfold formatUuid at 2 3. destruct (truthy s) eqn:Ht; cbn [negb].
  - rewrite Hno. apply formatUuid_stripped_lower.
    + by rewrite toLowerCase_stripped, remove_chars_stripped.
    + apply toLowerCase_idem.
  - unfold formatUuid. by rewrite Ht.
Qed.

Lemma formatUuid_idem_base (s x : string) :
  is_base_uuid s x -> formatUuid (formatUuid s) = formatUuid s.
Proof.
  intros Hb. rewrite (formatUuid_base s x Hb). destruct Hb as (Hlen & Hhex & _).
  apply formatUuid_stripped_lower.
  - unfold is_stripped. clear Hlen. induction x as [|c x IH]; [done|].
    cbn [string_forall] in *. apply andb_true_iff in Hhex as [Hc Hx].
    by rewrite (lower_hex_stripped c Hc), IH.
  - clear Hlen. induction x as [|c x IH]; [done|].
    cbn [string_forall toLowerCase] in *. apply andb_true_iff in Hhex as [Hc Hx].
    by rewrite (lower_hex_fixed c Hc), IH.
Qed.

(** X4. [formatUuid] applied to its own result changes nothing, for every
    string in which the braced base pattern does not occur, for every
    string that spells the braced base UUID, and so for every UUID string
    with or without braces. *)
Theorem formatUuid_idempotent :
  (forall s, regex_test_i base_uuid_regex s = false ->
     formatUuid (formatUuid s) = formatUuid s) /\
  (forall s x, is_base_uuid s x -> formatUuid (formatUuid s) = formatUuid s) /\
  (forall a b c d e, uuid_groups a b c d e ->
     formatUuid (formatUuid (uuid_text a b c d e)) = formatUuid (uuid_text a b c d e) /\
     formatUuid (formatUuid (braced (uuid_text a b c d e)))
     = formatUuid (braced (uuid_text a b c d e))).
Proof.
  split; [exact formatUuid_idem_no_match|]. split; [exact formatUuid_idem_base|].
  intros a b c d e Hg. pose proof (uuid_text_length a b c d e Hg) as Hlen. split.
  - apply formatUuid_idem_no_match.
    apply regex_test_short. rewrite base_uuid_regex_length. lia.
  - assert (String.length (braced (uuid_text a b c d e)) = 38%nat) as Hlb.
    { unfold braced. rewrite !length_append, Hlen. reflexivity. }
    destruct (match_here base_uuid_regex (braced (uuid_text a b c d e))) eqn:Hm.
    + eapply formatUuid_idem_base. by apply match_here_base_inv.
    + apply formatUuid_idem_no_match. by rewrite regex_test_exact.
Qed.

Lemma formatUuid_idempotent_witness :
  formatUuid (formatUuid "{0000180D-0000-1000-8000-00805F9B34FB}") = "180d" /\
  formatUuid (formatUuid (braced (uuid_text "6E400001" "B5A3" "F393" "E0A9" "E50E24DCCA9E")))
  = "6e400001b5a3f393e0a9e50e24dcca9e" /\
  formatUuid (formatUuid "battery") = "battery".
Proof.
  destruct formatUuid_idempotent as (Hno & Hbase & Huuid).
  split; [|split].
  - rewrite (Hbase "{0000180D-0000-1000-8000-00805F9B34FB}" "180d"); [reflexivity|].
    repeat split; reflexivity.
  - assert (uuid_groups "6E400001" "B5A3" "F393" "E0A9" "E50E24DCCA9E") as Hg
      by (repeat split; reflexivity).
    rewrite (proj2 (Huuid _ _ _ _ _ Hg)). reflexivity.
  - rewrite (Hno "battery"); reflexivity.
Defined.

(** Where the pattern occurs behind other braces, a second application does
    change the result. *)
Lemma formatUuid_twice_differs :
  formatUuid "{{{{{{0000180D-0000-1000-8000-00805F9B34FB}" = "{000" /\
  formatUuid "{000" = "000".
Proof. split; reflexivity. Qed.

(** ** The device identifier *)

Lemma hex_digit_nibble (z : Z) :
  is_colon (hex_digit (z mod 16)) = false /\
  is_lower_hex (hex_digit (z mod 16)) = true /\
  hex_value (hex_digit (z mod 16)) = z mod 16.
Proof.
  pose proof (Z.mod_pos_bound z 16 ltac:(lia)) as Hb.
  generalize dependent (z mod 16). intros d Hd.
  nibble_cases d; repeat split; reflexivity.
Qed.

Lemma fixed_hex_append (k : nat) (n : Z) (acc : string) :
  fixed_hex k n acc = fixed_hex k n "" +:+ acc.
Proof.
  revert n acc. induction k as [|k IH]; intros n acc; cbn [fixed_hex]; [done|].
  rewrite (IH (n / 16) (String _ acc)), (IH (n / 16) (String _ "")).
  by rewrite append_assoc.
Qed.

Lemma fixed_hex_length (k : nat) (n : Z) : String.length (fixed_hex k n "") = k.
Proof.
  revert n. induction k as [|k IH]; intros n; cbn [fixed_hex]; [done|].
  rewrite fixed_hex_append, length_append, IH. simpl. lia.
Qed.

Lemma fixed_hex_lower_hex (k : nat) (n : Z) :
  string_forall is_lower_hex (fixed_hex k n "") = true.
Proof.
  revert n. induction k as [|k IH]; intros n; cbn [fixed_hex]; [done|].
  rewrite fixed_hex_append, string_forall_append, IH. cbn.
  by rewrite (proj1 (proj2 (hex_digit_nibble n))).
Qed.

Lemma fixed_hex_no_colon (k : nat) (n : Z) :
  remove_chars is_colon (fixed_hex k n "") = fixed_hex k n "".
Proof.
  revert n. induction k as [|k IH]; intros n; cbn [fixed_hex]; [done|].
  rewrite fixed_hex_append, remove_chars_append, IH. cbn.
  by rewrite (proj1 (hex_digit_nibble n)).
Qed.

Lemma hex_decode_append (s t : string) (acc : Z) :
  hex_decode (s +:+ t) acc = hex_decode t (hex_decode s acc).
Proof.
  revert acc. induction s as [|c s IH]; intros acc; [done|].
  rewrite append_cons. cbn [hex_decode]. apply IH.
Qed.

(** Reading the digits of [fixed_hex] back gives the number, up to the
    width. *)
Lemma hex_decode_fixed_hex (k : nat) (n : Z) :
  hex_decode (fixed_hex k n "") 0 = n mod 16 ^ Z.of_nat k.
Proof.
  revert n. induction k as [|k IH]; intros n; cbn [fixed_hex].
  - cbn. by rewrite Z.mod_1_r.
  - rewrite fixed_hex_append, hex_decode_append, IH. cbn [hex_decode].
    rewrite (proj2 (proj2 (hex_digit_nibble n))).
    rewrite Nat2Z.inj_succ, Z.pow_succ_r by lia.
    rewrite Z.rem_mul_r by lia. lia.
Qed.

Lemma remove_colon_digit (z : Z) (s : string) :
  remove_chars is_colon (String (hex_digit (z mod 16)) s)
  = String (hex_digit (z mod 16)) (remove_chars is_colon s).
Proof. cbn [remove_chars]. by rewrite (proj1 (hex_digit_nibble z)). Qed.

Lemma remove_colon_colon (s : string) :
  remove_chars is_colon (String ":" s) = remove_chars is_colon s.
Proof. reflexivity. Qed.

(** The identifier of a non-zero address is its twelve digits. *)
Lemma deviceUuid_of_fixed_hex (a : Z) :
  0 < a < 2 ^ 48 -> deviceUuid_of a = fixed_hex 12 a "".
Proof.
  intros Ha. unfold deviceUuid_of, formatBluetoothAddress.
  destruct (Z.eqb_spec a 0) as [->|_]; [lia|].
  rewrite pad_toString16 by lia.
  cbn [fixed_hex]. unfold substr. cbn [substring].
  rewrite !append_cons, !append_nil.
  repeat (rewrite remove_colon_digit || rewrite remove_colon_colon).
  reflexivity.
Qed.

(** X5. The identifier of a non-zero address below 2^48 is twelve lowercase
    hexadecimal digits that read back as the address; the address 0 gets the
    identifier "null".  Two addresses below 2^48 with the same identifier
    are the same address. *)
Theorem deviceUuid_of_decodes :
  (forall a, 0 < a < 2 ^ 48 ->
     String.length (deviceUuid_of a) = 12%nat /\
     string_forall is_lower_hex (deviceUuid_of a) = true /\
     hex_decode (deviceUuid_of a) 0 = a) /\
  deviceUuid_of 0 = "null" /\
  (forall a b, 0 <= a < 2 ^ 48 -> 0 <= b < 2 ^ 48 ->
     deviceUuid_of a = deviceUuid_of b -> a = b).
Proof.
  assert (forall a, 0 < a < 2 ^ 48 ->
            String.length (deviceUuid_of a) = 12%nat /\
            string_forall is_lower_hex (deviceUuid_of a) = true /\
            hex_decode (deviceUuid_of a) 0 = a) as Hshape.
  { intros a Ha. rewrite deviceUuid_of_fixed_hex by done.
    split; [apply fixed_hex_length|]. split; [apply fixed_hex_lower_hex|].
    rewrite hex_decode_fixed_hex. change (16 ^ Z.of_nat 12) with (2 ^ 48).
    apply Z.mod_small. lia. }
  split; [exact Hshape|]. split; [reflexivity|].
  intros a b Ha Hb Heq.
  destruct (Z.eq_dec a 0) as [->|Hna]; destruct (Z.eq_dec b 0) as [->|Hnb]; [done| | |].
  - destruct (Hshape b ltac:(lia)) as (_ & Hhex & _). rewrite <- Heq in Hhex. discriminate Hhex.
  - destruct (Hshape a ltac:(lia)) as (_ & Hhex & _). rewrite Heq in Hhex. discriminate Hhex.
  - destruct (Hshape a ltac:(lia)) as (_ & _ & <-).
    destruct (Hshape b ltac:(lia)) as (_ & _ & <-). by rewrite Heq.
Qed.

Lemma deviceUuid_of_decodes_witness :
  deviceUuid_of 0x0011223344AA = "0011223344aa" /\
  hex_decode "0011223344aa" 0 = 0x0011223344AA /\
  hex_decode (deviceUuid_of 0x0011223344AA) 0 = 0x0011223344AA /\
  (deviceUuid_of 0xC0FFEE000001 = deviceUuid_of 0xC0FFEE000001 ->
   0xC0FFEE000001 = 0xC0FFEE000001).
Proof.
  destruct deviceUuid_of_decodes as (Hshape & _ & Hinj).
  split; [reflexivity|]. split; [reflexivity|]. split.
  - apply (Hshape 0x0011223344AA). split; reflexivity.
  - apply (Hinj 0xC0FFEE000001 0xC0FFEE000001); split; (discriminate || reflexivity).
Defined.

(** ** The advertisement handler: records *)

Lemma merge_packet_same_connection (e : ReceivedEventArgs) (tx : option Z) (r : DeviceRecord) :
  same_connection r (merge_packet e tx r).
Proof.
  unfold merge_packet, same_connection, truthy_num.
  destruct (truthy (adv_localName (advertisement e)));
    destruct (adv_manufacturerData (advertisement e));
    destruct tx as [v|]; try destruct (v =? 0); repeat split.
Qed.

Lemma same_connection_refl (r : DeviceRecord) : same_connection r r.
Proof. by repeat split. Qed.

Lemma same_connection_trans (r1 r2 r3 : DeviceRecord) :
  same_connection r1 r2 -> same_connection r2 r3 -> same_connection r1 r3.
Proof. unfold same_connection. intuition congruence. Qed.

(** Two set bits at the top of a 48-bit number. *)
Lemma top_two_bits (a : Z) :
  0 <= a < 2 ^ 48 -> (3 * 2 ^ 46 <=? a) = Z.testbit a 47 && Z.testbit a 46.
Proof.
  intros Ha. rewrite !Z.testbit_odd, !Z.shiftr_div_pow2 by lia.
  change 47 with (46 + 1). rewrite Z.pow_add_r, <- Z.div_div by lia.
  change (2 ^ 1) with 2.
  assert (0 <= a / 2 ^ 46 < 4) as Hq.
  { split; [apply Z.div_pos; lia|]. apply Z.div_lt_upper_bound; lia. }
  assert (3 * 2 ^ 46 <= a <-> 3 <= a / 2 ^ 46) as Hiff.
  { split; intros H.
    - apply Z.div_le_lower_bound; lia.
    - pose proof (Z.mul_div_le a (2 ^ 46) ltac:(lia)). lia. }
  destruct (Z.leb_spec (3 * 2 ^ 46) a) as [Hle|Hlt].
  - assert (a / 2 ^ 46 = 3) as -> by lia. reflexivity.
  - assert (a / 2 ^ 46 = 0 \/ a / 2 ^ 46 = 1 \/ a / 2 ^ 46 = 2) as [-> | [-> | ->]] by lia;
      reflexivity.
Qed.

(** X6. The first packet of a device creates its record: the address, its
    text and the connectable flag come from the packet, the address type is
    random exactly when bits 47 and 46 of the address are both set, and the
    record has no connection handle and empty caches. *)
Theorem received_creates_record (P : Projection) (e : ReceivedEventArgs) (w : World) :
  tx_readable P e = true ->
  0 <= bluetoothAddress e < 2 ^ 48 ->
  _deviceMap w !! deviceUuid_of (bluetoothAddress e) = None ->
  exists r,
    _deviceMap (snd (_onAdvertisementWatcherReceived P e w))
      !! deviceUuid_of (bluetoothAddress e) = Some r /\
    address r = bluetoothAddress e /\
    formattedAddress r = formatBluetoothAddress (bluetoothAddress e) /\
    addressType r
    = (if Z.testbit (bluetoothAddress e) 47 && Z.testbit (bluetoothAddress e) 46
       then random else public) /\
    connectable r = connectable_of P (advertisementType e) /\
    device r = None /\ serviceMap r = ∅ /\ characteristicMap r = ∅ /\ descriptorMap r = ∅.
Proof.
  intros Hr Ha Hnone. rewrite received_deviceMap by done.
  eexists. split; [apply lookup_insert_eq|].
  unfold merged_record. rewrite Hnone.
  destruct (merge_packet_same_connection e (tx_of_packet P e)
              (new_record e (formatBluetoothAddress (bluetoothAddress e))
                 (if 3 * 2 ^ 46 <=? bluetoothAddress e then random else public)
                 (connectable_of P (advertisementType e))))
    as (H1 & H2 & H3 & H4 & H5 & H6 & H7 & H8).
  rewrite H1, H2, H3, H4, H5, H6, H7, H8. cbn. rewrite top_two_bits by done. done.
Qed.

Lemma received_creates_record_witness :
  exists r,
    _deviceMap after_adv !! "0011223344aa" = Some r /\
    addressType r = public /\ connectable r = Some true /\ device r = None.
Proof.
  destruct (received_creates_record uwp packet_adv new_NobleBindings eq_refl)
    as (r & Hr & _ & _ & Hty & Hconn & Hdev & _).
  - split; [discriminate | reflexivity].
  - reflexivity.
  - exists r. split; [exact Hr|]. split; [exact Hty|]. split; [exact Hconn | exact Hdev].
Defined.

Lemma received_same_connection (P : Projection) (e : ReceivedEventArgs) (w : World)
    (deviceUuid : string) (r : DeviceRecord) :
  _deviceMap w !! deviceUuid = Some r ->
  exists r',
    _deviceMap (snd (_onAdvertisementWatcherReceived P e w)) !! deviceUuid = Some r' /\
    same_connection r r'.
Proof.
  intros Hrec. destruct (tx_readable P e) eqn:Hr.
  - rewrite received_deviceMap by done.
    destruct (decide (deviceUuid_of (bluetoothAddress e) = deviceUuid)) as [<-|Hne].
    + eexists. split; [apply lookup_insert_eq|].
      unfold merged_record. rewrite Hrec. apply merge_packet_same_connection.
    + exists r. rewrite lookup_insert_ne by done. split; [done | apply same_connection_refl].
  - rewrite received_unreadable by done. exists r. split; [done | apply same_connection_refl].
Qed.

Lemma receive_all_same_connection_helper (P : Projection) (packets : list ReceivedEventArgs)
    (w : World) (deviceUuid : string) (r : DeviceRecord) :
  _deviceMap w !! deviceUuid = Some r ->
  exists r',
    _deviceMap (receive_all P packets w) !! deviceUuid = Some r' /\ same_connection r r'.
Proof.
  revert w r. induction packets as [|e packets IH]; intros w r Hrec.
  - exists r. split; [done | apply same_connection_refl].
  - cbn [receive_all].
    destruct (received_same_connection P e w deviceUuid r Hrec) as (r1 & Hr1 & Hs1).
    destruct (IH _ r1 Hr1) as (r2 & Hr2 & Hs2).
    exists r2. split; [done|]. by eapply same_connection_trans.
Qed.

(** X7. Advertisements never revise what a record says about the device and
    its connection: through any sequence of packets a known record keeps its
    address, address type and connectable flag (those of its first packet),
    its connection handle and its three caches. *)
Theorem receive_all_same_connection (P : Projection) (packets : list ReceivedEventArgs)
    (w : World) (deviceUuid : string) (r : DeviceRecord) :
  _deviceMap w !! deviceUuid = Some r ->
  exists r',
    _deviceMap (receive_all P packets w) !! deviceUuid = Some r' /\ same_connection r r'.
Proof. apply receive_all_same_connection_helper. Qed.

Lemma receive_all_same_connection_witness :
  exists r',
    _deviceMap (receive_all uwp [packet_rsp; packet_adv] connected) !! "0011223344aa"
    = Some r' /\
    device r' = Some device_obj /\ connectable r' = Some true.
Proof.
  assert (exists r, _deviceMap connected !! "0011223344aa" = Some r /\
                    device r = Some device_obj /\ connectable r = Some true)
    as (r & Hr & Hdev & Hconn) by (eexists; repeat split; reflexivity).
  destruct (receive_all_same_connection uwp [packet_rsp; packet_adv] connected
              "0011223344aa" r Hr) as (r' & Hr' & Hs).
  exists r'. split; [exact Hr'|].
  destruct Hs as (_ & _ & _ & Hc & Hd & _). rewrite Hc, Hd. split; assumption.
Defined.

Lemma received_frame (P : Projection) (e : ReceivedEventArgs) (w : World) :
  let w' := snd (_onAdvertisementWatcherReceived P e w) in
  _listenerMap w' = _listenerMap w /\ rt w' = rt w /\ calls w' = calls w /\
  (exists evs, emitted w' = emitted w ++ evs /\ forallb is_discover evs = true) /\
  (forall deviceUuid, deviceUuid_of (bluetoothAddress e) <> deviceUuid ->
     _deviceMap w' !! deviceUuid = _deviceMap w !! deviceUuid).
Proof.
  cbn zeta. destruct (tx_readable P e) eqn:Hr.
  - rewrite received_readable by done. cbn [snd].
    destruct (advertisementType e =? scanResponse (adv_enum P)); cbn.
    + repeat split; [by eexists (_ :: nil)|]. intros d Hne. by rewrite lookup_insert_ne.
    + repeat split; [exists []; by rewrite app_nil_r|].
      intros d Hne. by rewrite lookup_insert_ne.
  - rewrite received_unreadable by done. cbn [snd].
    repeat split. exists []. by rewrite app_nil_r.
Qed.

(** X8. Handling packets touches nothing but the records of the devices
    they come from and the list of emitted events: the subscriptions, the
    tracker, the transport calls and the records of all other devices stay
    as they were, and only 'discover' events are added. *)
Theorem receive_all_frame (P : Projection) (packets : list ReceivedEventArgs) (w : World) :
  let w' := receive_all P packets w in
  _listenerMap w' = _listenerMap w /\ rt w' = rt w /\ calls w' = calls w /\
  (exists evs, emitted w' = emitted w ++ evs /\ forallb is_discover evs = true) /\
  (forall deviceUuid,
     Forall (fun e => deviceUuid_of (bluetoothAddress e) <> deviceUuid) packets ->
     _deviceMap w' !! deviceUuid = _deviceMap w !! deviceUuid).
Proof.
  cbn zeta. revert w. induction packets as [|e packets IH]; intros w.
  - cbn. repeat split. exists []. by rewrite app_nil_r.
  - cbn [receive_all].
    destruct (received_frame P e w) as (Hl & Hrt & Hc & (evs1 & He1 & Hd1) & Hm).
    destruct (IH (snd (_onAdvertisementWatcherReceived P e w)))
      as (Hl2 & Hrt2 & Hc2 & (evs2 & He2 & Hd2) & Hm2).
    split; [congruence|]. split; [congruence|]. split; [congruence|]. split.
    + exists (evs1 ++ evs2). rewrite He2, He1, app_assoc. split; [done|].
      by rewrite forallb_app, Hd1, Hd2.
    + intros d Hall. apply Forall_cons in Hall as [Hne Hall].
      rewrite Hm2 by done. by apply Hm.
Qed.

Lemma receive_all_frame_witness :
  _deviceMap (receive_all uwp [packet_adv; packet_rsp] subscribed) !! "c0ffee000001"
  = _deviceMap subscribed !! "c0ffee000001" /\
  _listenerMap (receive_all uwp [packet_adv; packet_rsp] subscribed) = _listenerMap subscribed.
Proof.
  destruct (receive_all_frame uwp [packet_adv; packet_rsp] subscribed)
    as (Hl & _ & _ & _ & Hm).
  split; [|exact Hl]. apply Hm. repeat constructor; discriminate.
Defined.

(** X9. Reading the TX power level of a packet whose bytes are in 0..255
    gives nothing when no section has the TX power type, throws when the
    first such section is empty, and otherwise gives the first byte of the
    first such section as a signed 8-bit number.  The world is not
    touched. *)
Theorem read_txPowerLevel_signed (P : Projection) (dataSections : list DataSection)
    (w : World) :
  Forall (fun ds => Forall (fun b => 0 <= b < 256) (ds_data ds)) dataSections ->
  match tx_section P dataSections with
  | None => read_txPowerLevel P dataSections w = (Fulfilled None, w)
  | Some sec =>
      match ds_data sec with
      | [] => read_txPowerLevel P dataSections w = (Thrown (NativeError 0), w)
      | b :: _ =>
          exists v,
            read_txPowerLevel P dataSections w = (Fulfilled (Some v), w) /\
            -128 <= v < 128 /\ v mod 256 = b
      end
  end.
Proof.
  intros Hbytes. unfold tx_section, read_txPowerLevel.
  destruct (List.find _ dataSections) as [sec|] eqn:Hfind; [|done].
  apply List.find_some in Hfind as [Hin _].
  rewrite Forall_forall in Hbytes. apply list_elem_of_In in Hin.
  specialize (Hbytes sec Hin).
  destruct (ds_data sec) as [|b rest]; [done|].
  apply Forall_cons in Hbytes as [Hb _].
  eexists. split; [reflexivity|].
  destruct (Z.leb_spec 128 b).
  - split; [lia|]. rewrite <- (Z.mod_small b 256) at 2 by lia.
    replace (b - 256) with (b + (-1) * 256) by lia. apply Z.mod_add. lia.
  - split; [lia|]. apply Z.mod_small. lia.
Qed.

Lemma read_txPowerLevel_signed_witness :
  exists v,
    read_txPowerLevel uwp
      [{| ds_dataType := 1; ds_data := [6] |}; {| ds_dataType := 10; ds_data := [0xF4] |};
       {| ds_dataType := 10; ds_data := [7] |}] new_NobleBindings
    = (Fulfilled (Some v), new_NobleBindings) /\
    -128 <= v < 128 /\ v mod 256 = 0xF4.
Proof.
  apply (read_txPowerLevel_signed uwp
    [{| ds_dataType := 1; ds_data := [6] |}; {| ds_dataType := 10; ds_data := [0xF4] |};
     {| ds_dataType := 10; ds_data := [7] |}] new_NobleBindings).
  repeat constructor; lia.
Defined.

Lemma merge_packet_manufacturerData (e : ReceivedEventArgs) (tx : option Z) (r : DeviceRecord) :
  manufacturerData (merge_packet e tx r)
  = match adv_manufacturerData (advertisement e) with
    | [] => manufacturerData r
    | m :: _ => Some (with_companyId m)
    end.
Proof.
  unfold merge_packet, truthy_num.
  destruct (truthy (adv_localName (advertisement e)));
    destruct (adv_manufacturerData (advertisement e));
    destruct tx as [v|]; try destruct (v =? 0); reflexivity.
Qed.

(** X10. After a packet, the stored name is the packet's local name when
    that is not empty and the name stored before otherwise.  The stored
    manufacturer data is kept when the packet has no manufacturer section;
    otherwise it is replaced by the data of the packet's first manufacturer
    section behind two bytes that hold its 16-bit company identifier, low
    byte first. *)
Theorem received_merges_name_and_manufacturer (P : Projection) (e : ReceivedEventArgs)
    (w : World) :
  tx_readable P e = true ->
  let deviceUuid := deviceUuid_of (bluetoothAddress e) in
  let w' := snd (_onAdvertisementWatcherReceived P e w) in
  name_at deviceUuid w'
  = (if truthy (adv_localName (advertisement e))
     then Some (adv_localName (advertisement e)) else name_at deviceUuid w) /\
  match adv_manufacturerData (advertisement e) with
  | [] => manufacturerData_at deviceUuid w' = manufacturerData_at deviceUuid w
  | m :: _ =>
      exists lo hi,
        manufacturerData_at deviceUuid w' = Some (lo :: hi :: md_data m) /\
        0 <= lo < 256 /\ 0 <= hi < 256 /\
        (0 <= companyId m < 65536 -> lo + 256 * hi = companyId m)
  end.
Proof.
  intros Hr. cbn zeta. unfold name_at, manufacturerData_at.
  rewrite received_deviceMap by done. rewrite lookup_insert_eq. cbn [mbind option_bind].
  unfold merged_record. rewrite merge_packet_name, merge_packet_manufacturerData.
  split.
  - by destruct (_deviceMap w !! deviceUuid_of (bluetoothAddress e)).
  - destruct (adv_manufacturerData (advertisement e)) as [|m rest].
    + by destruct (_deviceMap w !! deviceUuid_of (bluetoothAddress e)).
    + exists (companyId m mod 256), ((companyId m / 256) mod 256).
      split; [reflexivity|].
      split; [apply Z.mod_pos_bound; lia|]. split; [apply Z.mod_pos_bound; lia|].
      intros Hid. rewrite (Z.mod_small (companyId m / 256)).
      * pose proof (Z.div_mod (companyId m) 256 ltac:(lia)). lia.
      * split; [apply Z.div_pos; lia | apply Z.div_lt_upper_bound; lia].
Qed.

Lemma received_merges_name_and_manufacturer_witness :
  name_at "0011223344aa" (snd (_onAdvertisementWatcherReceived uwp packet_rsp after_adv))
  = Some "sensor" /\
  exists lo hi,
    manufacturerData_at "0011223344aa"
      (snd (_onAdvertisementWatcherReceived uwp packet_rsp after_adv))
    = Some [lo; hi; 2; 21] /\
    lo + 256 * hi = 76.
Proof.
  destruct (received_merges_name_and_manufacturer uwp packet_rsp after_adv eq_refl)
    as (Hname & lo & hi & Hmd & _ & _ & Hid).
  split; [exact Hname|]. exists lo, hi. split; [exact Hmd|].
  apply Hid. cbn. lia.
Defined.

(** ** connect *)

Lemma connect_unconnectable (T : Transport) (deviceUuid : string) (r : DeviceRecord)
    (w : World) :
  _deviceMap w !! deviceUuid = Some r -> connectable r <> Some true ->
  connect T deviceUuid w
  = (Thrown (Error ("Device is not connectable: " +:+ formattedAddress r)), w).
Proof.
  intros Hrec Hc. unfold connect. rewrite Hrec.
  destruct (connectable r) as [[|]|]; done.
Qed.

(** X11. A device whose first packet was not of a connectable type can
    never be connected: whatever packets follow, [connect] throws, makes no
    transport call and changes nothing.  So does [connect] for an unknown
    identifier. *)
Theorem connect_refused (P : Projection) (T : Transport) (e : ReceivedEventArgs)
    (packets : list ReceivedEventArgs) (w : World) :
  let deviceUuid := deviceUuid_of (bluetoothAddress e) in
  let w' := receive_all P (e :: packets) w in
  (_deviceMap w !! deviceUuid = None ->
   connect T deviceUuid w
   = (Thrown (Error ("Invalid or unknown device UUID: " +:+ deviceUuid)), w)) /\
  (_deviceMap w !! deviceUuid = None ->
   tx_readable P e = true ->
   connectable_of P (advertisementType e) <> Some true ->
   connect T deviceUuid w'
   = (Thrown (Error ("Device is not connectable: " +:+
                     formatBluetoothAddress (bluetoothAddress e))), w')).
Proof.
  cbn zeta. split.
  - intros Hnone. unfold connect. by rewrite Hnone.
  - intros Hnone Hr Hc. cbn [receive_all].
    assert (exists r1, _deviceMap (snd (_onAdvertisementWatcherReceived P e w))
                         !! deviceUuid_of (bluetoothAddress e) = Some r1 /\
                       connectable r1 = connectable_of P (advertisementType e) /\
                       formattedAddress r1 = formatBluetoothAddress (bluetoothAddress e))
      as (r1 & Hr1 & Hc1 & Hf1).
    { rewrite received_deviceMap by done. eexists. split; [apply lookup_insert_eq|].
      unfold merged_record. rewrite Hnone.
      destruct (merge_packet_same_connection e (tx_of_packet P e)
                  (new_record e (formatBluetoothAddress (bluetoothAddress e))
                     (if 3 * 2 ^ 46 <=? bluetoothAddress e then random else public)
                     (connectable_of P (advertisementType e))))
        as (_ & H2 & _ & H4 & _).
      by rewrite H2, H4. }
    destruct (receive_all_same_connection_helper P packets _ _ r1 Hr1)
      as (r2 & Hr2 & (_ & Hf2 & _ & Hc2 & _)).
    rewrite (connect_unconnectable T _ r2 _ Hr2) by congruence.
    by rewrite Hf2, Hf1.
Qed.

Lemma connect_refused_witness :
  connect peripheral "0011223344aa"
    (receive_all uwp [packet_rsp; packet_adv] new_NobleBindings)
  = (Thrown (Error "Device is not connectable: 00:11:22:33:44:aa"),
     receive_all uwp [packet_rsp; packet_adv] new_NobleBindings).
Proof.
  apply (proj2 (connect_refused uwp peripheral packet_rsp [packet_adv] new_NobleBindings));
    [reflexivity | reflexivity | discriminate].
Defined.

(** [connect] for a connectable record, by what the platform answers. *)
Lemma connect_outcome (T : Transport) (deviceUuid : string) (r : DeviceRecord) (w : World) :
  _deviceMap w !! deviceUuid = Some r -> connectable r = Some true ->
  connect T deviceUuid w
  = let w1 := add_call (FromBluetoothAddress (address r)) w in
    match fromBluetoothAddressAsync T (calls w) (address r) with
    | inl err => (Fulfilled tt, add_emitted (ev_connect deviceUuid (Some err)) w1)
    | inr None =>
        (Fulfilled tt, add_emitted (ev_connect deviceUuid (Some (TypeError "name"))) w1)
    | inr (Some dev) =>
        match trackDisposable deviceUuid (Some dev) (rt w) with
        | (Fulfilled tracked_dev, st) =>
            (Fulfilled tt,
             add_emitted (ev_connect deviceUuid None)
               (set_deviceMap (alter (set_device tracked_dev) deviceUuid (_deviceMap w))
                  (set_rt st w1)))
        | (Thrown e, st) | (Rejected e, st) =>
            (Fulfilled tt, add_emitted (ev_connect deviceUuid (Some e)) (set_rt st w1))
        end
    end.
Proof.
  intros Hrec Hc. unfold connect. rewrite Hrec, Hc.
  unfold catch_, then_, promisify. cbn zeta.
  destruct (fromBluetoothAddressAsync T (calls w) (address r)) as [err|[dev|]];
    [done| |done].
  cbn [rt add_call].
  by destruct (trackDisposable deviceUuid (Some dev) (rt w)) as [[e|tracked_dev|e] st].
Qed.

(** X12. When the platform hands out a device object with a close function,
    [connect] stores it as the connection handle of the record, tracks it
    for the identifier, and emits one 'connect' event without an error.  It
    makes one transport call, for the address of the record, and leaves the
    rest of the record, the other records and the subscriptions alone. *)
Theorem connect_attaches (T : Transport) (deviceUuid : string) (r : DeviceRecord)
    (dev : RtObject) (w : World) :
  _deviceMap w !! deviceUuid = Some r -> connectable r = Some true ->
  fromBluetoothAddressAsync T (calls w) (address r) = inr (Some dev) ->
  closable dev = true ->
  exists w',
    connect T deviceUuid w = (Fulfilled tt, w') /\
    _deviceMap w' = <[deviceUuid := set_device (Some dev) r]> (_deviceMap w) /\
    is_tracked deviceUuid dev (rt w') = true /\
    emitted w' = emitted w ++ [ev_connect deviceUuid None] /\
    calls w' = calls w ++ [FromBluetoothAddress (address r)] /\
    _listenerMap w' = _listenerMap w /\
    closed (rt w') = closed (rt w).
Proof.
  intros Hrec Hc Hans Hclos.
  rewrite (connect_outcome T deviceUuid r w Hrec Hc), Hans. cbn zeta.
  destruct (trackDisposable_step deviceUuid dev (rt w) Hclos)
    as (st & Heq & Htr & _ & Hcl & _).
  rewrite Heq. eexists. split; [reflexivity|]. cbn.
  split; [|split; [|done]].
  - apply map_eq. intros k. rewrite lookup_alter, lookup_insert.
    destruct (decide (deviceUuid = k)) as [<-|]; [by rewrite Hrec | done].
  - unfold is_tracked in *. rewrite Htr.
    destruct (existsb (Object_is dev) (tracked deviceUuid (rt w))) eqn:Hold; [done|].
    rewrite existsb_app, Hold. cbn. unfold Object_is. by rewrite Nat.eqb_refl.
Qed.

Lemma connect_attaches_witness :
  exists w',
    connect peripheral "0011223344aa" after_adv = (Fulfilled tt, w') /\
    device_at "0011223344aa" w' = Some device_obj /\
    emitted w' = [ev_connect "0011223344aa" None].
Proof.
  assert (exists r, _deviceMap after_adv !! "0011223344aa" = Some r /\
                    connectable r = Some true) as (r & Hr & Hc)
    by (eexists; split; reflexivity).
  destruct (connect_attaches peripheral "0011223344aa" r device_obj after_adv Hr Hc
              eq_refl eq_refl) as (w' & Heq & Hmap & _ & Hem & _).
  exists w'. split; [exact Heq|]. split; [|exact Hem].
  unfold device_at. rewrite Hmap, lookup_insert_eq. reflexivity.
Defined.

(** X13. When the platform reports an error, hands out an object without
    a close function, or finds no device object (null), [connect] emits one
    'connect' event that carries an error, and every record and the tracker
    stay as they were, without a handle attached.  The error is the one the
    platform reported, the one [trackDisposable] throws, and for null the
    TypeError of reading [device.name]. *)
Theorem connect_without_handle (T : Transport) (deviceUuid : string) (r : DeviceRecord)
    (w : World) :
  _deviceMap w !! deviceUuid = Some r -> connectable r = Some true ->
  (forall err,
     fromBluetoothAddressAsync T (calls w) (address r) = inl err ->
     exists w',
       connect T deviceUuid w = (Fulfilled tt, w') /\
       _deviceMap w' = _deviceMap w /\ rt w' = rt w /\
       emitted w' = emitted w ++ [ev_connect deviceUuid (Some err)]) /\
  (forall dev,
     fromBluetoothAddressAsync T (calls w) (address r) = inr (Some dev) ->
     closable dev = false ->
     exists w',
       connect T deviceUuid w = (Fulfilled tt, w') /\
       _deviceMap w' = _deviceMap w /\ rt w' = rt w /\
       emitted w'
       = emitted w ++
         [ev_connect deviceUuid (Some (Error "Object does not have a close function."))]) /\
  (fromBluetoothAddressAsync T (calls w) (address r) = inr None ->
   exists w',
     connect T deviceUuid w = (Fulfilled tt, w') /\
     _deviceMap w' = _deviceMap w /\ rt w' = rt w /\
     emitted w' = emitted w ++ [ev_connect deviceUuid (Some (TypeError "name"))]).
Proof.
  intros Hrec Hc. rewrite (connect_outcome T deviceUuid r w Hrec Hc). cbn zeta.
  split; [|split].
  - intros err ->. eexists. split; [reflexivity|]. done.
  - intros dev -> Hclos. unfold trackDisposable. rewrite Hclos. cbn.
    eexists. split; [reflexivity|]. cbn. by destruct (rt w).
  - intros ->. eexists. split; [reflexivity|]. done.
Qed.

Lemma connect_without_handle_witness :
  (exists w',
     connect peripheral_failing "0011223344aa" after_adv = (Fulfilled tt, w') /\
     _deviceMap w' = _deviceMap after_adv /\
     emitted w' = [ev_connect "0011223344aa" (Some (NativeError 5))]) /\
  (exists w',
     connect peripheral_unclosable "0011223344aa" after_adv = (Fulfilled tt, w') /\
     _deviceMap w' = _deviceMap after_adv /\
     emitted w'
     = [ev_connect "0011223344aa" (Some (Error "Object does not have a close function."))]) /\
  (exists w',
     connect peripheral_absent "0011223344aa" after_adv = (Fulfilled tt, w') /\
     _deviceMap w' = _deviceMap after_adv /\
     emitted w' = [ev_connect "0011223344aa" (Some (TypeError "name"))]).
Proof.
  assert (exists r, _deviceMap after_adv !! "0011223344aa" = Some r /\
                    connectable r = Some true) as (r & Hr & Hc)
    by (eexists; split; reflexivity).
  split; [|split].
  - destruct (connect_without_handle peripheral_failing "0011223344aa" r after_adv Hr Hc)
      as (Herr & _ & _).
    destruct (Herr (NativeError 5) eq_refl) as (w' & Heq & Hmap & _ & Hem).
    exists w'. repeat split; assumption.
  - destruct (connect_without_handle peripheral_unclosable "0011223344aa" r after_adv Hr Hc)
      as (_ & Hbad & _).
    destruct (Hbad obj_unclosable eq_refl eq_refl) as (w' & Heq & Hmap & _ & Hem).
    exists w'. repeat split; assumption.
  - destruct (connect_without_handle peripheral_absent "0011223344aa" r after_adv Hr Hc)
      as (_ & _ & Hnull).
    destruct (Hnull eq_refl) as (w' & Heq & Hdev & _ & Hem).
    exists w'. repeat split; assumption.
Defined.

(** ** disconnect *)

Lemma alter_known {A} (f : A -> A) (k : string) (m : gmap string A) (x : A) :
  m !! k = Some x -> alter f k m = <[k := f x]> m.
Proof.
  intros Hk. apply map_eq. intros j. rewrite lookup_alter, lookup_insert.
  destruct (decide (k = j)) as [<-|]; [by rewrite Hk | done].
Qed.

Lemma disconnect_connected (deviceUuid : string) (r : DeviceRecord) (dev : RtObject)
    (w : World) :
  _deviceMap w !! deviceUuid = Some r -> device r = Some dev ->
  disconnect deviceUuid w
  = (Fulfilled tt,
     add_emitted (ev_disconnect deviceUuid)
       (set_rt (disposeAll deviceUuid (rt w))
          (set_deviceMap (<[deviceUuid := drop_connection r]> (_deviceMap w)) w))).
Proof.
  intros Hrec Hdev. unfold disconnect. rewrite Hrec, Hdev.
  unfold update_record, modify, emit, bind. cbn.
  by rewrite (alter_known _ _ _ _ Hrec).
Qed.

Lemma disconnect_unconnected (deviceUuid : string) (r : DeviceRecord) (w : World) :
  _deviceMap w !! deviceUuid = Some r -> device r = None ->
  disconnect deviceUuid w = (Fulfilled tt, w).
Proof. intros Hrec Hdev. unfold disconnect. by rewrite Hrec, Hdev. Qed.

(** X14. [disconnect] of a connected device removes the handle and empties
    the three caches of its record, keeps what the advertisements told about
    the device, closes the objects tracked for the identifier in the order
    tracked, and emits one 'disconnect' event.  It makes no transport call
    and leaves the other records and the subscription entries as they
    were. *)
Theorem disconnect_clears (deviceUuid : string) (r : DeviceRecord) (dev : RtObject)
    (w : World) :
  _deviceMap w !! deviceUuid = Some r -> device r = Some dev ->
  exists w' r',
    disconnect deviceUuid w = (Fulfilled tt, w') /\
    _deviceMap w' !! deviceUuid = Some r' /\
    device r' = None /\ serviceMap r' = ∅ /\ characteristicMap r' = ∅ /\
    descriptorMap r' = ∅ /\
    name r' = name r /\ connectable r' = connectable r /\
    serviceUuids r' = serviceUuids r /\ txPowerLevel r' = txPowerLevel r /\
    closed (rt w') = closed (rt w) ++ tracked deviceUuid (rt w) /\
    emitted w' = emitted w ++ [ev_disconnect deviceUuid] /\
    calls w' = calls w /\ _listenerMap w' = _listenerMap w /\
    (forall other, other <> deviceUuid -> _deviceMap w' !! other = _deviceMap w !! other).
Proof.
  intros Hrec Hdev. rewrite (disconnect_connected deviceUuid r dev w Hrec Hdev).
  eexists _, (drop_connection r). split; [reflexivity|]. cbn.
  rewrite lookup_insert_eq. repeat split.
  - apply disposeAll_closed.
  - intros other Hne. by rewrite lookup_insert_ne.
Qed.

Lemma disconnect_clears_witness :
  exists w' r',
    disconnect "0011223344aa" subscribed = (Fulfilled tt, w') /\
    _deviceMap w' !! "0011223344aa" = Some r' /\
    device r' = None /\ serviceMap r' = ∅ /\ characteristicMap r' = ∅ /\
    closed (rt w') = [device_obj; svc_object svc_hr] /\
    is_Some (_listenerMap w' !! "0011223344aa/180d/2a37").
Proof.
  assert (exists r, _deviceMap subscribed !! "0011223344aa" = Some r /\
                    device r = Some device_obj) as (r & Hr & Hd)
    by (eexists; split; reflexivity).
  destruct (disconnect_clears "0011223344aa" r device_obj subscribed Hr Hd)
    as (w' & r' & Heq & Hr' & Hdev & Hsm & Hcm & _ & _ & _ & _ & _ & Hcl & _ & _ & Hl & _).
  exists w', r'. split; [exact Heq|]. split; [exact Hr'|]. split; [exact Hdev|].
  split; [exact Hsm|]. split; [exact Hcm|]. split; [rewrite Hcl; reflexivity|].
  rewrite Hl. eexists. reflexivity.
Defined.

(** Identifiers and formatted UUIDs are made of lowercase hexadecimal
    digits: they never name a member of [Object.prototype]. *)
Lemma lower_hex_not_inherited (key : string) :
  string_forall is_lower_hex key = true -> inherited key = false.
Proof.
  intros Hhex. destruct (inherited key) eqn:Hin; [|done].
  unfold inherited in Hin. apply existsb_exists in Hin as (name & Hname & Heq).
  apply String.eqb_eq in Heq. subst name.
  unfold Object_prototype_names in Hname. cbn [In] in Hname.
  repeat (destruct Hname as [<-|Hname]; [vm_compute in Hhex; discriminate Hhex|]).
  destruct Hname.
Qed.

(** X15. [disconnect] of a known device that is not connected changes
    nothing and emits nothing; so a second [disconnect] in a row is a no-op.
    For an identifier without a record that does not name a member of
    [Object.prototype] it throws. *)
Theorem disconnect_idempotent (deviceUuid : string) (w : World) :
  (forall r, _deviceMap w !! deviceUuid = Some r -> device r = None ->
     disconnect deviceUuid w = (Fulfilled tt, w)) /\
  (is_Some (_deviceMap w !! deviceUuid) ->
   disconnect deviceUuid (snd (disconnect deviceUuid w))
   = (Fulfilled tt, snd (disconnect deviceUuid w))) /\
  (_deviceMap w !! deviceUuid = None -> inherited deviceUuid = false ->
   disconnect deviceUuid w
   = (Thrown (Error ("Invalid or unknown device UUID: " +:+ deviceUuid)), w)).
Proof.
  split; [intros r; apply disconnect_unconnected|]. split.
  - intros [r Hrec]. destruct (device r) as [dev|] eqn:Hdev.
    + rewrite (disconnect_connected deviceUuid r dev w Hrec Hdev). cbn [snd].
      apply (disconnect_unconnected deviceUuid (drop_connection r)); [|done].
      cbn. apply lookup_insert_eq.
    + rewrite (disconnect_unconnected deviceUuid r w Hrec Hdev). cbn [snd].
      by apply (disconnect_unconnected deviceUuid r).
  - intros Hnone _. unfold disconnect. by rewrite Hnone.
Qed.

Lemma disconnect_idempotent_witness :
  disconnect "0011223344aa" after_adv = (Fulfilled tt, after_adv) /\
  disconnect "0011223344aa" disconnected = (Fulfilled tt, disconnected) /\
  fst (disconnect "c0ffee000001" connected)
  = Thrown (Error "Invalid or unknown device UUID: c0ffee000001").
Proof.
  split; [|split].
  - assert (exists r, _deviceMap after_adv !! "0011223344aa" = Some r /\ device r = None)
      as (r & Hr & Hd) by (eexists; split; reflexivity).
    exact (proj1 (disconnect_idempotent "0011223344aa" after_adv) r Hr Hd).
  - apply (proj1 (proj2 (disconnect_idempotent "0011223344aa" subscribed))).
    eexists. reflexivity.
  - rewrite (proj2 (proj2 (disconnect_idempotent "c0ffee000001" connected))
               eq_refl (lower_hex_not_inherited "c0ffee000001" eq_refl)).
    reflexivity.
Defined.

(** X16. In the state that [disconnect] leaves nothing is served from a
    cache: for every service UUID that does not name a member of
    [Object.prototype], and every characteristic and descriptor UUID, the
    three resolvers throw 'Device is not connected' at once, without a
    transport call. *)
Theorem resolvers_after_disconnect (P : Projection) (T : Transport)
    (deviceUuid : string) (r : DeviceRecord) (dev : RtObject) (w : World) :
  _deviceMap w !! deviceUuid = Some r -> device r = Some dev ->
  let w' := snd (disconnect deviceUuid w) in
  let not_connected := Error ("Device is not connected. UUID: " +:+ deviceUuid) in
  forall serviceUuid characteristicUuid descriptorUuid,
    inherited serviceUuid = false ->
    _getCachedServiceAsync P T deviceUuid serviceUuid w' = (Thrown not_connected, w') /\
    _getCachedCharacteristicAsync P T deviceUuid serviceUuid characteristicUuid w'
    = (Thrown not_connected, w') /\
    _getCachedDescriptorAsync P T deviceUuid serviceUuid characteristicUuid descriptorUuid w'
    = (Thrown not_connected, w').
Proof.
  intros Hrec Hdev. cbn zeta. intros su cu dsu _.
  rewrite (disconnect_connected deviceUuid r dev w Hrec Hdev). cbn [snd].
  set (w' := add_emitted _ _).
  assert (_deviceMap w' !! deviceUuid = Some (drop_connection r)) as Hrec'
    by (cbn; apply lookup_insert_eq).
  assert (_getCachedServiceAsync P T deviceUuid su w'
          = (Thrown (Error ("Device is not connected. UUID: " +:+ deviceUuid)), w')) as Hs.
  { unfold _getCachedServiceAsync. rewrite Hrec'. cbn [serviceMap drop_connection device].
    by rewrite lookup_empty. }
  assert (_getCachedCharacteristicAsync P T deviceUuid su cu w'
          = (Thrown (Error ("Device is not connected. UUID: " +:+ deviceUuid)), w')) as Hc.
  { unfold _getCachedCharacteristicAsync. rewrite Hrec'.
    cbn [characteristicMap drop_connection]. rewrite lookup_empty.
    unfold then_ at 1. by rewrite Hs. }
  split; [exact Hs|]. split; [exact Hc|].
  unfold _getCachedDescriptorAsync. rewrite Hrec'.
  cbn [descriptorMap drop_connection]. rewrite lookup_empty.
  unfold then_ at 1. by rewrite Hc.
Qed.

Lemma resolvers_after_disconnect_witness :
  fst (_getCachedCharacteristicAsync uwp peripheral "0011223344aa" "180d" "2a37" subscribed)
  = Fulfilled chr_measurement /\
  _getCachedCharacteristicAsync uwp peripheral "0011223344aa" "180d" "2a37" disconnected
  = (Thrown (Error "Device is not connected. UUID: 0011223344aa"), disconnected).
Proof.
  split; [reflexivity|].
  assert (exists r, _deviceMap subscribed !! "0011223344aa" = Some r /\
                    device r = Some device_obj) as (r & Hr & Hd)
    by (eexists; split; reflexivity).
  apply (resolvers_after_disconnect uwp peripheral "0011223344aa" r device_obj subscribed
           Hr Hd "180d" "2a37" "2902" (lower_hex_not_inherited "180d" eq_refl)).
Defined.

(** ** The resolvers and their caches *)

(** The resolution of a service that is not cached, by what the platform
    answers. *)
Lemma getCachedService_outcome (P : Projection) (T : Transport)
    (deviceUuid serviceUuid : string) (r : DeviceRecord) (dev : RtObject) (w : World) :
  _deviceMap w !! deviceUuid = Some r ->
  serviceMap r !! serviceUuid = None ->
  device r = Some dev ->
  _getCachedServiceAsync P T deviceUuid serviceUuid w
  = let w1 := add_call (GetGattServices dev cached) w in
    match getGattServicesAsync T (calls w) dev cached with
    | inl err => (Rejected err, w1)
    | inr result =>
        match write_failure P deviceUuid (inr (status result)) with
        | Some e => (Rejected e, w1)
        | None =>
            match trackDisposables deviceUuid (map svc_object (items result)) (rt w) with
            | (Fulfilled _, st) =>
                match List.find (fun s => String.eqb (formatUuid (svc_uuid s)) serviceUuid)
                        (items result) with
                | None =>
                    (Rejected (Error ("Service " +:+ serviceUuid +:+
                                      " not found for device " +:+ deviceUuid)),
                     set_rt st w1)
                | Some service =>
                    (Fulfilled service,
                     set_deviceMap
                       (<[deviceUuid := set_serviceMap (<[serviceUuid := service]> (serviceMap r)) r]>
                          (_deviceMap w))
                       (set_rt st w1))
                end
            | (Thrown e, st) | (Rejected e, st) => (Rejected e, set_rt st w1)
            end
        end
    end.
Proof.
  intros Hrec Hkey Hdev. unfold _getCachedServiceAsync. rewrite Hrec, Hkey, Hdev.
  unfold then_, promisify. cbn zeta.
  destruct (getGattServicesAsync T (calls w) dev cached) as [err|result]; [done|].
  unfold bind at 1. rewrite checkCommunicationResult_write_failure.
  destruct (write_failure P deviceUuid (inr (status result))) as [e|]; [done|].
  unfold bind at 1, trackDisposablesA. cbn [rt add_call].
  destruct (trackDisposables deviceUuid (map svc_object (items result)) (rt w))
    as [[e|tracked_items|e] st]; [done| |done].
  destruct (List.find _ (items result)) as [service|]; [|done].
  unfold update_record, modify, ret, bind. cbn.
  by rewrite (alter_known _ _ _ _ Hrec).
Qed.

(** X17. A service that was resolved is served from the cache afterwards:
    resolving it again at once gives the same service, makes no transport
    call and changes nothing.  The first resolution made at most one
    transport call, a query in cached mode. *)
Theorem getCachedService_round_trip (P : Projection) (T : Transport)
    (deviceUuid serviceUuid : string) (service : Service) (w w1 : World) :
  _getCachedServiceAsync P T deviceUuid serviceUuid w = (Fulfilled service, w1) ->
  _getCachedServiceAsync P T deviceUuid serviceUuid w1 = (Fulfilled service, w1) /\
  service_cache w1 deviceUuid serviceUuid = Some service /\
  (w1 = w \/ exists dev, calls w1 = calls w ++ [GetGattServices dev cached]).
Proof.
  intros Hres.
  assert (service_cache w1 deviceUuid serviceUuid = Some service /\
          (w1 = w \/ exists dev, calls w1 = calls w ++ [GetGattServices dev cached]))
    as [Hcache Hcalls].
  { unfold service_cache.
    destruct (_deviceMap w !! deviceUuid) as [r|] eqn:Hrec;
      [|unfold _getCachedServiceAsync in Hres; rewrite Hrec in Hres; discriminate Hres].
    destruct (serviceMap r !! serviceUuid) as [s|] eqn:Hkey.
    { unfold _getCachedServiceAsync in Hres. rewrite Hrec, Hkey in Hres.
      injection Hres as <- <-. rewrite Hrec. cbn. split; [done | by left]. }
    destruct (device r) as [dev|] eqn:Hdev;
      [|unfold _getCachedServiceAsync in Hres; rewrite Hrec, Hkey, Hdev in Hres;
        discriminate Hres].
    rewrite (getCachedService_outcome P T _ _ r dev w Hrec Hkey Hdev) in Hres.
    cbn zeta in Hres.
    destruct (getGattServicesAsync T (calls w) dev cached) as [err|result];
      [discriminate Hres|].
    destruct (write_failure P deviceUuid (inr (status result))); [discriminate Hres|].
    destruct (trackDisposables deviceUuid (map svc_object (items result)) (rt w))
      as [[e|tracked_items|e] st]; try discriminate Hres.
    destruct (List.find _ (items result)) as [s|]; [|discriminate Hres].
    injection Hres as <- <-. cbn. rewrite lookup_insert_eq. cbn.
    rewrite lookup_insert_eq. split; [done|]. right. by exists dev. }
  split; [|done].
  unfold service_cache in Hcache.
  destruct (_deviceMap w1 !! deviceUuid) as [r1|] eqn:Hrec1; [|discriminate Hcache].
  cbn in Hcache. unfold _getCachedServiceAsync. by rewrite Hrec1, Hcache.
Qed.

Lemma getCachedService_round_trip_witness :
  exists w1,
    _getCachedServiceAsync uwp peripheral "0011223344aa" "180d" connected
    = (Fulfilled svc_hr, w1) /\
    _getCachedServiceAsync uwp peripheral "0011223344aa" "180d" w1 = (Fulfilled svc_hr, w1) /\
    calls w1 = calls connected ++ [GetGattServices device_obj cached].
Proof.
  eexists. split; [reflexivity|].
  split; [|reflexivity].
  apply (getCachedService_round_trip uwp peripheral "0011223344aa" "180d" svc_hr connected).
  reflexivity.
Defined.

(** X18. A resolution of a service that does not yield a service leaves
    every record as it was: nothing is cached, and no event is emitted. *)
Theorem getCachedService_failure_keeps_records (P : Projection) (T : Transport)
    (deviceUuid serviceUuid : string) (w : World) :
  let out := _getCachedServiceAsync P T deviceUuid serviceUuid w in
  (forall service, fst out <> Fulfilled service) ->
  _deviceMap (snd out) = _deviceMap w /\ emitted (snd out) = emitted w /\
  _listenerMap (snd out) = _listenerMap w.
Proof.
  cbn zeta. intros Hfail.
  destruct (_deviceMap w !! deviceUuid) as [r|] eqn:Hrec;
    [|unfold _getCachedServiceAsync; by rewrite Hrec].
  destruct (serviceMap r !! serviceUuid) as [s|] eqn:Hkey;
    [unfold _getCachedServiceAsync; by rewrite Hrec, Hkey|].
  destruct (device r) as [dev|] eqn:Hdev;
    [|unfold _getCachedServiceAsync; by rewrite Hrec, Hkey, Hdev].
  rewrite (getCachedService_outcome P T _ _ r dev w Hrec Hkey Hdev) in *.
  cbn zeta in *.
  destruct (getGattServicesAsync T (calls w) dev cached) as [err|result]; [done|].
  destruct (write_failure P deviceUuid (inr (status result))); [done|].
  destruct (trackDisposables deviceUuid (map svc_object (items result)) (rt w))
    as [[e|tracked_items|e] st]; [done| |done].
  destruct (List.find _ (items result)) as [s|]; [|done].
  exfalso. by apply (Hfail s).
Qed.

Lemma getCachedService_failure_keeps_records_witness :
  fst (_getCachedServiceAsync uwp peripheral "0011223344aa" "ffff" connected)
  = Rejected (Error "Service ffff not found for device 0011223344aa") /\
  _deviceMap (snd (_getCachedServiceAsync uwp peripheral "0011223344aa" "ffff" connected))
  = _deviceMap connected.
Proof.
  split; [reflexivity|].
  apply (getCachedService_failure_keeps_records uwp peripheral "0011223344aa" "ffff" connected).
  intros service. discriminate.
Defined.



(** The resolution of a characteristic that is not cached, by how the
    resolution of its service ends and what the platform answers. *)
Lemma getCachedCharacteristic_outcome (P : Projection) (T : Transport)
    (deviceUuid serviceUuid characteristicUuid : string) (r : DeviceRecord) (w : World) :
  _deviceMap w !! deviceUuid = Some r ->
  characteristicMap r !! (serviceUuid +:+ "/" +:+ characteristicUuid) = None ->
  _getCachedCharacteristicAsync P T deviceUuid serviceUuid characteristicUuid w
  = match _getCachedServiceAsync P T deviceUuid serviceUuid w with
    | (Thrown e, w1) => (Thrown e, w1)
    | (Rejected e, w1) => (Rejected e, w1)
    | (Fulfilled service, w1) =>
        let w2 := add_call (GetCharacteristics service cached) w1 in
        match getCharacteristicsAsync T (calls w1) service cached with
        | inl err => (Rejected err, w2)
        | inr result =>
            match write_failure P deviceUuid (inr (status result)) with
            | Some e => (Rejected e, w2)
            | None =>
                match List.find
                        (fun c => String.eqb (formatUuid (chr_uuid c)) characteristicUuid)
                        (items result) with
                | None =>
                    (Rejected (Error ("Service " +:+ serviceUuid +:+ " characteristic " +:+
                                      characteristicUuid +:+ " not found for device " +:+
                                      deviceUuid)), w2)
                | Some characteristic =>
                    (Fulfilled characteristic,
                     set_deviceMap
                       (alter (fun r => set_characteristicMap
                                          (<[serviceUuid +:+ "/" +:+ characteristicUuid
                                             := characteristic]> (characteristicMap r)) r)
                          deviceUuid (_deviceMap w2))
                       w2)
                end
            end
        end
    end.
Proof.
  intros Hrec Hkey. unfold _getCachedCharacteristicAsync. rewrite Hrec, Hkey.
  unfold then_ at 1.
  destruct (_getCachedServiceAsync P T deviceUuid serviceUuid w) as [[e|service|e] w1];
    [done| |done].
  unfold then_, promisify. cbn zeta.
  destruct (getCharacteristicsAsync T (calls w1) service cached) as [err|result]; [done|].
  unfold bind at 1. rewrite checkCommunicationResult_write_failure.
  destruct (write_failure P deviceUuid (inr (status result))) as [e|]; [done|].
  by destruct (List.find _ (items result)) as [characteristic|].
Qed.

(** The resolution of a service keeps known devices known. *)
Lemma getCachedService_known (P : Projection) (T : Transport)
    (deviceUuid serviceUuid other : string) (w : World) :
  is_Some (_deviceMap w !! other) ->
  is_Some (_deviceMap (snd (_getCachedServiceAsync P T deviceUuid serviceUuid w)) !! other).
Proof.
  intros Hknown.
  destruct (_deviceMap w !! deviceUuid) as [r|] eqn:Hrec;
    [|unfold _getCachedServiceAsync; by rewrite Hrec].
  destruct (serviceMap r !! serviceUuid) as [s|] eqn:Hkey;
    [unfold _getCachedServiceAsync; by rewrite Hrec, Hkey|].
  destruct (device r) as [dev|] eqn:Hdev;
    [|unfold _getCachedServiceAsync; by rewrite Hrec, Hkey, Hdev].
  rewrite (getCachedService_outcome P T _ _ r dev w Hrec Hkey Hdev). cbn zeta.
  destruct (getGattServicesAsync T (calls w) dev cached) as [err|result]; [done|].
  destruct (write_failure P deviceUuid (inr (status result))); [done|].
  destruct (trackDisposables deviceUuid (map svc_object (items result)) (rt w))
    as [[e|tracked_items|e] st]; [done| |done].
  destruct (List.find _ (items result)) as [s|]; [|done].
  cbn. destruct (decide (deviceUuid = other)) as [<-|Hne].
  - rewrite lookup_insert_eq. by eexists.
  - by rewrite lookup_insert_ne.
Qed.

Lemma getCachedCharacteristic_caches (P : Projection) (T : Transport)
    (deviceUuid serviceUuid characteristicUuid : string) (characteristic : Characteristic)
    (w w1 : World) :
  _getCachedCharacteristicAsync P T deviceUuid serviceUuid characteristicUuid w
  = (Fulfilled characteristic, w1) ->
  characteristic_cache w1 deviceUuid (serviceUuid +:+ "/" +:+ characteristicUuid)
  = Some characteristic.
Proof.
  intros Hres.
  unfold characteristic_cache.
    destruct (_deviceMap w !! deviceUuid) as [r|] eqn:Hrec;
      [|unfold _getCachedCharacteristicAsync in Hres; rewrite Hrec in Hres;
        discriminate Hres].
    destruct (characteristicMap r !! (serviceUuid +:+ "/" +:+ characteristicUuid))
      as [c|] eqn:Hkey.
    { unfold _getCachedCharacteristicAsync in Hres. rewrite Hrec, Hkey in Hres.
      injection Hres as <- <-. by rewrite Hrec. }
    rewrite (getCachedCharacteristic_outcome P T _ _ _ r w Hrec Hkey) in Hres.
    pose proof (getCachedService_known P T deviceUuid serviceUuid deviceUuid w
                  ltac:(by eexists)) as Hknown.
    destruct (_getCachedServiceAsync P T deviceUuid serviceUuid w) as [[e|service|e] w2];
      try discriminate Hres.
    cbn [snd] in Hknown. destruct Hknown as [r2 Hr2]. cbn zeta in Hres.
    destruct (getCharacteristicsAsync T (calls w2) service cached) as [err|result];
      [discriminate Hres|].
    destruct (write_failure P deviceUuid (inr (status result))); [discriminate Hres|].
    destruct (List.find _ (items result)) as [c|]; [|discriminate Hres].
    injection Hres as <- <-. cbn. rewrite lookup_alter, decide_True by done.
    rewrite Hr2. cbn. apply lookup_insert_eq.
Qed.

Lemma getCachedCharacteristic_hit (P : Projection) (T : Transport)
    (deviceUuid serviceUuid characteristicUuid : string) (characteristic : Characteristic)
    (w : World) :
  characteristic_cache w deviceUuid (serviceUuid +:+ "/" +:+ characteristicUuid)
  = Some characteristic ->
  _getCachedCharacteristicAsync P T deviceUuid serviceUuid characteristicUuid w
  = (Fulfilled characteristic, w).
Proof.
  unfold characteristic_cache. intros Hcache.
  destruct (_deviceMap w !! deviceUuid) as [r1|] eqn:Hrec1; [|discriminate Hcache].
  cbn in Hcache. unfold _getCachedCharacteristicAsync. by rewrite Hrec1, Hcache.
Qed.

(** X20. A characteristic that was resolved is served from the cache
    afterwards: resolving it again at once gives the same characteristic,
    makes no transport call and changes nothing. *)
Theorem getCachedCharacteristic_round_trip (P : Projection) (T : Transport)
    (deviceUuid serviceUuid characteristicUuid : string) (characteristic : Characteristic)
    (w w1 : World) :
  _getCachedCharacteristicAsync P T deviceUuid serviceUuid characteristicUuid w
  = (Fulfilled characteristic, w1) ->
  _getCachedCharacteristicAsync P T deviceUuid serviceUuid characteristicUuid w1
  = (Fulfilled characteristic, w1) /\
  characteristic_cache w1 deviceUuid (serviceUuid +:+ "/" +:+ characteristicUuid)
  = Some characteristic.
Proof.
  intros Hres.
  pose proof (getCachedCharacteristic_caches P T _ _ _ _ _ _ Hres) as Hcache.
  split; [|done]. by apply getCachedCharacteristic_hit.
Qed.

Lemma getCachedCharacteristic_round_trip_witness :
  _getCachedCharacteristicAsync uwp peripheral "0011223344aa" "180d" "2a37" connected
  = (Fulfilled chr_measurement, resolved) /\
  _getCachedCharacteristicAsync uwp peripheral "0011223344aa" "180d" "2a37" resolved
  = (Fulfilled chr_measurement, resolved) /\
  calls resolved
  = calls connected ++
    [GetGattServices device_obj cached; GetCharacteristics svc_hr cached].
Proof.
  split; [reflexivity|]. split; [|reflexivity].
  apply (getCachedCharacteristic_round_trip uwp peripheral "0011223344aa" "180d" "2a37"
           chr_measurement connected resolved).
  reflexivity.
Defined.

Lemma cached_queries_none (n : nat) (w w' : World) :
  calls w' = calls w -> cached_queries n w w'.
Proof. intros H. exists []. rewrite app_nil_r. split; [done|]. split; [done | cbn; lia]. Qed.

Lemma cached_queries_one (n : nat) (c : TransportCall) (w w' : World) :
  is_cached_query c = true -> calls w' = calls w ++ [c] -> cached_queries (S n) w w'.
Proof.
  intros Hc H. exists [c]. split; [done|]. cbn. rewrite Hc. split; [done | lia].
Qed.

Lemma cached_queries_trans (n m : nat) (w1 w2 w3 : World) :
  cached_queries n w1 w2 -> cached_queries m w2 w3 -> cached_queries (n + m) w1 w3.
Proof.
  intros (e1 & H1 & Q1 & L1) (e2 & H2 & Q2 & L2). exists (e1 ++ e2).
  rewrite H2, H1, app_assoc, forallb_app, Q1, Q2, length_app. repeat split. lia.
Qed.

Lemma getCachedService_cached_queries (P : Projection) (T : Transport)
    (deviceUuid serviceUuid : string) (w : World) :
  cached_queries 1 w (snd (_getCachedServiceAsync P T deviceUuid serviceUuid w)).
Proof.
  destruct (_deviceMap w !! deviceUuid) as [r|] eqn:Hrec;
    [|unfold _getCachedServiceAsync; rewrite Hrec; by apply cached_queries_none].
  destruct (serviceMap r !! serviceUuid) as [s|] eqn:Hkey;
    [unfold _getCachedServiceAsync; rewrite Hrec, Hkey; by apply cached_queries_none|].
  destruct (device r) as [dev|] eqn:Hdev;
    [|unfold _getCachedServiceAsync; rewrite Hrec, Hkey, Hdev; by apply cached_queries_none].
  rewrite (getCachedService_outcome P T _ _ r dev w Hrec Hkey Hdev). cbn zeta.
  destruct (getGattServicesAsync T (calls w) dev cached) as [err|result];
    [by apply (cached_queries_one 0 (GetGattServices dev cached))|].
  destruct (write_failure P deviceUuid (inr (status result)));
    [by apply (cached_queries_one 0 (GetGattServices dev cached))|].
  destruct (trackDisposables deviceUuid (map svc_object (items result)) (rt w))
    as [[e|tracked_items|e] st];
    try by apply (cached_queries_one 0 (GetGattServices dev cached)).
  destruct (List.find _ (items result)) as [s|];
    by apply (cached_queries_one 0 (GetGattServices dev cached)).
Qed.

Lemma getCachedCharacteristic_cached_queries (P : Projection) (T : Transport)
    (deviceUuid serviceUuid characteristicUuid : string) (w : World) :
  cached_queries 2 w
    (snd (_getCachedCharacteristicAsync P T deviceUuid serviceUuid characteristicUuid w)).
Proof.
  destruct (_deviceMap w !! deviceUuid) as [r|] eqn:Hrec;
    [|unfold _getCachedCharacteristicAsync; rewrite Hrec; by apply cached_queries_none].
  destruct (characteristicMap r !! (serviceUuid +:+ "/" +:+ characteristicUuid))
    as [c|] eqn:Hkey;
    [unfold _getCachedCharacteristicAsync; rewrite Hrec, Hkey; by apply cached_queries_none|].
  rewrite (getCachedCharacteristic_outcome P T _ _ _ r w Hrec Hkey).
  pose proof (getCachedService_cached_queries P T deviceUuid serviceUuid w) as Hs.
  destruct (_getCachedServiceAsync P T deviceUuid serviceUuid w) as [[e|service|e] w1];
    cbn [snd] in *.
  - destruct Hs as (ex & ? & ? & ?). exists ex. repeat split; [done..|lia].
  - apply (cached_queries_trans 1 1 w w1); [done|]. cbn zeta.
    destruct (getCharacteristicsAsync T (calls w1) service cached) as [err|result];
      [by apply (cached_queries_one 0 (GetCharacteristics service cached))|].
    destruct (write_failure P deviceUuid (inr (status result)));
      [by apply (cached_queries_one 0 (GetCharacteristics service cached))|].
    destruct (List.find _ (items result)) as [c|];
      by apply (cached_queries_one 0 (GetCharacteristics service cached)).
  - destruct Hs as (ex & ? & ? & ?). exists ex. repeat split; [done..|lia].
Qed.

(** X21. Whatever the outcome, the resolvers reach the platform through
    queries in cached mode only: the resolution of a service makes at most
    one call, those of a characteristic and of a descriptor at most two. *)
Theorem resolvers_query_cached_only (P : Projection) (T : Transport)
    (deviceUuid serviceUuid characteristicUuid descriptorUuid : string) (w : World) :
  cached_queries 1 w (snd (_getCachedServiceAsync P T deviceUuid serviceUuid w)) /\
  cached_queries 2 w
    (snd (_getCachedCharacteristicAsync P T deviceUuid serviceUuid characteristicUuid w)) /\
  cached_queries 2 w
    (snd (_getCachedDescriptorAsync P T deviceUuid serviceUuid characteristicUuid
            descriptorUuid w)).
Proof.
  split; [apply getCachedService_cached_queries|].
  split; [apply getCachedCharacteristic_cached_queries|].
  destruct (_deviceMap w !! deviceUuid) as [r|] eqn:Hrec;
    [|unfold _getCachedDescriptorAsync; rewrite Hrec; by apply cached_queries_none].
  destruct (descriptorMap r
              !! (serviceUuid +:+ "/" +:+ characteristicUuid +:+ "/" +:+ descriptorUuid))
    as [d|] eqn:Hkey;
    [unfold _getCachedDescriptorAsync; rewrite Hrec, Hkey; by apply cached_queries_none|].
  rewrite (getCachedDescriptor_uncached P T _ _ _ _ _ w Hrec Hkey).
  pose proof (getCachedCharacteristic_cached_queries P T deviceUuid serviceUuid
                characteristicUuid w) as Hc.
  by destruct (_getCachedCharacteristicAsync P T deviceUuid serviceUuid characteristicUuid w)
    as [[e|c|e] w1].
Qed.

(** ** notify and write, once the characteristic is resolved *)

Lemma promisify_check_success (P : Projection) (deviceUuid : string) (c : TransportCall)
    (answer : list TransportCall -> JsError + Z) (k : Async unit) (w : World) :
  write_failure P deviceUuid (answer (calls w)) = None ->
  then_ (promisify c answer)
    (fun result => checkCommunicationResult P deviceUuid result ;; k) w
  = match k (add_call c w) with
    | (Thrown e, w') => (Rejected e, w')
    | r => r
    end.
Proof.
  intros Hok. unfold then_, promisify.
  destruct (answer (calls w)) as [e|st]; [discriminate Hok|].
  unfold bind. by rewrite checkCommunicationResult_write_failure, Hok.
Qed.

(** [notify] by the state of the subscription and the answer of the
    platform. *)
Lemma notify_outcome (P : Projection) (T : Transport)
    (deviceUuid serviceUuid characteristicUuid : string) (flag : bool)
    (c : Characteristic) (w w1 : World) :
  _getCachedCharacteristicAsync P T deviceUuid serviceUuid characteristicUuid w
  = (Fulfilled c, w1) ->
  let key := listener_key deviceUuid serviceUuid characteristicUuid in
  let ev arg := ev_notify deviceUuid serviceUuid characteristicUuid arg in
  let write v h :=
    writeClientCharacteristicConfigurationDescriptorWithResultAsync T h c v in
  notify P T deviceUuid serviceUuid characteristicUuid flag w
  = (Fulfilled tt,
     match flag, _listenerMap w1 !! key with
     | true, Some _ => add_emitted (ev (inl true)) w1
     | true, None =>
         let w2 := add_call (WriteCccd c cccd_notify) w1 in
         match write_failure P deviceUuid (write cccd_notify (calls w1)) with
         | Some err => add_emitted (ev (inr err)) w2
         | None =>
             let l := listener_of deviceUuid serviceUuid characteristicUuid in
             add_emitted (ev (inl true))
               (set_rt (keepAlive true (rt w1))
                  (set_listenerMap (<[key := l]> (_listenerMap w1))
                     (add_call (AddListener c l) w2)))
         end
     | false, None => add_emitted (ev (inl false)) w1
     | false, Some l =>
         let w2 :=
           set_listenerMap (delete key (_listenerMap w1))
             (add_call (RemoveListener c l) (set_rt (keepAlive false (rt w1)) w1)) in
         let w3 := add_call (WriteCccd c cccd_none) w2 in
         match write_failure P deviceUuid (write cccd_none (calls w2)) with
         | Some err => add_emitted (ev (inr err)) w3
         | None => add_emitted (ev (inl false)) w3
         end
     end).
Proof.
  intros Hres. cbn zeta. unfold notify, catch_. unfold then_ at 1. rewrite Hres.
  unfold listener_key.
  destruct flag; destruct (_listenerMap w1 !! _) as [l|] eqn:Hl; try done.
  - destruct (write_failure P deviceUuid
                (writeClientCharacteristicConfigurationDescriptorWithResultAsync T
                   (calls w1) c cccd_notify)) as [err|] eqn:Hw.
    + by rewrite (promisify_check_failure P deviceUuid _ _ _ err w1 Hw).
    + by rewrite (promisify_check_success P deviceUuid _ _ _ w1 Hw).
  - unfold keepAliveA, call, modify, bind at 1 2 3.
    change (_listenerMap (add_call (RemoveListener c l) (set_rt (keepAlive false (rt w1)) w1)))
      with (_listenerMap w1).
    match goal with
    | |- context [then_ _ _ ?w2] =>
        destruct (write_failure P deviceUuid
                    (writeClientCharacteristicConfigurationDescriptorWithResultAsync T
                       (calls w2) c cccd_none)) as [err|] eqn:Hw
    end.
    + by erewrite promisify_check_failure by exact Hw.
    + by erewrite promisify_check_success by exact Hw.
Qed.

(** X22. Redundant calls of [notify] are free: enabling a characteristic
    that has a subscription entry, and disabling one that has none, emit
    the 'notify' event with the requested state at once, without a
    descriptor write and without touching the entries. *)
Theorem notify_redundant (P : Projection) (T : Transport)
    (deviceUuid serviceUuid characteristicUuid : string)
    (c : Characteristic) (w w1 : World) :
  _getCachedCharacteristicAsync P T deviceUuid serviceUuid characteristicUuid w
  = (Fulfilled c, w1) ->
  let key := listener_key deviceUuid serviceUuid characteristicUuid in
  (is_Some (_listenerMap w !! key) ->
   notify P T deviceUuid serviceUuid characteristicUuid true w
   = (Fulfilled tt,
      add_emitted (ev_notify deviceUuid serviceUuid characteristicUuid (inl true)) w1)) /\
  (_listenerMap w !! key = None ->
   notify P T deviceUuid serviceUuid characteristicUuid false w
   = (Fulfilled tt,
      add_emitted (ev_notify deviceUuid serviceUuid characteristicUuid (inl false)) w1)).
Proof.
  intros Hres. cbn zeta.
  pose proof (getCachedCharacteristic_listenerMap P T deviceUuid serviceUuid
                characteristicUuid w) as Hl.
  rewrite Hres in Hl. cbn [snd] in Hl.
  split.
  - intros [l Hsome]. rewrite (notify_outcome P T _ _ _ true c w w1 Hres). cbn zeta.
    by rewrite Hl, Hsome.
  - intros Hnone. rewrite (notify_outcome P T _ _ _ false c w w1 Hres). cbn zeta.
    by rewrite Hl, Hnone.
Qed.

Lemma notify_redundant_witness :
  notify uwp peripheral "0011223344aa" "180d" "2a37" true subscribed
  = (Fulfilled tt,
     add_emitted (ev_notify "0011223344aa" "180d" "2a37" (inl true)) subscribed) /\
  notify uwp peripheral "0011223344aa" "180d" "2a37" false resolved
  = (Fulfilled tt,
     add_emitted (ev_notify "0011223344aa" "180d" "2a37" (inl false)) resolved).
Proof.
  split.
  - apply (proj1 (notify_redundant uwp peripheral "0011223344aa" "180d" "2a37"
                    chr_measurement subscribed subscribed eq_refl)).
    eexists. reflexivity.
  - apply (proj2 (notify_redundant uwp peripheral "0011223344aa" "180d" "2a37"
                    chr_measurement resolved resolved eq_refl)).
    reflexivity.
Defined.

Lemma characteristic_cache_same_records (w w' : World) (deviceUuid key : string) :
  _deviceMap w' = _deviceMap w ->
  characteristic_cache w' deviceUuid key = characteristic_cache w deviceUuid key.
Proof. unfold characteristic_cache. by intros ->. Qed.

(** X23. Enabling notifications on a characteristic without an entry, when
    the descriptor write succeeds, writes the descriptor once, attaches the
    listener, stores the entry, takes one keep-alive reference and emits
    'notify' with true.  Enabling again right away issues no further
    transport call: two enables in a row make exactly one descriptor
    write. *)
Theorem notify_enables_once (P : Projection) (T : Transport)
    (deviceUuid serviceUuid characteristicUuid : string)
    (c : Characteristic) (w w1 : World) :
  let key := listener_key deviceUuid serviceUuid characteristicUuid in
  let l := listener_of deviceUuid serviceUuid characteristicUuid in
  let ev := ev_notify deviceUuid serviceUuid characteristicUuid (inl true) in
  _getCachedCharacteristicAsync P T deviceUuid serviceUuid characteristicUuid w
  = (Fulfilled c, w1) ->
  _listenerMap w !! key = None ->
  write_failure P deviceUuid
    (writeClientCharacteristicConfigurationDescriptorWithResultAsync T (calls w1) c
       cccd_notify) = None ->
  exists w',
    notify P T deviceUuid serviceUuid characteristicUuid true w = (Fulfilled tt, w') /\
    _listenerMap w' = <[key := l]> (_listenerMap w) /\
    calls w' = calls w1 ++ [WriteCccd c cccd_notify; AddListener c l] /\
    keepAliveIntervalCount (rt w') = keepAliveIntervalCount (rt w1) + 1 /\
    emitted w' = emitted w ++ [ev] /\
    _deviceMap w' = _deviceMap w1 /\
    notify P T deviceUuid serviceUuid characteristicUuid true w'
    = (Fulfilled tt, add_emitted ev w').
Proof.
  cbn zeta. intros Hres Hnone Hok.
  pose proof (getCachedCharacteristic_frame P T deviceUuid serviceUuid characteristicUuid w)
    as (Hl & He & _ & _).
  rewrite Hres in Hl, He. cbn [snd] in Hl, He.
  rewrite (notify_outcome P T _ _ _ true c w w1 Hres). cbn zeta.
  rewrite Hl, Hnone, Hok. eexists. split; [reflexivity|].
  cbn [_listenerMap calls rt emitted _deviceMap add_emitted set_rt set_listenerMap add_call
         keepAlive keepAliveIntervalCount].
  rewrite He, <- app_assoc. do 5 (split; [done|]).
  match goal with |- notify _ _ _ _ _ _ ?w' = _ => set (w2 := w') end.
  assert (_getCachedCharacteristicAsync P T deviceUuid serviceUuid characteristicUuid w2
          = (Fulfilled c, w2)) as Hres2.
  { apply getCachedCharacteristic_hit.
    rewrite (characteristic_cache_same_records w1 w2) by done.
    by eapply getCachedCharacteristic_caches. }
  rewrite (notify_outcome P T _ _ _ true c w2 w2 Hres2). cbn zeta.
  subst w2. cbn [_listenerMap add_emitted set_rt set_listenerMap].
  by rewrite lookup_insert_eq.
Qed.

Lemma notify_enables_once_witness :
  exists w',
    notify uwp peripheral "0011223344aa" "180d" "2a37" true connected = (Fulfilled tt, w') /\
    calls w' = calls resolved ++
      [WriteCccd chr_measurement cccd_notify;
       AddListener chr_measurement (listener_of "0011223344aa" "180d" "2a37")] /\
    List.filter is_WriteCccd
      (calls (snd (notify uwp peripheral "0011223344aa" "180d" "2a37" true w')))
    = [WriteCccd chr_measurement cccd_notify].
Proof.
  destruct (notify_enables_once uwp peripheral "0011223344aa" "180d" "2a37"
              chr_measurement connected resolved eq_refl eq_refl eq_refl)
    as (w' & Heq & _ & Hcalls & _ & _ & _ & Hagain).
  exists w'. split; [exact Heq|]. split; [exact Hcalls|].
  rewrite Hagain. cbn [snd add_emitted calls]. rewrite Hcalls. reflexivity.
Defined.

(** X24. Enabling and then disabling notifications, both descriptor writes
    succeeding, restores the subscription entries and the keep-alive count;
    the platform saw, in this order, the enabling write, the attachment of
    the listener, its removal and the disabling write, and 'notify' was
    emitted with true and then with false. *)
Theorem notify_enable_disable_round_trip (P : Projection) (T : Transport)
    (deviceUuid serviceUuid characteristicUuid : string)
    (c : Characteristic) (w w1 : World) :
  let key := listener_key deviceUuid serviceUuid characteristicUuid in
  let l := listener_of deviceUuid serviceUuid characteristicUuid in
  let ev b := ev_notify deviceUuid serviceUuid characteristicUuid (inl b) in
  _getCachedCharacteristicAsync P T deviceUuid serviceUuid characteristicUuid w
  = (Fulfilled c, w1) ->
  _listenerMap w !! key = None ->
  write_failure P deviceUuid
    (writeClientCharacteristicConfigurationDescriptorWithResultAsync T (calls w1) c
       cccd_notify) = None ->
  write_failure P deviceUuid
    (writeClientCharacteristicConfigurationDescriptorWithResultAsync T
       (calls w1 ++ [WriteCccd c cccd_notify; AddListener c l; RemoveListener c l]) c
       cccd_none) = None ->
  exists w' w'',
    notify P T deviceUuid serviceUuid characteristicUuid true w = (Fulfilled tt, w') /\
    notify P T deviceUuid serviceUuid characteristicUuid false w' = (Fulfilled tt, w'') /\
    _listenerMap w'' = _listenerMap w /\
    keepAliveIntervalCount (rt w'') = keepAliveIntervalCount (rt w1) /\
    calls w''
    = calls w1 ++ [WriteCccd c cccd_notify; AddListener c l; RemoveListener c l;
                   WriteCccd c cccd_none] /\
    emitted w'' = emitted w ++ [ev true; ev false] /\
    _deviceMap w'' = _deviceMap w1.
Proof.
  cbn zeta. intros Hres Hnone Hok1 Hok2.
  pose proof (getCachedCharacteristic_frame P T deviceUuid serviceUuid characteristicUuid w)
    as (Hl & He & _ & _).
  rewrite Hres in Hl, He. cbn [snd] in Hl, He.
  rewrite (notify_outcome P T _ _ _ true c w w1 Hres). cbn zeta.
  rewrite Hl, Hnone, Hok1.
  match goal with |- exists w' _, (_, ?x) = _ /\ _ => remember x as w2 eqn:Hw2 end.
  exists w2.
  assert (_deviceMap w2 = _deviceMap w1) as Hm2 by (by subst w2).
  assert (_listenerMap w2
          = <[listener_key deviceUuid serviceUuid characteristicUuid
              := listener_of deviceUuid serviceUuid characteristicUuid]> (_listenerMap w))
    as Hl2 by (by subst w2).
  assert (calls w2
          = calls w1 ++ [WriteCccd c cccd_notify;
                         AddListener c (listener_of deviceUuid serviceUuid characteristicUuid)])
    as Hc2 by (subst w2; cbn; by rewrite <- app_assoc).
  assert (keepAliveIntervalCount (rt w2) = keepAliveIntervalCount (rt w1) + 1) as Hk2
    by (by subst w2).
  assert (emitted w2
          = emitted w ++ [ev_notify deviceUuid serviceUuid characteristicUuid (inl true)])
    as He2 by (subst w2; cbn; by rewrite He).
  clear Hw2.
  assert (_getCachedCharacteristicAsync P T deviceUuid serviceUuid characteristicUuid w2
          = (Fulfilled c, w2)) as Hres2.
  { apply getCachedCharacteristic_hit.
    rewrite (characteristic_cache_same_records w1 w2) by done.
    by eapply getCachedCharacteristic_caches. }
  rewrite (notify_outcome P T _ _ _ false c w2 w2 Hres2). cbn zeta.
  rewrite Hl2, lookup_insert_eq.
  cbn [calls set_listenerMap add_call set_rt]. rewrite Hc2, <- app_assoc. cbn [app].
  rewrite Hok2.
  eexists. split; [reflexivity|]. split; [reflexivity|].
  cbn [_listenerMap calls rt emitted _deviceMap add_emitted set_rt set_listenerMap add_call].
  split; [rewrite delete_insert_eq; by apply delete_id|].
  split; [rewrite keepAlive_count_step, Hk2; lia|].
  split; [rewrite Hc2; by rewrite <- !app_assoc|].
  split; [rewrite He2; by rewrite <- app_assoc | done].
Qed.

Lemma notify_enable_disable_round_trip_witness :
  exists w' w'',
    notify uwp peripheral_ok "0011223344aa" "180d" "2a37" true connected
    = (Fulfilled tt, w') /\
    notify uwp peripheral_ok "0011223344aa" "180d" "2a37" false w' = (Fulfilled tt, w'') /\
    _listenerMap w'' = _listenerMap connected /\
    keepAliveIntervalCount (rt w'') = 0.
Proof.
  destruct (notify_enable_disable_round_trip uwp peripheral_ok "0011223344aa" "180d" "2a37"
              chr_measurement connected resolved eq_refl eq_refl eq_refl eq_refl)
    as (w' & w'' & H1 & H2 & Hl & Hk & _).
  exists w', w''. repeat split; assumption.
Defined.

(** [write] by how the resolution of the characteristic ends and what the
    platform answers. *)
Lemma write_outcome (P : Projection) (T : Transport)
    (deviceUuid serviceUuid characteristicUuid : string) (data : list Z)
    (withoutResponse : bool) (w : World) :
  let ev err := ev_write deviceUuid serviceUuid characteristicUuid err in
  let surfaced err w1 := if withoutResponse then w1 else add_emitted (ev (Some err)) w1 in
  write P T deviceUuid serviceUuid characteristicUuid data withoutResponse w
  = match _getCachedCharacteristicAsync P T deviceUuid serviceUuid characteristicUuid w with
    | (Thrown e, w1) => (Thrown e, w1)
    | (Rejected e, w1) => (Fulfilled tt, surfaced e w1)
    | (Fulfilled c, w1) =>
        let w2 := add_call (CharacteristicWrite c data) w1 in
        match write_failure P deviceUuid
                (characteristic_writeValueWithResultAsync T (calls w1) c data) with
        | Some err => (Fulfilled tt, surfaced err w2)
        | None => (Fulfilled tt, add_emitted (ev None) w2)
        end
    end.
Proof.
  cbn zeta. unfold write, catch_. unfold then_ at 1.
  destruct (_getCachedCharacteristicAsync P T deviceUuid serviceUuid characteristicUuid w)
    as [[e|c|e] w1]; [done| |by destruct withoutResponse].
  destruct (write_failure P deviceUuid
              (characteristic_writeValueWithResultAsync T (calls w1) c data)) as [err|] eqn:Hw.
  - rewrite (promisify_check_failure P deviceUuid _ _ _ err w1 Hw).
    by destruct withoutResponse.
  - by rewrite (promisify_check_success P deviceUuid _ _ _ w1 Hw).
Qed.

(** X25. A resolver that throws at once (unknown device, not connected)
    escapes [write] as an exception.  Otherwise [write] completes.  When the
    resolution of the characteristic is rejected, or the transport write
    fails, the error is surfaced in one 'write' event, unless the caller
    asked for a write without response: then nothing is emitted.  When the
    transport write succeeds one 'write' event without an error is
    emitted. *)
Theorem write_surfaces_unless_without_response (P : Projection) (T : Transport)
    (deviceUuid serviceUuid characteristicUuid : string) (data : list Z)
    (withoutResponse : bool) (w : World) :
  let out := write P T deviceUuid serviceUuid characteristicUuid data withoutResponse w in
  let resolution :=
    _getCachedCharacteristicAsync P T deviceUuid serviceUuid characteristicUuid w in
  let ev err := ev_write deviceUuid serviceUuid characteristicUuid err in
  (forall e, fst resolution = Thrown e -> out = (Thrown e, snd resolution)) /\
  (forall e,
     fst resolution = Rejected e ->
     fst out = Fulfilled tt /\
     emitted (snd out)
     = (if withoutResponse then emitted w else emitted w ++ [ev (Some e)]) /\
     calls (snd out) = calls (snd resolution)) /\
  (forall c w1 err,
     resolution = (Fulfilled c, w1) ->
     write_failure P deviceUuid
       (characteristic_writeValueWithResultAsync T (calls w1) c data) = Some err ->
     fst out = Fulfilled tt /\
     emitted (snd out)
     = (if withoutResponse then emitted w else emitted w ++ [ev (Some err)]) /\
     calls (snd out) = calls w1 ++ [CharacteristicWrite c data]) /\
  (forall c w1,
     resolution = (Fulfilled c, w1) ->
     write_failure P deviceUuid
       (characteristic_writeValueWithResultAsync T (calls w1) c data) = None ->
     fst out = Fulfilled tt /\
     emitted (snd out) = emitted w ++ [ev None] /\
     calls (snd out) = calls w1 ++ [CharacteristicWrite c data]).
Proof.
  cbn zeta. rewrite write_outcome. cbn zeta.
  pose proof (getCachedCharacteristic_frame P T deviceUuid serviceUuid characteristicUuid w)
    as (_ & He & _ & _).
  destruct (_getCachedCharacteristicAsync P T deviceUuid serviceUuid characteristicUuid w)
    as [[e|c|e] w1]; cbn [fst snd] in *.
  - split; [intros e' [= <-]; done|]. split; [intros e' [=]|].
    split; [intros c w2 err [=] | intros c w2 [=]].
  - split; [intros e' [=]|]. split; [intros e' [=]|]. split.
    + intros c' w2 err [= <- <-] ->. cbn [fst snd]. split; [done|].
      destruct withoutResponse; cbn; by rewrite He.
    + intros c' w2 [= <- <-] ->. cbn [fst snd]. split; [done|]. cbn. by rewrite He.
  - split; [intros e' [=]|]. split.
    + intros e' [= <-]. split; [done|]. destruct withoutResponse; cbn; by rewrite He.
    + split; [intros c w2 err [=] | intros c w2 [=]].
Qed.

Lemma write_surfaces_unless_without_response_witness :
  emitted (snd (write uwp peripheral_failing "0011223344aa" "180d" "2a37" [1; 0] false
                  connected))
  = emitted connected ++ [ev_write "0011223344aa" "180d" "2a37" (Some (NativeError 6))] /\
  emitted (snd (write uwp peripheral_failing "0011223344aa" "180d" "2a37" [1; 0] true
                  connected))
  = emitted connected /\
  emitted (snd (write uwp peripheral "0011223344aa" "180d" "2a37" [1; 0] true connected))
  = emitted connected /\
  emitted (snd (write uwp peripheral "0011223344aa" "180d" "2a37" [1; 0] false connected))
  = emitted connected ++
    [ev_write "0011223344aa" "180d" "2a37" (Some (Error "Device unreachable: 0011223344aa"))] /\
  emitted (snd (write uwp peripheral_ok "0011223344aa" "180d" "2a37" [1; 0] true connected))
  = emitted connected ++ [ev_write "0011223344aa" "180d" "2a37" None] /\
  fst (write uwp peripheral "0011223344aa" "180d" "2a37" [1; 0] false after_adv)
  = Thrown (Error "Device is not connected. UUID: 0011223344aa").
Proof.
  split; [|split; [|split; [|split; [|split]]]].
  - apply (proj1 (proj2 (write_surfaces_unless_without_response uwp peripheral_failing
                           "0011223344aa" "180d" "2a37" [1; 0] false connected))
             (NativeError 6)); reflexivity.
  - apply (proj1 (proj2 (write_surfaces_unless_without_response uwp peripheral_failing
                           "0011223344aa" "180d" "2a37" [1; 0] true connected))
             (NativeError 6)); reflexivity.
  - apply (proj1 (proj2 (proj2 (write_surfaces_unless_without_response uwp peripheral
                                  "0011223344aa" "180d" "2a37" [1; 0] true connected)))
             chr_measurement resolved (Error "Device unreachable: 0011223344aa"));
      reflexivity.
  - apply (proj1 (proj2 (proj2 (write_surfaces_unless_without_response uwp peripheral
                                  "0011223344aa" "180d" "2a37" [1; 0] false connected)))
             chr_measurement resolved (Error "Device unreachable: 0011223344aa"));
      reflexivity.
  - apply (proj2 (proj2 (proj2 (write_surfaces_unless_without_response uwp peripheral_ok
                                  "0011223344aa" "180d" "2a37" [1; 0] true connected)))
             chr_measurement resolved); reflexivity.
  - rewrite (proj1 (write_surfaces_unless_without_response uwp peripheral
                      "0011223344aa" "180d" "2a37" [1; 0] false after_adv)
               (Error "Device is not connected. UUID: 0011223344aa") eq_refl).
    reflexivity.
Defined.

(** X26. A status other than unreachable and protocolError counts as a
    success: when the platform answers the write of a resolved
    characteristic with such a status (accessDenied, say), [write] emits
    the 'write' event without an error, whatever [withoutResponse] is. *)
Theorem write_other_status_is_success (P : Projection) (T : Transport)
    (deviceUuid serviceUuid characteristicUuid : string) (data : list Z)
    (withoutResponse : bool) (c : Characteristic) (st : Z) (w w1 : World) :
  _getCachedCharacteristicAsync P T deviceUuid serviceUuid characteristicUuid w
  = (Fulfilled c, w1) ->
  characteristic_writeValueWithResultAsync T (calls w1) c data = inr st ->
  st <> gcs_unreachable (status_enum P) ->
  st <> gcs_protocolError (status_enum P) ->
  write P T deviceUuid serviceUuid characteristicUuid data withoutResponse w
  = (Fulfilled tt,
     add_emitted (ev_write deviceUuid serviceUuid characteristicUuid None)
       (add_call (CharacteristicWrite c data) w1)).
Proof.
  intros Hres Hst Hu Hp. rewrite write_outcome. cbn zeta. rewrite Hres, Hst.
  unfold write_failure.
  apply Z.eqb_neq in Hu, Hp. by rewrite Hu, Hp.
Qed.

Lemma write_other_status_is_success_witness :
  emitted (snd (write uwp peripheral_denying "0011223344aa" "180d" "2a37" [1; 0] false
                  connected))
  = emitted connected ++ [ev_write "0011223344aa" "180d" "2a37" None].
Proof.
  rewrite (write_other_status_is_success uwp peripheral_denying "0011223344aa" "180d" "2a37"
             [1; 0] false chr_measurement 3 connected resolved);
    [reflexivity | reflexivity | reflexivity | vm_compute; discriminate
    | vm_compute; discriminate].
Defined.

(** ** The decoder of characteristic properties, continued *)

(** X27. [characteristicPropertiesToStrings] lists the names in the fixed
    order of its tests and never lists a name twice; when the broadcast test
    succeeds the list holds both broadcast and authenticatedSignedWrites. *)
Theorem characteristicPropertiesToStrings_ordered
    (G : GattCharacteristicProperties) (props : Z) :
  let strings := characteristicPropertiesToStrings G props in
  sublist strings property_names /\
  NoDup strings /\
  ("broadcast" ∈ strings <-> "authenticatedSignedWrites" ∈ strings).
Proof.
  cbn zeta.
  assert (NoDup property_names) as Hnd.
  { apply (bool_decide_unpack _). by vm_compute. }
  assert (sublist (characteristicPropertiesToStrings G props) property_names) as Hsub.
  { unfold characteristicPropertiesToStrings, property_names, push_if.
    repeat case_match; cbn [app];
      repeat first [apply sublist_nil | apply sublist_skip | apply sublist_cons]. }
  split; [done|]. split; [by eapply sublist_NoDup|].
  rewrite (proj1 (characteristicPropertiesToStrings_own_bits G props)).
  unfold characteristicPropertiesToStrings.
  repeat rewrite elem_of_push_if. rewrite truthy_num_true, elem_of_nil.
  intuition (try discriminate; auto).
Qed.
